(** * API Endpoint Usage Checker: a shallow embedding of [app.py]

    The development follows the layout of the program: Python strings and
    the fragment of the [re] engine the program relies on, the Spec Loader
    ([load_endpoints]), the Pattern Compiler ([endpoint_to_regex]), the
    Tree Scanner ([find_endpoints_in_code]), the merge loop of the main
    script and the Report Builder ([export_to_csv]). *)

From Stdlib Require Import List NArith ZArith Bool Arith Lia Permutation Sorted.
From Stdlib Require Import Strings.String Strings.Ascii Strings.Byte DecimalString.
Import ListNotations.

Set Implicit Arguments.

(** ** Python strings

    A Python [str] is a sequence of Unicode code points.  Code points are
    natural numbers; string literals of the source are written with [py]. *)

Module Str.

Definition char := N.
Definition str := list char.

Definition py (s : string) : str :=
  List.map N_of_ascii (list_ascii_of_string s).

Definition NL : char := 10%N.
Definition BSLASH : char := 92%N.

Definition char_in (c : char) (cs : str) : bool := existsb (N.eqb c) cs.

Fixpoint str_eqb (a b : str) : bool :=
  match a, b with
  | [], [] => true
  | x :: a', y :: b' => N.eqb x y && str_eqb a' b'
  | _, _ => false
  end.

Fixpoint startswith (s prefix : str) : bool :=
  match prefix, s with
  | [], _ => true
  | p :: prefix', c :: s' => N.eqb c p && startswith s' prefix'
  | _ :: _, [] => false
  end.

(** [s.endswith(suffix)] *)
Definition endswith (s suffix : str) : bool :=
  startswith (rev s) (rev suffix).

(** [s.endswith((a, b, ...))] with a tuple of suffixes *)
Definition endswith_any (s : str) (suffixes : list str) : bool :=
  existsb (endswith s) suffixes.

Fixpoint dropwhile (p : char -> bool) (s : str) : str :=
  match s with
  | [] => []
  | c :: s' => if p c then dropwhile p s' else s
  end.

(** [s.rstrip(chars)]: remove the trailing characters that occur in [chars] *)
Definition rstrip_chars (chars : str) (s : str) : str :=
  rev (dropwhile (fun c => char_in c chars) (rev s)).

(** The case mapping of the ASCII letters *)
Definition lower (c : char) : char :=
  if (65 <=? c)%N && (c <=? 90)%N then (c + 32)%N else c.

Definition upper (c : char) : char :=
  if (97 <=? c)%N && (c <=? 122)%N then (c - 32)%N else c.

(** A case mapping of the Unicode character database, as runs: an entry
    [(first, last, step, image)] sends [first] to [image] and every
    [step]-th code point after it, up to [last], to the code point as far
    from [image] as it is from [first]. *)
Definition case_map : Type := list (char * char * N * char).

Definition map_char (t : case_map) (c : char) : option char :=
  match find (fun e : char * char * N * char =>
                let '(first, last, step, _) := e in
                (first <=? c)%N && (c <=? last)%N &&
                ((c - first) mod step =? 0)%N) t with
  | Some (first, _, _, image) => Some (image + (c - first))%N
  | None => None
  end.

Definition is_ascii_alnum (c : char) : bool :=
  ((48 <=? c)%N && (c <=? 57)%N) ||
  ((65 <=? c)%N && (c <=? 90)%N) ||
  ((97 <=? c)%N && (c <=? 122)%N).

Definition is_digit (c : char) : bool := (48 <=? c)%N && (c <=? 57)%N.

End Str.

Import Str.

(** ** The regular-expression engine ([re])

    [re.escape], the pattern parser behind [re.compile], backtracking
    matching, [Pattern.search] and [re.sub], for the constructs that the
    patterns of [endpoint_to_regex] are made of. *)

Module Re.

(** Characters that [re.escape] prefixes with a backslash
    ([_special_chars_map] of the [re] module, Python 3.7 and later). *)
Definition special_chars : str :=
  py "()[]{}?*+-|^$\.&~# " ++ [9; 10; 13; 11; 12]%N.

Definition escape (pattern : str) : str :=
  flat_map (fun c => if char_in c special_chars then [BSLASH; c] else [c])
           pattern.

Inductive regex : Type :=
| Eps
| Lit (c : char)
| AnyChar
| In (negate : bool) (items : list (char * char))
| Bol
| Eol
| Cat (r1 r2 : regex)
| Alt (r1 r2 : regex)
| Opt (r : regex)
| Star (r : regex)
| Plus (r : regex)
| Group (r : regex).

(** *** Parsing a pattern

    [None] stands for a pattern the engine rejects ([re.error]) or one
    that uses a construct outside this fragment (class shorthands such as
    [\d], counted repetition, lazy and possessive quantifiers, group
    extensions). *)

Definition set_atom (s : str) : option (char * str) :=
  match s with
  | [] => None
  | c :: s1 =>
      if (c =? BSLASH)%N then
        match s1 with
        | [] => None
        | d :: s2 => if is_ascii_alnum d then None else Some (d, s2)
        end
      else Some (c, s1)
  end.

(** The body of a character set, after [[] and an optional [^].  A []] in
    first position is a literal; [a-b] is a range; a [-] before the closing
    bracket is a literal. *)
Fixpoint parse_set (fuel : nat) (first : bool) (s : str)
         (acc : list (char * char)) : option (list (char * char) * str) :=
  match fuel with
  | O => None
  | S fuel' =>
      match s with
      | [] => None
      | c :: s1 =>
          if (c =? 93)%N && negb first then Some (rev acc, s1)
          else
            match set_atom s with
            | None => None
            | Some (lo, s2) =>
                match s2 with
                | d :: s3 =>
                    if (d =? 45)%N then
                      match s3 with
                      | [] => None
                      | e :: s4 =>
                          if (e =? 93)%N
                          then Some (rev ((45, 45) :: (lo, lo) :: acc), s4)%N
                          else
                            match set_atom s3 with
                            | None => None
                            | Some (hi, s5) =>
                                if (hi <? lo)%N then None
                                else parse_set fuel' false s5 ((lo, hi) :: acc)
                            end
                      end
                    else parse_set fuel' false s2 ((lo, lo) :: acc)
                | [] => parse_set fuel' false s2 ((lo, lo) :: acc)
                end
            end
      end
  end.

(** Does the text after a [{] spell a counted repetition, [{m}], [{m,}],
    [{,n}] or [{m,n}]?  When it does not, the brace is a literal. *)
Definition counted_repeat (s : str) : bool :=
  match s with
  | c :: _ =>
      if (c =? 125)%N then false
      else
        match dropwhile is_digit s with
        | d :: s1 =>
            if (d =? 44)%N then
              match dropwhile is_digit s1 with
              | e :: _ => (e =? 125)%N
              | [] => false
              end
            else (d =? 125)%N
        | [] => false
        end
  | [] => false
  end.

Definition is_repeat_char (c : char) : bool :=
  (c =? 42)%N || (c =? 43)%N || (c =? 63)%N.

Definition cat (r1 r2 : regex) : regex :=
  match r2 with
  | Eps => r1
  | _ => Cat r1 r2
  end.

Fixpoint alts (bs : list regex) : regex :=
  match bs with
  | [] => Eps
  | [b] => b
  | b :: bs' => Alt b (alts bs')
  end.

(** One item without its quantifier.  [rec] parses the inside of a group. *)
Definition parse_atom (rec : str -> option (list regex * str))
           (c : char) (s1 : str) : option (regex * str) :=
  if (c =? BSLASH)%N then
    match s1 with
    | [] => None
    | d :: s2 => if is_ascii_alnum d then None else Some (Lit d, s2)
    end
  else if (c =? 46)%N then Some (AnyChar, s1)
  else if (c =? 94)%N then Some (Bol, s1)
  else if (c =? 36)%N then Some (Eol, s1)
  else if (c =? 91)%N then
    match s1 with
    | d :: s2 =>
        if (d =? 94)%N then
          match parse_set (S (List.length s2)) true s2 [] with
          | Some (items, rest) => Some (In true items, rest)
          | None => None
          end
        else
          match parse_set (S (List.length s1)) true s1 [] with
          | Some (items, rest) => Some (In false items, rest)
          | None => None
          end
    | [] => None
    end
  else if (c =? 40)%N then
    match s1 with
    | d :: _ =>
        if (d =? 63)%N then None
        else
          match rec s1 with
          | Some (bs, e :: rest) =>
              if (e =? 41)%N then Some (Group (alts bs), rest) else None
          | _ => None
          end
    | [] => None
    end
  else if is_repeat_char c then None
  else if (c =? 123)%N then
    if counted_repeat s1 then None else Some (Lit c, s1)
  else Some (Lit c, s1).

Definition repeatable (r : regex) : bool :=
  match r with
  | Bol | Eol => false
  | _ => true
  end.

(** A quantifier after an item.  A second quantifier character right
    after it is either an error (multiple repeat) or a lazy or possessive
    mark, none of which is in the fragment. *)
Definition parse_quantifier (r : regex) (s : str) : option (regex * str) :=
  match s with
  | q :: s1 =>
      if is_repeat_char q then
        if negb (repeatable r) then None
        else
          match s1 with
          | q2 :: _ =>
              if is_repeat_char q2 then None
              else if (q2 =? 123)%N && counted_repeat (tl s1) then None
              else
                Some (if (q =? 42)%N then Star r
                      else if (q =? 43)%N then Plus r else Opt r, s1)
          | [] =>
              Some (if (q =? 42)%N then Star r
                    else if (q =? 43)%N then Plus r else Opt r, s1)
          end
      else Some (r, s)
  | [] => Some (r, s)
  end.

(** The branches of an alternation, up to a closing parenthesis or the end
    of the pattern; the rest starts at the parenthesis. *)
Fixpoint parse_branches (fuel : nat) (s : str) : option (list regex * str) :=
  match fuel with
  | O => None
  | S fuel' =>
      match s with
      | [] => Some ([Eps], [])
      | c :: s1 =>
          if (c =? 41)%N then Some ([Eps], s)
          else if (c =? 124)%N then
            match parse_branches fuel' s1 with
            | Some (bs, rest) => Some (Eps :: bs, rest)
            | None => None
            end
          else
            match parse_atom (parse_branches fuel') c s1 with
            | None => None
            | Some (a, s2) =>
                match parse_quantifier a s2 with
                | None => None
                | Some (item, s3) =>
                    match parse_branches fuel' s3 with
                    | Some (b :: bs, rest) => Some (cat item b :: bs, rest)
                    | _ => None
                    end
                end
            end
      end
  end.

Definition parse (pattern : str) : option regex :=
  match parse_branches (S (List.length pattern)) pattern with
  | Some (bs, []) => Some (alts bs)
  | _ => None
  end.

(** *** Matching *)

Definition in_items (items : list (char * char)) (c : char) : bool :=
  existsb (fun '(lo, hi) => (lo <=? c)%N && (c <=? hi)%N) items.

Definition in_set (negate : bool) (items : list (char * char)) (c : char)
  : bool :=
  xorb negate (in_items items c).

(** *** Case folding under [re.IGNORECASE]

    For a [str] pattern the engine folds case with the tables of the
    Unicode character database; these are the tables of Unicode 14.0.0,
    the ones of CPython 3.11. *)

(** [_sre.unicode_tolower]: the code points it does not leave alone *)
Definition lower_table : case_map :=
  [   (65, 90, 1, 97); (192, 214, 1, 224); (216, 222, 1, 248);
   (256, 302, 2, 257); (304, 304, 1, 105); (306, 310, 2, 307);
   (313, 327, 2, 314); (330, 374, 2, 331); (376, 376, 1, 255);
   (377, 381, 2, 378); (385, 385, 1, 595); (386, 388, 2, 387);
   (390, 390, 1, 596); (391, 391, 1, 392); (393, 394, 1, 598);
   (395, 395, 1, 396); (398, 398, 1, 477); (399, 399, 1, 601);
   (400, 400, 1, 603); (401, 401, 1, 402); (403, 403, 1, 608);
   (404, 404, 1, 611); (406, 406, 1, 617); (407, 407, 1, 616);
   (408, 408, 1, 409); (412, 412, 1, 623); (413, 413, 1, 626);
   (415, 415, 1, 629); (416, 420, 2, 417); (422, 422, 1, 640);
   (423, 423, 1, 424); (425, 425, 1, 643); (428, 428, 1, 429);
   (430, 430, 1, 648); (431, 431, 1, 432); (433, 434, 1, 650);
   (435, 437, 2, 436); (439, 439, 1, 658); (440, 440, 1, 441);
   (444, 444, 1, 445); (452, 452, 1, 454); (453, 453, 1, 454);
   (455, 455, 1, 457); (456, 456, 1, 457); (458, 458, 1, 460);
   (459, 475, 2, 460); (478, 494, 2, 479); (497, 497, 1, 499);
   (498, 500, 2, 499); (502, 502, 1, 405); (503, 503, 1, 447);
   (504, 542, 2, 505); (544, 544, 1, 414); (546, 562, 2, 547);
   (570, 570, 1, 11365); (571, 571, 1, 572); (573, 573, 1, 410);
   (574, 574, 1, 11366); (577, 577, 1, 578); (579, 579, 1, 384);
   (580, 580, 1, 649); (581, 581, 1, 652); (582, 590, 2, 583);
   (880, 882, 2, 881); (886, 886, 1, 887); (895, 895, 1, 1011);
   (902, 902, 1, 940); (904, 906, 1, 941); (908, 908, 1, 972);
   (910, 911, 1, 973); (913, 929, 1, 945); (931, 939, 1, 963);
   (975, 975, 1, 983); (984, 1006, 2, 985); (1012, 1012, 1, 952);
   (1015, 1015, 1, 1016); (1017, 1017, 1, 1010); (1018, 1018, 1, 1019);
   (1021, 1023, 1, 891); (1024, 1039, 1, 1104); (1040, 1071, 1, 1072);
   (1120, 1152, 2, 1121); (1162, 1214, 2, 1163); (1216, 1216, 1, 1231);
   (1217, 1229, 2, 1218); (1232, 1326, 2, 1233); (1329, 1366, 1, 1377);
   (4256, 4293, 1, 11520); (4295, 4295, 1, 11559); (4301, 4301, 1, 11565);
   (5024, 5103, 1, 43888); (5104, 5109, 1, 5112); (7312, 7354, 1, 4304);
   (7357, 7359, 1, 4349); (7680, 7828, 2, 7681); (7838, 7838, 1, 223);
   (7840, 7934, 2, 7841); (7944, 7951, 1, 7936); (7960, 7965, 1, 7952);
   (7976, 7983, 1, 7968); (7992, 7999, 1, 7984); (8008, 8013, 1, 8000);
   (8025, 8031, 2, 8017); (8040, 8047, 1, 8032); (8072, 8079, 1, 8064);
   (8088, 8095, 1, 8080); (8104, 8111, 1, 8096); (8120, 8121, 1, 8112);
   (8122, 8123, 1, 8048); (8124, 8124, 1, 8115); (8136, 8139, 1, 8050);
   (8140, 8140, 1, 8131); (8152, 8153, 1, 8144); (8154, 8155, 1, 8054);
   (8168, 8169, 1, 8160); (8170, 8171, 1, 8058); (8172, 8172, 1, 8165);
   (8184, 8185, 1, 8056); (8186, 8187, 1, 8060); (8188, 8188, 1, 8179);
   (8486, 8486, 1, 969); (8490, 8490, 1, 107); (8491, 8491, 1, 229);
   (8498, 8498, 1, 8526); (8544, 8559, 1, 8560); (8579, 8579, 1, 8580);
   (9398, 9423, 1, 9424); (11264, 11311, 1, 11312);
   (11360, 11360, 1, 11361); (11362, 11362, 1, 619);
   (11363, 11363, 1, 7549); (11364, 11364, 1, 637);
   (11367, 11371, 2, 11368); (11373, 11373, 1, 593); (11374, 11374, 1, 625);
   (11375, 11375, 1, 592); (11376, 11376, 1, 594); (11378, 11378, 1, 11379);
   (11381, 11381, 1, 11382); (11390, 11391, 1, 575);
   (11392, 11490, 2, 11393); (11499, 11501, 2, 11500);
   (11506, 11506, 1, 11507); (42560, 42604, 2, 42561);
   (42624, 42650, 2, 42625); (42786, 42798, 2, 42787);
   (42802, 42862, 2, 42803); (42873, 42875, 2, 42874);
   (42877, 42877, 1, 7545); (42878, 42886, 2, 42879);
   (42891, 42891, 1, 42892); (42893, 42893, 1, 613);
   (42896, 42898, 2, 42897); (42902, 42920, 2, 42903);
   (42922, 42922, 1, 614); (42923, 42923, 1, 604); (42924, 42924, 1, 609);
   (42925, 42925, 1, 620); (42926, 42926, 1, 618); (42928, 42928, 1, 670);
   (42929, 42929, 1, 647); (42930, 42930, 1, 669); (42931, 42931, 1, 43859);
   (42932, 42946, 2, 42933); (42948, 42948, 1, 42900);
   (42949, 42949, 1, 642); (42950, 42950, 1, 7566);
   (42951, 42953, 2, 42952); (42960, 42960, 1, 42961);
   (42966, 42968, 2, 42967); (42997, 42997, 1, 42998);
   (65313, 65338, 1, 65345); (66560, 66599, 1, 66600);
   (66736, 66771, 1, 66776); (66928, 66938, 1, 66967);
   (66940, 66954, 1, 66979); (66956, 66962, 1, 66995);
   (66964, 66965, 1, 67003); (68736, 68786, 1, 68800);
   (71840, 71871, 1, 71872); (93760, 93791, 1, 93792);
   (125184, 125217, 1, 125218)]%N.

Definition unicode_tolower (c : char) : char :=
  match map_char lower_table c with
  | Some d => d
  | None => c
  end.

(** [_sre.unicode_iscased]: the code points whose lower-case or upper-case
    mapping is another code point *)
Definition cased_ranges : list (char * char) :=
  [   (65, 90); (97, 122); (181, 181); (192, 214); (216, 246); (248, 311);
   (313, 396); (398, 410); (412, 425); (428, 441); (444, 445); (447, 447);
   (452, 544); (546, 563); (570, 596); (598, 599); (601, 601); (603, 604);
   (608, 609); (611, 611); (613, 614); (616, 620); (623, 623); (625, 626);
   (629, 629); (637, 637); (640, 640); (642, 643); (647, 652); (658, 658);
   (669, 670); (837, 837); (880, 883); (886, 887); (891, 893); (895, 895);
   (902, 902); (904, 906); (908, 908); (910, 929); (931, 977); (981, 1013);
   (1015, 1019); (1021, 1153); (1162, 1327); (1329, 1366); (1377, 1415);
   (4256, 4293); (4295, 4295); (4301, 4301); (4304, 4346); (4349, 4351);
   (5024, 5109); (5112, 5117); (7296, 7304); (7312, 7354); (7357, 7359);
   (7545, 7545); (7549, 7549); (7566, 7566); (7680, 7835); (7838, 7838);
   (7840, 7957); (7960, 7965); (7968, 8005); (8008, 8013); (8016, 8023);
   (8025, 8025); (8027, 8027); (8029, 8029); (8031, 8061); (8064, 8116);
   (8118, 8124); (8126, 8126); (8130, 8132); (8134, 8140); (8144, 8147);
   (8150, 8155); (8160, 8172); (8178, 8180); (8182, 8188); (8486, 8486);
   (8490, 8491); (8498, 8498); (8526, 8526); (8544, 8575); (8579, 8580);
   (9398, 9449); (11264, 11376); (11378, 11379); (11381, 11382);
   (11390, 11491); (11499, 11502); (11506, 11507); (11520, 11557);
   (11559, 11559); (11565, 11565); (42560, 42605); (42624, 42651);
   (42786, 42799); (42802, 42863); (42873, 42887); (42891, 42893);
   (42896, 42900); (42902, 42926); (42928, 42954); (42960, 42961);
   (42966, 42969); (42997, 42998); (43859, 43859); (43888, 43967);
   (64256, 64262); (64275, 64279); (65313, 65338); (65345, 65370);
   (66560, 66639); (66736, 66771); (66776, 66811); (66928, 66938);
   (66940, 66954); (66956, 66962); (66964, 66965); (66967, 66977);
   (66979, 66993); (66995, 67001); (67003, 67004); (68736, 68786);
   (68800, 68850); (71840, 71903); (93760, 93823); (125184, 125251)]%N.

Definition unicode_iscased (c : char) : bool := in_items cased_ranges c.

(** [_EXTRA_CASES] of [re._casefix]: for a lower-case code point, the other
    lower-case code points that have the same upper case *)
Definition extra_cases : list (char * list char) :=
  [   (105, [305]); (115, [383]); (181, [956]); (305, [105]); (383, [115]);
   (837, [953; 8126]); (912, [8147]); (944, [8163]); (946, [976]);
   (949, [1013]); (952, [977]); (953, [837; 8126]); (954, [1008]);
   (956, [181]); (960, [982]); (961, [1009]); (962, [963]); (963, [962]);
   (966, [981]); (976, [946]); (977, [952]); (981, [966]); (982, [960]);
   (1008, [954]); (1009, [961]); (1013, [949]); (1074, [7296]);
   (1076, [7297]); (1086, [7298]); (1089, [7299]); (1090, [7300; 7301]);
   (1098, [7302]); (1123, [7303]); (7296, [1074]); (7297, [1076]);
   (7298, [1086]); (7299, [1089]); (7300, [1090; 7301]);
   (7301, [1090; 7300]); (7302, [1098]); (7303, [1123]); (7304, [42571]);
   (7777, [7835]); (7835, [7777]); (8126, [837; 953]); (8147, [912]);
   (8163, [944]); (42571, [7304]); (64261, [64262]); (64262, [64261])]%N.

Definition extra_cases_of (lo : char) : list char :=
  match find (fun e : char * list char => (fst e =? lo)%N) extra_cases with
  | Some e => snd e
  | None => []
  end.

(** Does the subject character [c] match the literal [a] of the pattern?
    Under [re.IGNORECASE] a cased literal is compiled to its lower case
    [lo], and to the set of [lo] and its extra cases when it has some; the
    subject character is lowered and compared with that. *)
Definition lit_eq (ic : bool) (a c : char) : bool :=
  if ic && unicode_iscased a then
    let lo := unicode_tolower a in
    char_in (unicode_tolower c) (lo :: extra_cases_of lo)
  else (a =? c)%N.

Definition cont : Type := nat -> str -> option (nat * str).

(** Greedy iteration of a body: one more round first, then the rest of the
    pattern.  A round that consumes nothing is not repeated. *)
Fixpoint star_loop (body : nat -> str -> cont -> option (nat * str))
         (k : cont) (fuel : nat) (i : nat) (s : str) : option (nat * str) :=
  match fuel with
  | O => k i s
  | S fuel' =>
      match body i s (fun j s' => if j =? i then None
                                  else star_loop body k fuel' j s') with
      | Some res => Some res
      | None => k i s
      end
  end.

(** [rmatch ic r i s k]: match [r] at index [i] of the subject, whose text
    from [i] on is [s]; [k] receives the index and text after the match.
    Alternatives are tried in the engine's order (first branch first,
    longest repetition first). *)
Fixpoint rmatch (ic : bool) (r : regex) (i : nat) (s : str) (k : cont)
  : option (nat * str) :=
  match r with
  | Eps => k i s
  | Lit a =>
      match s with
      | c :: s' => if lit_eq ic a c then k (S i) s' else None
      | [] => None
      end
  | AnyChar =>
      match s with
      | c :: s' => if (c =? NL)%N then None else k (S i) s'
      | [] => None
      end
  | In negate items =>
      match s with
      | c :: s' => if in_set negate items c then k (S i) s' else None
      | [] => None
      end
  | Bol => if i =? 0 then k i s else None
  | Eol =>
      match s with
      | [] => k i s
      | [c] => if (c =? NL)%N then k i s else None
      | _ => None
      end
  | Cat r1 r2 => rmatch ic r1 i s (fun j s' => rmatch ic r2 j s' k)
  | Alt r1 r2 =>
      match rmatch ic r1 i s k with
      | Some res => Some res
      | None => rmatch ic r2 i s k
      end
  | Opt r1 =>
      match rmatch ic r1 i s k with
      | Some res => Some res
      | None => k i s
      end
  | Star r1 => star_loop (rmatch ic r1) k (List.length s) i s
  | Plus r1 =>
      rmatch ic r1 i s
             (fun j s' => star_loop (rmatch ic r1) k (List.length s') j s')
  | Group r1 => rmatch ic r1 i s k
  end.

(** The leftmost match at or after index [i]: (start, end, text after the
    end).  With [must_advance], an empty match at [i] itself is refused. *)
Fixpoint search_from (ic : bool) (r : regex) (must_advance : bool)
         (i : nat) (s : str) : option (nat * nat * str) :=
  match rmatch ic r i s
               (fun j s' => if must_advance && (j =? i) then None
                            else Some (j, s')) with
  | Some (j, s') => Some (i, j, s')
  | None =>
      match s with
      | [] => None
      | _ :: s1 => search_from ic r false (S i) s1
      end
  end.

(** A compiled pattern: [re.compile(pattern, flags)] *)
Record Pattern : Type := mkPattern { p_regex : regex; p_ignorecase : bool }.

(** Under [re.IGNORECASE] the engine folds a character set that holds a
    cased code point; the fragment leaves such sets out, and keeps the
    sets that are compiled as they stand. *)
Definition range_has_cased (lo hi : char) : bool :=
  existsb (fun '(a, b) => (N.max a lo <=? N.min b hi)%N) cased_ranges.

Fixpoint has_cased_set (r : regex) : bool :=
  match r with
  | In _ items => existsb (fun '(lo, hi) => range_has_cased lo hi) items
  | Cat r1 r2 | Alt r1 r2 => has_cased_set r1 || has_cased_set r2
  | Opt r1 | Star r1 | Plus r1 | Group r1 => has_cased_set r1
  | Eps | Lit _ | AnyChar | Bol | Eol => false
  end.

Definition compile (pattern : str) (ignorecase : bool) : option Pattern :=
  match parse pattern with
  | Some r =>
      if ignorecase && has_cased_set r then None
      else Some (mkPattern r ignorecase)
  | None => None
  end.

(** [pattern.search(line)], as the truth value the caller tests *)
Definition search (p : Pattern) (line : str) : bool :=
  match search_from (p_ignorecase p) (p_regex p) false 0 line with
  | Some _ => true
  | None => false
  end.

(** [re.sub(pattern, repl, string)] for a replacement template without
    backslashes, which stands for itself. *)
Fixpoint sub_loop (fuel : nat) (r : regex) (repl : str) (must_advance : bool)
         (i : nat) (s : str) : str :=
  match fuel with
  | O => s
  | S fuel' =>
      match search_from false r must_advance i s with
      | None => s
      | Some (b, e, rest) =>
          firstn (b - i) s ++ repl ++ sub_loop fuel' r repl (e =? b) e rest
      end
  end.

Definition sub (pattern repl subject : str) : option str :=
  match parse pattern with
  | Some r => Some (sub_loop (2 + List.length subject) r repl false 0 subject)
  | None => None
  end.

End Re.

(** ** Pattern Compiler *)

(** [endpoint_to_regex(endpoint)].  The pattern strings are the raw string
    literals of the source, character for character. *)
Definition endpoint_to_regex (endpoint : str) : option Re.Pattern :=
  let pattern := Re.escape endpoint in
  match Re.sub (py "\\:([a-zA-Z_][a-zA-Z0-9_]*)") (py "[^/]+") pattern with
  | None => None
  | Some pattern =>
      match Re.sub (py "\\{[a-zA-Z_][a-zA-Z0-9_]*\\}") (py "[^/]+") pattern with
      | None => None
      | Some pattern =>
          let pattern := rstrip_chars (py "/") pattern ++ py "/?(\\?.*)?$" in
          Re.compile pattern true
      end
  end.

(** The pattern string that [endpoint_to_regex] hands to [re.compile]. *)
Definition endpoint_pattern (endpoint : str) : option str :=
  let pattern := Re.escape endpoint in
  match Re.sub (py "\\:([a-zA-Z_][a-zA-Z0-9_]*)") (py "[^/]+") pattern with
  | None => None
  | Some pattern =>
      match Re.sub (py "\\{[a-zA-Z_][a-zA-Z0-9_]*\\}") (py "[^/]+") pattern with
      | None => None
      | Some pattern =>
          Some (rstrip_chars (py "/") pattern ++ py "/?(\\?.*)?$")
      end
  end.

(** [bool(endpoint_to_regex(endpoint).search(line))] *)
Definition matches (endpoint line : str) : option bool :=
  match endpoint_to_regex endpoint with
  | Some p => Some (Re.search p line)
  | None => None
  end.

(** ** Exceptions

    Code that may raise returns a [result]; [Raise] carries the exception
    that reaches the caller. *)

Inductive exn : Type :=
| ParseError (cause : str)              (* json.JSONDecodeError, yaml.YAMLError *)
| AttributeError (type_name attr : str)
| UnicodeDecodeError (position : nat)
| ReError (pattern : str).

Inductive result (A : Type) : Type :=
| Ok (a : A)
| Raise (e : exn).

Arguments Ok {A} a.
Arguments Raise {A} e.

Definition bind {A B : Type} (m : result A) (f : A -> result B) : result B :=
  match m with
  | Ok a => f a
  | Raise e => Raise e
  end.

Notation "x <- m ;; k" := (bind m (fun x => k))
  (at level 61, m at next level, right associativity).

(** The loop [for x in xs: acc = f(acc, x)] whose body may raise. *)
Fixpoint foldM {A B : Type} (f : A -> B -> result A) (acc : A) (xs : list B)
  : result A :=
  match xs with
  | [] => Ok acc
  | x :: xs' => acc' <- f acc x ;; foldM f acc' xs'
  end.

(** ** Spec Loader *)

Module Loader.

(** *** Text *)

(** [bytes.decode("utf-8")], strict: the well-formed byte sequences of the
    Unicode standard; anything else raises [UnicodeDecodeError]. *)
Definition is_cont (b : N) : bool := (128 <=? b)%N && (b <=? 191)%N.
Definition in_range (lo hi b : N) : bool := (lo <=? b)%N && (b <=? hi)%N.

Fixpoint utf8_decode_from (pos : nat) (bs : list N) : result str :=
  match bs with
  | [] => Ok []
  | b0 :: t0 =>
      if (b0 <? 128)%N then
        rest <- utf8_decode_from (S pos) t0 ;; Ok (b0 :: rest)
      else if in_range 194 223 b0 then
        match t0 with
        | b1 :: t1 =>
            if is_cont b1 then
              rest <- utf8_decode_from (2 + pos) t1 ;;
              Ok (((b0 - 192) * 64 + (b1 - 128))%N :: rest)
            else Raise (UnicodeDecodeError pos)
        | _ => Raise (UnicodeDecodeError pos)
        end
      else if in_range 224 239 b0 then
        match t0 with
        | b1 :: b2 :: t2 =>
            if (if (b0 =? 224)%N then in_range 160 191 b1
                else if (b0 =? 237)%N then in_range 128 159 b1
                else is_cont b1) && is_cont b2 then
              rest <- utf8_decode_from (3 + pos) t2 ;;
              Ok (((b0 - 224) * 4096 + (b1 - 128) * 64 + (b2 - 128))%N :: rest)
            else Raise (UnicodeDecodeError pos)
        | _ => Raise (UnicodeDecodeError pos)
        end
      else if in_range 240 244 b0 then
        match t0 with
        | b1 :: b2 :: b3 :: t3 =>
            if (if (b0 =? 240)%N then in_range 144 191 b1
                else if (b0 =? 244)%N then in_range 128 143 b1
                else is_cont b1) && is_cont b2 && is_cont b3 then
              rest <- utf8_decode_from (4 + pos) t3 ;;
              Ok (((b0 - 240) * 262144 + (b1 - 128) * 4096
                   + (b2 - 128) * 64 + (b3 - 128))%N :: rest)
            else Raise (UnicodeDecodeError pos)
        | _ => Raise (UnicodeDecodeError pos)
        end
      else Raise (UnicodeDecodeError pos)
  end.

Definition decode_utf8 (data : list byte) : result str :=
  utf8_decode_from 0 (List.map Byte.to_N data).

(** [str.isspace] on one code point *)
Definition isspace (c : char) : bool :=
  in_range 9 13 c || in_range 28 32 c || (c =? 133)%N || (c =? 160)%N ||
  (c =? 5760)%N || in_range 8192 8202 c || in_range 8232 8233 c ||
  (c =? 8239)%N || (c =? 8287)%N || (c =? 12288)%N.

(** [s.strip()] *)
Definition strip (s : str) : str :=
  rev (dropwhile isspace (rev (dropwhile isspace s))).

(** The line boundaries of [str.splitlines] other than carriage return *)
Definition is_linebreak (c : char) : bool :=
  in_range 10 12 c || in_range 28 30 c || (c =? 133)%N || in_range 8232 8233 c.

(** [s.splitlines()]: [cur] is the current line, last character first. *)
Fixpoint splitlines_from (cur : str) (s : str) : list str :=
  match s with
  | [] => match cur with [] => [] | _ => [rev cur] end
  | c :: s' =>
      if (c =? 13)%N then
        match s' with
        | d :: s'' =>
            if (d =? 10)%N then rev cur :: splitlines_from [] s''
            else rev cur :: splitlines_from [] s'
        | [] => rev cur :: splitlines_from [] s'
        end
      else if is_linebreak c then rev cur :: splitlines_from [] s'
      else splitlines_from (c :: cur) s'
  end.

Definition splitlines (s : str) : list str := splitlines_from [] s.

(** [s.upper()]: every code point is replaced by its full upper-case
    mapping, which for some is more than one code point (Unicode 14.0.0,
    the tables of CPython 3.11). *)

(** The code points whose upper case is one other code point *)
Definition upper_table : case_map :=
  [   (97, 122, 1, 65); (181, 181, 1, 924); (224, 246, 1, 192);
   (248, 254, 1, 216); (255, 255, 1, 376); (257, 303, 2, 256);
   (305, 305, 1, 73); (307, 311, 2, 306); (314, 328, 2, 313);
   (331, 375, 2, 330); (378, 382, 2, 377); (383, 383, 1, 83);
   (384, 384, 1, 579); (387, 389, 2, 386); (392, 392, 1, 391);
   (396, 396, 1, 395); (402, 402, 1, 401); (405, 405, 1, 502);
   (409, 409, 1, 408); (410, 410, 1, 573); (414, 414, 1, 544);
   (417, 421, 2, 416); (424, 424, 1, 423); (429, 429, 1, 428);
   (432, 432, 1, 431); (436, 438, 2, 435); (441, 441, 1, 440);
   (445, 445, 1, 444); (447, 447, 1, 503); (453, 453, 1, 452);
   (454, 454, 1, 452); (456, 456, 1, 455); (457, 457, 1, 455);
   (459, 459, 1, 458); (460, 460, 1, 458); (462, 476, 2, 461);
   (477, 477, 1, 398); (479, 495, 2, 478); (498, 498, 1, 497);
   (499, 499, 1, 497); (501, 501, 1, 500); (505, 543, 2, 504);
   (547, 563, 2, 546); (572, 572, 1, 571); (575, 576, 1, 11390);
   (578, 578, 1, 577); (583, 591, 2, 582); (592, 592, 1, 11375);
   (593, 593, 1, 11373); (594, 594, 1, 11376); (595, 595, 1, 385);
   (596, 596, 1, 390); (598, 599, 1, 393); (601, 601, 1, 399);
   (603, 603, 1, 400); (604, 604, 1, 42923); (608, 608, 1, 403);
   (609, 609, 1, 42924); (611, 611, 1, 404); (613, 613, 1, 42893);
   (614, 614, 1, 42922); (616, 616, 1, 407); (617, 617, 1, 406);
   (618, 618, 1, 42926); (619, 619, 1, 11362); (620, 620, 1, 42925);
   (623, 623, 1, 412); (625, 625, 1, 11374); (626, 626, 1, 413);
   (629, 629, 1, 415); (637, 637, 1, 11364); (640, 640, 1, 422);
   (642, 642, 1, 42949); (643, 643, 1, 425); (647, 647, 1, 42929);
   (648, 648, 1, 430); (649, 649, 1, 580); (650, 651, 1, 433);
   (652, 652, 1, 581); (658, 658, 1, 439); (669, 669, 1, 42930);
   (670, 670, 1, 42928); (837, 837, 1, 921); (881, 883, 2, 880);
   (887, 887, 1, 886); (891, 893, 1, 1021); (940, 940, 1, 902);
   (941, 943, 1, 904); (945, 961, 1, 913); (962, 962, 1, 931);
   (963, 971, 1, 931); (972, 972, 1, 908); (973, 974, 1, 910);
   (976, 976, 1, 914); (977, 977, 1, 920); (981, 981, 1, 934);
   (982, 982, 1, 928); (983, 983, 1, 975); (985, 1007, 2, 984);
   (1008, 1008, 1, 922); (1009, 1009, 1, 929); (1010, 1010, 1, 1017);
   (1011, 1011, 1, 895); (1013, 1013, 1, 917); (1016, 1016, 1, 1015);
   (1019, 1019, 1, 1018); (1072, 1103, 1, 1040); (1104, 1119, 1, 1024);
   (1121, 1153, 2, 1120); (1163, 1215, 2, 1162); (1218, 1230, 2, 1217);
   (1231, 1231, 1, 1216); (1233, 1327, 2, 1232); (1377, 1414, 1, 1329);
   (4304, 4346, 1, 7312); (4349, 4351, 1, 7357); (5112, 5117, 1, 5104);
   (7296, 7296, 1, 1042); (7297, 7297, 1, 1044); (7298, 7298, 1, 1054);
   (7299, 7300, 1, 1057); (7301, 7301, 1, 1058); (7302, 7302, 1, 1066);
   (7303, 7303, 1, 1122); (7304, 7304, 1, 42570); (7545, 7545, 1, 42877);
   (7549, 7549, 1, 11363); (7566, 7566, 1, 42950); (7681, 7829, 2, 7680);
   (7835, 7835, 1, 7776); (7841, 7935, 2, 7840); (7936, 7943, 1, 7944);
   (7952, 7957, 1, 7960); (7968, 7975, 1, 7976); (7984, 7991, 1, 7992);
   (8000, 8005, 1, 8008); (8017, 8023, 2, 8025); (8032, 8039, 1, 8040);
   (8048, 8049, 1, 8122); (8050, 8053, 1, 8136); (8054, 8055, 1, 8154);
   (8056, 8057, 1, 8184); (8058, 8059, 1, 8170); (8060, 8061, 1, 8186);
   (8112, 8113, 1, 8120); (8126, 8126, 1, 921); (8144, 8145, 1, 8152);
   (8160, 8161, 1, 8168); (8165, 8165, 1, 8172); (8526, 8526, 1, 8498);
   (8560, 8575, 1, 8544); (8580, 8580, 1, 8579); (9424, 9449, 1, 9398);
   (11312, 11359, 1, 11264); (11361, 11361, 1, 11360);
   (11365, 11365, 1, 570); (11366, 11366, 1, 574); (11368, 11372, 2, 11367);
   (11379, 11379, 1, 11378); (11382, 11382, 1, 11381);
   (11393, 11491, 2, 11392); (11500, 11502, 2, 11499);
   (11507, 11507, 1, 11506); (11520, 11557, 1, 4256);
   (11559, 11559, 1, 4295); (11565, 11565, 1, 4301);
   (42561, 42605, 2, 42560); (42625, 42651, 2, 42624);
   (42787, 42799, 2, 42786); (42803, 42863, 2, 42802);
   (42874, 42876, 2, 42873); (42879, 42887, 2, 42878);
   (42892, 42892, 1, 42891); (42897, 42899, 2, 42896);
   (42900, 42900, 1, 42948); (42903, 42921, 2, 42902);
   (42933, 42947, 2, 42932); (42952, 42954, 2, 42951);
   (42961, 42961, 1, 42960); (42967, 42969, 2, 42966);
   (42998, 42998, 1, 42997); (43859, 43859, 1, 42931);
   (43888, 43967, 1, 5024); (65345, 65370, 1, 65313);
   (66600, 66639, 1, 66560); (66776, 66811, 1, 66736);
   (66967, 66977, 1, 66928); (66979, 66993, 1, 66940);
   (66995, 67001, 1, 66956); (67003, 67004, 1, 66964);
   (68800, 68850, 1, 68736); (71872, 71903, 1, 71840);
   (93792, 93823, 1, 93760); (125218, 125251, 1, 125184)]%N.

(** The code points whose upper case is several code points *)
Definition upper_special : list (char * str) :=
  [   (223, [83; 83]); (329, [700; 78]); (496, [74; 780]);
   (912, [921; 776; 769]); (944, [933; 776; 769]); (1415, [1333; 1362]);
   (7830, [72; 817]); (7831, [84; 776]); (7832, [87; 778]);
   (7833, [89; 778]); (7834, [65; 702]); (8016, [933; 787]);
   (8018, [933; 787; 768]); (8020, [933; 787; 769]);
   (8022, [933; 787; 834]); (8064, [7944; 921]); (8065, [7945; 921]);
   (8066, [7946; 921]); (8067, [7947; 921]); (8068, [7948; 921]);
   (8069, [7949; 921]); (8070, [7950; 921]); (8071, [7951; 921]);
   (8072, [7944; 921]); (8073, [7945; 921]); (8074, [7946; 921]);
   (8075, [7947; 921]); (8076, [7948; 921]); (8077, [7949; 921]);
   (8078, [7950; 921]); (8079, [7951; 921]); (8080, [7976; 921]);
   (8081, [7977; 921]); (8082, [7978; 921]); (8083, [7979; 921]);
   (8084, [7980; 921]); (8085, [7981; 921]); (8086, [7982; 921]);
   (8087, [7983; 921]); (8088, [7976; 921]); (8089, [7977; 921]);
   (8090, [7978; 921]); (8091, [7979; 921]); (8092, [7980; 921]);
   (8093, [7981; 921]); (8094, [7982; 921]); (8095, [7983; 921]);
   (8096, [8040; 921]); (8097, [8041; 921]); (8098, [8042; 921]);
   (8099, [8043; 921]); (8100, [8044; 921]); (8101, [8045; 921]);
   (8102, [8046; 921]); (8103, [8047; 921]); (8104, [8040; 921]);
   (8105, [8041; 921]); (8106, [8042; 921]); (8107, [8043; 921]);
   (8108, [8044; 921]); (8109, [8045; 921]); (8110, [8046; 921]);
   (8111, [8047; 921]); (8114, [8122; 921]); (8115, [913; 921]);
   (8116, [902; 921]); (8118, [913; 834]); (8119, [913; 834; 921]);
   (8124, [913; 921]); (8130, [8138; 921]); (8131, [919; 921]);
   (8132, [905; 921]); (8134, [919; 834]); (8135, [919; 834; 921]);
   (8140, [919; 921]); (8146, [921; 776; 768]); (8147, [921; 776; 769]);
   (8150, [921; 834]); (8151, [921; 776; 834]); (8162, [933; 776; 768]);
   (8163, [933; 776; 769]); (8164, [929; 787]); (8166, [933; 834]);
   (8167, [933; 776; 834]); (8178, [8186; 921]); (8179, [937; 921]);
   (8180, [911; 921]); (8182, [937; 834]); (8183, [937; 834; 921]);
   (8188, [937; 921]); (64256, [70; 70]); (64257, [70; 73]);
   (64258, [70; 76]); (64259, [70; 70; 73]); (64260, [70; 70; 76]);
   (64261, [83; 84]); (64262, [83; 84]); (64275, [1348; 1350]);
   (64276, [1348; 1333]); (64277, [1348; 1339]); (64278, [1358; 1350]);
   (64279, [1348; 1341])]%N.

Definition upper_full (c : char) : str :=
  match find (fun e : char * str => (fst e =? c)%N) upper_special with
  | Some e => snd e
  | None =>
      match map_char upper_table c with
      | Some d => [d]
      | None => [c]
      end
  end.

Definition str_upper (s : str) : str := flat_map upper_full s.

(** Truth value of a string: non-empty *)
Definition truthy (s : str) : bool :=
  match s with [] => false | _ => true end.

(** *** Parsed documents

    What [json.load] returns, which is also what [yaml.safe_load] returns
    for a document whose mapping keys are strings.  A [VDict] lists its
    items in document order. *)
#[local] Unset Elimination Schemes.
Inductive value : Type :=
| VNone
| VBool (b : bool)
| VInt (z : Z)
| VFloat (repr : str)
| VStr (s : str)
| VList (items : list value)
| VDict (items : list (str * value)).
#[local] Set Elimination Schemes.

Definition type_name (v : value) : str :=
  match v with
  | VNone => py "NoneType"
  | VBool _ => py "bool"
  | VInt _ => py "int"
  | VFloat _ => py "float"
  | VStr _ => py "str"
  | VList _ => py "list"
  | VDict _ => py "dict"
  end.

Fixpoint assoc (k : str) (items : list (str * value)) : option value :=
  match items with
  | [] => None
  | (k', v) :: items' => if str_eqb k' k then Some v else assoc k items'
  end.

(** [v.get(key, default)] *)
Definition py_get (v : value) (key : str) (default : value) : result value :=
  match v with
  | VDict items =>
      Ok (match assoc key items with Some x => x | None => default end)
  | _ => Raise (AttributeError (type_name v) (py "get"))
  end.

(** [v.items()] *)
Definition py_items (v : value) : result (list (str * value)) :=
  match v with
  | VDict items => Ok items
  | _ => Raise (AttributeError (type_name v) (py "items"))
  end.

(** [v.keys()] *)
Definition py_keys (v : value) : result (list str) :=
  match v with
  | VDict items => Ok (List.map fst items)
  | _ => Raise (AttributeError (type_name v) (py "keys"))
  end.

Definition descriptor : Type := (str * str)%type.

(** An uploaded file: its name and its content *)
Record UploadedFile : Type := mkFile { name : str; data : list byte }.

(** The two nested loops over [spec.get("paths", {})] *)
Definition openapi_endpoints (spec : value) : result (list descriptor) :=
  paths <- py_get spec (py "paths") (VDict []) ;;
  items <- py_items paths ;;
  foldM (fun endpoints '(path, methods) =>
           ks <- py_keys methods ;;
           Ok (fold_left (fun endpoints method =>
                            endpoints ++ [(path, str_upper method)])
                         ks endpoints))
        [] items.

(** The comprehension of the plain-text case:
    [[(line.strip(), "") for line in content.splitlines() if line.strip()]] *)
Fixpoint plain_endpoints (lines : list str) : list descriptor :=
  match lines with
  | [] => []
  | line :: lines' =>
      if truthy (strip line) then (strip line, []) :: plain_endpoints lines'
      else plain_endpoints lines'
  end.

Section WithParsers.

(** The parsers of the [json] and [yaml] packages, applied to the content
    of the uploaded file. *)
Variable json_load : list byte -> result value.
Variable yaml_safe_load : list byte -> result value.

Definition load_endpoints (endpoint_file : UploadedFile)
  : result (list descriptor) :=
  let filename := name endpoint_file in
  if endswith filename (py ".json") then
    spec <- json_load (data endpoint_file) ;;
    openapi_endpoints spec
  else if endswith_any filename [py ".yaml"; py ".yml"] then
    spec <- yaml_safe_load (data endpoint_file) ;;
    openapi_endpoints spec
  else
    content <- decode_utf8 (data endpoint_file) ;;
    Ok (plain_endpoints (splitlines content)).

End WithParsers.

End Loader.

Import Loader.

(** ** Dictionaries

    A Python [dict] keeps its items in insertion order, one item per key.
    Assigning to a bound key replaces the value in place; assigning to a
    new key appends an item. *)

Module Dict.
Section Dict.

Variables (K V : Type) (eqb : K -> K -> bool).

Definition dict : Type := list (K * V).

Fixpoint get (d : dict) (k : K) : option V :=
  match d with
  | [] => None
  | (k', v) :: d' => if eqb k' k then Some v else get d' k
  end.

(** [k in d] *)
Definition mem (d : dict) (k : K) : bool :=
  match get d k with Some _ => true | None => false end.

(** [d[k] = v] *)
Fixpoint set (d : dict) (k : K) (v : V) : dict :=
  match d with
  | [] => [(k, v)]
  | (k', v') :: d' =>
      if eqb k' k then (k', v) :: d' else (k', v') :: set d' k v
  end.

Definition keys (d : dict) : list K := List.map fst d.

(** One item per key *)
Definition wf (d : dict) : Prop := NoDup (keys d).

End Dict.
End Dict.

(** ** Occurrences and the MatchMap *)

Definition occurrence : Type := (str * nat * str)%type.

Definition desc_eqb (a b : descriptor) : bool :=
  str_eqb (fst a) (fst b) && str_eqb (snd a) (snd b).

Definition MatchMap : Type := Dict.dict descriptor (list occurrence).

Definition mm_get (m : MatchMap) (k : descriptor) : option (list occurrence) :=
  Dict.get desc_eqb m k.
Definition mm_mem (m : MatchMap) (k : descriptor) : bool :=
  Dict.mem desc_eqb m k.
Definition mm_set (m : MatchMap) (k : descriptor) (v : list occurrence)
  : MatchMap := Dict.set desc_eqb m k v.

(** The occurrence list of a key, empty for a key that is not bound *)
Definition occurrences (m : MatchMap) (k : descriptor) : list occurrence :=
  match mm_get m k with Some l => l | None => [] end.

(** ** Tree Scanner *)

Module Scanner.

(** What reading a file line by line yields: all its lines, or the lines
    read before an exception (a file that cannot be opened yields none). *)
Inductive file_read : Type :=
| AllLines (lines : list str)
| LinesThenError (lines : list str) (error : str).

(** The operating system as the scanner sees it. *)
Record OS : Type := mkOS {
  basename_abspath : str -> str; (* os.path.basename(os.path.abspath(d)) *)
  path_join : str -> str -> str; (* os.path.join *)
  walk : str -> list (str * list str);
                                 (* (root, files) of os.walk, in its order *)
  read_lines : str -> file_read  (* open(path, "r", encoding="utf-8") *)
}.

(** A warning shown for a file that could not be read *)
Definition warning : Type := (str * str)%type.

Definition source_extensions : list str :=
  [py ".js"; py ".jsx"; py ".ts"; py ".tsx"; py ".vue"; py ".dart"].

Definition compiled : Type := (descriptor * Re.Pattern)%type.

(** [[((ep, method), endpoint_to_regex(ep)) for ep, method in endpoints]] *)
Fixpoint compile_endpoints (endpoints : list descriptor)
  : result (list compiled) :=
  match endpoints with
  | [] => Ok []
  | (ep, method) :: endpoints' =>
      match endpoint_to_regex ep with
      | None => Raise (ReError ep)
      | Some pattern =>
          rest <- compile_endpoints endpoints' ;;
          Ok (((ep, method), pattern) :: rest)
      end
  end.

(** Lines 80 to 82: bind the key to a fresh list when it is new, then
    append to the list the key is bound to (it is bound at that point). *)
Definition record_match (used : MatchMap) (key : descriptor)
           (occ : occurrence) : MatchMap :=
  let used := if mm_mem used key then used else mm_set used key [] in
  match mm_get used key with
  | Some l => mm_set used key (l ++ [occ])
  | None => used
  end.

(** The loop over [endpoint_patterns] for one line *)
Definition scan_line (endpoint_patterns : list compiled)
           (file_path project_name : str) (i : nat) (line : str)
           (used : MatchMap) : MatchMap :=
  fold_left (fun used '(key, pattern) =>
               if Re.search pattern line
               then record_match used key (file_path, i, project_name)
               else used)
            endpoint_patterns used.

(** The loop over [enumerate(f, start=i)] *)
Fixpoint scan_lines (endpoint_patterns : list compiled)
         (file_path project_name : str) (i : nat) (lines : list str)
         (used : MatchMap) : MatchMap :=
  match lines with
  | [] => used
  | line :: lines' =>
      scan_lines endpoint_patterns file_path project_name (S i) lines'
                 (scan_line endpoint_patterns file_path project_name i line
                            used)
  end.

(** The [try] block for one file *)
Definition scan_file (os : OS) (endpoint_patterns : list compiled)
           (project_name : str) (state : MatchMap * list warning)
           (file_path : str) : MatchMap * list warning :=
  let (used, warnings) := state in
  match read_lines os file_path with
  | AllLines lines =>
      (scan_lines endpoint_patterns file_path project_name 1 lines used,
       warnings)
  | LinesThenError lines e =>
      (scan_lines endpoint_patterns file_path project_name 1 lines used,
       warnings ++ [(file_path, e)])
  end.

Definition scan_dir (os : OS) (endpoint_patterns : list compiled)
           (project_name : str) (state : MatchMap * list warning)
           (entry : str * list str) : MatchMap * list warning :=
  let (root, files) := entry in
  fold_left (fun state file =>
               if endswith_any file source_extensions
               then scan_file os endpoint_patterns project_name state
                              (path_join os root file)
               else state)
            files state.

(** [find_endpoints_in_code(project_dir, endpoints)]: the map it returns
    and the warnings it shows. *)
Definition find_endpoints_in_code (os : OS) (project_dir : str)
           (endpoints : list descriptor) : result (MatchMap * list warning) :=
  let project_name := basename_abspath os project_dir in
  endpoint_patterns <- compile_endpoints endpoints ;;
  Ok (fold_left (scan_dir os endpoint_patterns project_name)
                (walk os project_dir) ([], [])).

End Scanner.

Import Scanner.

(** ** Aggregator: the merge loop of the main script *)

(** Lines 132 to 135, for one per-project result *)
Definition merge_into (used_map partial_used : MatchMap) : MatchMap :=
  fold_left (fun used_map '(key, val) =>
               let used_map :=
                 if mm_mem used_map key then used_map
                 else mm_set used_map key [] in
               match mm_get used_map key with
               | Some l => mm_set used_map key (l ++ val)
               | None => used_map
               end)
            partial_used used_map.

(** Merging a sequence of per-project results, first project first *)
Definition aggregate (partials : list MatchMap) : MatchMap :=
  fold_left merge_into partials [].

(** Lines 129 to 135 *)
Definition scan_projects (os : OS) (endpoints : list descriptor)
           (project_dirs : list str) : result (MatchMap * list warning) :=
  foldM (fun '(used_map, warnings) pdir =>
           r <- find_endpoints_in_code os pdir endpoints ;;
           Ok (merge_into used_map (fst r), warnings ++ snd r))
        ([], []) project_dirs.

(** ** Report Builder *)

Module Report.

Record Row : Type := mkRow {
  endpoint : str; method : str; status : str; files : str; projects : str
}.

Definition row_key (r : Row) : descriptor := (endpoint r, method r).

(** [sep.join(items)] *)
Fixpoint join (sep : str) (items : list str) : str :=
  match items with
  | [] => []
  | [x] => x
  | x :: items' => x ++ sep ++ join sep items'
  end.

(** [str(n)] for a line number *)
Definition decimal (n : nat) : str :=
  py (NilZero.string_of_uint (Nat.to_uint n)).

Fixpoint str_compare (a b : str) : comparison :=
  match a, b with
  | [], [] => Eq
  | [], _ :: _ => Lt
  | _ :: _, [] => Gt
  | x :: a', y :: b' =>
      match (x ?= y)%N with
      | Eq => str_compare a' b'
      | c => c
      end
  end.

Fixpoint insert_uniq (x : str) (l : list str) : list str :=
  match l with
  | [] => [x]
  | y :: l' =>
      match str_compare x y with
      | Lt => x :: l
      | Eq => l
      | Gt => y :: insert_uniq x l'
      end
  end.

(** [sorted(set(items))] *)
Definition sorted_set (items : list str) : list str :=
  fold_left (fun acc x => insert_uniq x acc) items [].

Definition make_row (used : MatchMap) (d : descriptor) : Row :=
  let (ep, method) := d in
  match mm_get used (ep, method) with
  | Some occs =>
      let locations :=
        join (py "; ")
             (List.map (fun '(fp, ln, _) => fp ++ py ":" ++ decimal ln) occs) in
      let projects :=
        join (py ", ") (sorted_set (List.map (fun '(_, _, p) => p) occs)) in
      mkRow ep method (py "used") locations projects
  | None => mkRow ep method (py "unused") [] []
  end.

(** The loop that fills [rows] *)
Definition report_rows (endpoints : list descriptor) (used : MatchMap)
  : list Row :=
  fold_left (fun rows d => rows ++ [make_row used d]) endpoints [].

(** [export_to_csv(endpoints, used)]: the name of the file it writes and
    the rows; the file holds the header and the rows. *)
Definition export_to_csv (endpoints : list descriptor) (used : MatchMap)
  : str * list Row :=
  (py "endpoint_usage.csv", report_rows endpoints used).

End Report.

Import Report.

(** ** The run: load, scan every project, report *)

Section Run.

Variable json_load : list byte -> result value.
Variable yaml_safe_load : list byte -> result value.

Fixpoint nonblank_stripped (lines : list str) : list str :=
  match lines with
  | [] => []
  | d :: lines' =>
      if truthy (strip d) then strip d :: nonblank_stripped lines'
      else nonblank_stripped lines'
  end.

Definition run (os : OS) (endpoint_file : UploadedFile)
           (project_dirs_input : str) : result (list Row * list warning) :=
  endpoints <- load_endpoints json_load yaml_safe_load endpoint_file ;;
  let project_dirs := nonblank_stripped (splitlines project_dirs_input) in
  r <- scan_projects os endpoints project_dirs ;;
  Ok (snd (export_to_csv endpoints (fst r)), snd r).

End Run.

(** * Vocabulary of the statements *)

Definition newline_free (s : str) : bool :=
  forallb (fun c => negb (c =? NL)%N) s.

(** The end of a line as the scanner reads it: nothing, or one newline *)
Definition line_end (s : str) : Prop := s = [] \/ s = [NL].

Definition head_is (c : char) (s : str) : bool :=
  match s with d :: _ => (d =? c)%N | [] => false end.

(** Does the text hold a backslash right before a colon? *)
Fixpoint has_backslash_colon (s : str) : bool :=
  match s with
  | c :: s' =>
      match s' with
      | d :: _ => ((c =? 92)%N && (d =? 58)%N) || has_backslash_colon s'
      | [] => false
      end
  | [] => false
  end.

(** The parsed form of the pattern of the first substitution *)
Definition colon_param_regex : Re.regex :=
  (Re.Cat (Re.Lit 92) (Re.Cat (Re.Lit 58)
     (Re.Group (Re.Cat (Re.In false [(97, 122); (65, 90); (95, 95)])
        (Re.Star (Re.In false [(97, 122); (65, 90); (48, 57); (95, 95)]))))))%N.

(** The parsed form of the suffix that [endpoint_to_regex] appends *)
Definition suffix_regex : Re.regex :=
  (Re.Cat (Re.Opt (Re.Lit 47))
     (Re.Cat (Re.Opt (Re.Group (Re.Cat (Re.Opt (Re.Lit 92))
                                       (Re.Star Re.AnyChar))))
             Re.Eol))%N.

(** No key is bound to an empty occurrence list. *)
Definition nonempty_entries (m : MatchMap) : Prop :=
  forall k l, In (k, l) m -> l <> [].

(** One round of the merge loop, as a single assignment *)
Definition merge_step (used_map : MatchMap)
           (item : descriptor * list occurrence) : MatchMap :=
  mm_set used_map (fst item) (occurrences used_map (fst item) ++ snd item).

(** Match maps that come out of scanning: a map returned by the Tree
    Scanner, the empty map the merge loop starts from, and the merge of a
    per-project result into such a map. *)
Inductive scanned : MatchMap -> Prop :=
| scanned_tree os dir endpoints used ws :
    find_endpoints_in_code os dir endpoints = Ok (used, ws) -> scanned used
| scanned_empty : scanned []
| scanned_merge used_map partial_used :
    scanned used_map -> scanned partial_used ->
    scanned (merge_into used_map partial_used).

(** Does the entry [kp] of [endpoint_patterns] record line [line] for [key]? *)
Definition hit (key : descriptor) (line : str) (kp : compiled) : bool :=
  desc_eqb (fst kp) key && Re.search (snd kp) line.

(** The numbers of the lines, counted from [i], that some entry records
    for [key]. *)
Fixpoint matching_lines (patterns : list compiled) (key : descriptor)
         (i : nat) (lines : list str) : list nat :=
  match lines with
  | [] => []
  | line :: lines' =>
      (if existsb (hit key line) patterns then [i] else [])
        ++ matching_lines patterns key (S i) lines'
  end.

Module Examples.

Definition ping : descriptor := (py "/ping", []).
Definition orders : descriptor := (py "/orders/{id}", py "GET").

(** A project [web] with one source file of two lines and one other file *)
Definition web_os : OS :=
  mkOS (fun d => d)
       (fun root file => root ++ py "/" ++ file)
       (fun d => [(d, [py "api.js"; py "README.md"])])
       (fun path => AllLines [py "const r = fetch('/ping');" ++ [NL];
                              py "// done" ++ [NL]]).

Definition ping_map : MatchMap := [(ping, [(py "web/api.js", 1, py "web")])].

Definition app_map : MatchMap := [(ping, [(py "app/main.dart", 7, py "app")])].

Definition ping_patterns : list compiled :=
  match compile_endpoints [ping] with Ok ps => ps | Raise _ => [] end.

Definition ping_twice_patterns : list compiled :=
  match compile_endpoints [ping; ping] with Ok ps => ps | Raise _ => [] end.

Definition rejecting_parser (data : list byte) : result value :=
  Raise (ParseError (py "Expecting value: line 1 column 1 (char 0)")).

Definition info_only_parser (data : list byte) : result value :=
  Ok (VDict [(py "openapi", VStr (py "3.0.0"))]).

Definition json_file : UploadedFile :=
  mkFile (py "api.json") (list_byte_of_string "{").

Definition text_file : UploadedFile :=
  mkFile (py "endpoints.txt")
         (list_byte_of_string "  /ping " ++ [x0a; x0a]%byte
            ++ list_byte_of_string "/users/{id}" ++ [x0d; x0a]%byte).

End Examples.

(** ** Templates, read the way [endpoint_to_regex] treats them *)

Module Template.

(** What a template is made of: characters, and [{name}] placeholders. *)
Inductive item : Type :=
| TChar (c : char)
| TParam.

(** [[a-zA-Z_]] and [[a-zA-Z0-9_]] *)
Definition is_ident_start (c : char) : bool :=
  Re.in_items [(97, 122); (65, 90); (95, 95)]%N c.

Definition is_ident_char (c : char) : bool :=
  Re.in_items [(97, 122); (65, 90); (48, 57); (95, 95)]%N c.

Fixpoint span (p : char -> bool) (s : str) : str * str :=
  match s with
  | c :: s' =>
      if p c then let (run, rest) := span p s' in (c :: run, rest)
      else ([], s)
  | [] => ([], [])
  end.

(** After an opening brace: the length of [name}] when the text starts
    with an identifier followed by a closing brace. *)
Definition param_len (s : str) : option nat :=
  match s with
  | c :: s' =>
      if is_ident_start c then
        match snd (span is_ident_char s') with
        | d :: _ =>
            if (d =? 125)%N
            then Some (2 + List.length (fst (span is_ident_char s')))
            else None
        | [] => None
        end
      else None
  | [] => None
  end.

(** The items of a template, left to right; [skip] characters are still
    part of the placeholder just read. *)
Fixpoint items_from (skip : nat) (s : str) : list item :=
  match s with
  | [] => []
  | c :: s' =>
      match skip with
      | S n => items_from n s'
      | O =>
          if (c =? 123)%N then
            match param_len s' with
            | Some n => TParam :: items_from n s'
            | None => TChar c :: items_from 0 s'
            end
          else TChar c :: items_from 0 s'
      end
  end.

Definition items (template : str) : list item := items_from 0 template.

Definition is_slash (it : item) : bool :=
  match it with
  | TChar c => (c =? 47)%N
  | TParam => false
  end.

Fixpoint drop_slashes (l : list item) : list item :=
  match l with
  | it :: l' => if is_slash it then drop_slashes l' else l
  | [] => []
  end.

(** The items without the trailing slashes *)
Definition rstrip_items (l : list item) : list item :=
  rev (drop_slashes (rev l)).

(** The pattern text of an item *)
Definition render_item (it : item) : str :=
  match it with
  | TChar c => if char_in c Re.special_chars then [BSLASH; c] else [c]
  | TParam => py "[^/]+"
  end.

Definition render (l : list item) : str := flat_map render_item l.

(** The regular expression of an item *)
Definition regex_of (it : item) : Re.regex :=
  match it with
  | TChar c => Re.Lit c
  | TParam => Re.Plus (Re.In true [(47, 47)]%N)
  end.

(** The items in sequence, then [tail] *)
Definition chain (l : list item) (tail : Re.regex) : Re.regex :=
  fold_right (fun it acc => Re.Cat (regex_of it) acc) tail l.

(** The character [c'] of a line stands for the character [c] of the
    template: the same character or, when [c] is cased, one whose lower
    case is the lower case of [c] or one of its extra cases. *)
Definition same_letter (c c' : char) : Prop :=
  if Re.unicode_iscased c
  then In (Re.unicode_tolower c')
          (Re.unicode_tolower c :: Re.extra_cases_of (Re.unicode_tolower c))
  else c' = c.

(** A text is an instance of the items: each character up to case, each
    placeholder replaced by a non-empty run without a slash. *)
Inductive instantiates : list item -> str -> Prop :=
| inst_nil : instantiates [] []
| inst_char c c' l text :
    same_letter c c' -> instantiates l text ->
    instantiates (TChar c :: l) (c' :: text)
| inst_param seg l text :
    seg <> [] -> forallb (fun c => negb (c =? 47)%N) seg = true ->
    instantiates l text ->
    instantiates (TParam :: l) (seg ++ text).

End Template.

(** The parsed form of the pattern of the second substitution *)
Definition brace_param_regex : Re.regex :=
  (Re.Cat (Re.Lit 92) (Re.Cat (Re.Lit 123)
     (Re.Cat (Re.In false [(97, 122); (65, 90); (95, 95)])
        (Re.Cat (Re.Star (Re.In false [(97, 122); (65, 90); (48, 57); (95, 95)]))
           (Re.Cat (Re.Lit 92) (Re.Lit 125))))))%N.

(** The first character of an item's pattern text: a backslash, an opening
    bracket or a character that [re.escape] leaves alone. *)
Definition starts_item (s : str) : Prop :=
  match s with
  | c :: _ => c = BSLASH \/ c = 91%N \/ char_in c Re.special_chars = false
  | [] => False
  end.

(** ** The scan, file by file *)

(** The lines that reading a file yields, with or without an exception
    at the end *)
Definition file_lines (r : file_read) : list str :=
  match r with
  | AllLines lines => lines
  | LinesThenError lines _ => lines
  end.

(** The warning that reading a file causes, if any *)
Definition file_warning (path : str) (r : file_read) : list warning :=
  match r with
  | AllLines _ => []
  | LinesThenError _ e => [(path, e)]
  end.

(** The paths of the files the scanner opens, in the order of the walk *)
Definition source_files (os : OS) (project_dir : str) : list str :=
  flat_map (fun entry : str * list str =>
              List.map (path_join os (fst entry))
                       (filter (fun file => endswith_any file source_extensions)
                               (snd entry)))
           (walk os project_dir).

(** The lines with their numbers, the first line being line [i] *)
Definition numbered (i : nat) (lines : list str) : list (nat * str) :=
  combine (seq i (List.length lines)) lines.

(** What one file adds to the occurrence list of [key]: for every line,
    one record per entry of [endpoint_patterns] that carries [key] and
    whose pattern is found in the line. *)
Definition file_records (patterns : list compiled) (key : descriptor)
           (project_name : str) (path : str) (lines : list str)
  : list occurrence :=
  flat_map (fun nl : nat * str =>
              repeat (path, fst nl, project_name)
                     (List.length (filter (hit key (snd nl)) patterns)))
           (numbered 1 lines).

(** Does the matcher of the template accept the line? *)
Definition accepts (template line : str) : bool :=
  match matches template line with
  | Some true => true
  | _ => false
  end.

(** The numbers of the lines the matcher of the template accepts *)
Definition accepted_lines (template : str) (lines : list str) : list nat :=
  List.map fst (filter (fun nl : nat * str => accepts template (snd nl))
                       (numbered 1 lines)).

(** ** Structured documents *)

(** The uploaded file is handed to the parser of its suffix, which
    returns [r]. *)
Definition parsed_as (json_load yaml_safe_load : list byte -> result value)
           (f : UploadedFile) (r : result value) : Prop :=
  (endswith (name f) (py ".json") = true /\ json_load (data f) = r) \/
  (endswith (name f) (py ".json") = false /\
   endswith_any (name f) [py ".yaml"; py ".yml"] = true /\
   yaml_safe_load (data f) = r).

Definition is_dict (v : value) : bool :=
  match v with VDict _ => true | _ => false end.

(** The descriptors of a [paths] mapping whose values are mappings: for
    every path, for every method key, in document order. *)
Definition path_descriptors (paths : list (str * value)) : list descriptor :=
  flat_map (fun pv : str * value =>
              match snd pv with
              | VDict methods =>
                  List.map (fun mk : str * value =>
                              (fst pv, str_upper (fst mk))) methods
              | _ => []
              end)
           paths.

Definition is_ascii (c : char) : bool := (c <? 128)%N.

(** Every method key of the [paths] mapping is written in ASCII. *)
Definition ascii_method_keys (paths : list (str * value)) : bool :=
  forallb (fun pv : str * value =>
             match snd pv with
             | VDict methods =>
                 forallb (fun mk : str * value => forallb is_ascii (fst mk))
                         methods
             | _ => true
             end)
          paths.

(** One descriptor per path and method key, in document order, the small
    letters of the method key replaced by capital letters *)
Definition capital_descriptors (paths : list (str * value))
  : list descriptor :=
  flat_map (fun pv : str * value =>
              match snd pv with
              | VDict methods =>
                  List.map (fun mk : str * value =>
                              (fst pv, List.map upper (fst mk))) methods
              | _ => []
              end)
           paths.

(** ** The counts of the main script (lines 149 to 151) *)

Definition all_count (rows : list Row) : nat := List.length rows.

Definition used_count (rows : list Row) : nat :=
  List.length (filter (fun r => str_eqb (status r) (py "used")) rows).

Definition unused_count (rows : list Row) : nat :=
  List.length (filter (fun r => str_eqb (status r) (py "unused")) rows).

(** ** The status filter of the main script (lines 154 to 166) *)

(** The three labels of the radio button *)
Definition status_labels (rows : list Row) : list str :=
  [py "All (" ++ decimal (all_count rows) ++ py ")";
   py "Used (" ++ decimal (used_count rows) ++ py ")";
   py "Unused (" ++ decimal (unused_count rows) ++ py ")"].

(** The frame after the status filter (lines 163 to 166) *)
Definition apply_status_filter (status_filter : str) (rows : list Row)
  : list Row :=
  if startswith status_filter (py "Used") then
    filter (fun r => str_eqb (status r) (py "used")) rows
  else if startswith status_filter (py "Unused") then
    filter (fun r => str_eqb (status r) (py "unused")) rows
  else rows.

(** ** The table shown (lines 163 to 174)

    After the status filter, a search text that is not empty filters the
    frame once more, on the Endpoint column; what is left is displayed. *)

(** [df[mask]]: the rows whose entry of the mask is true *)
Definition select_rows (mask : list bool) (rows : list Row) : list Row :=
  List.map snd (filter fst (combine mask rows)).

Section Display.

(** [Series.str.contains(search, case=False)] of pandas on a column: one
    truth value per cell, or the exception of a search text that is no
    regular expression. *)
Variable str_contains : list str -> str -> result (list bool).

Definition displayed (status_filter search : str) (rows : list Row)
  : result (list Row) :=
  let df := apply_status_filter status_filter rows in
  if truthy search then
    mask <- str_contains (List.map endpoint df) search ;;
    Ok (select_rows mask df)
  else Ok df.

End Display.

(** [sub] keeps some of the rows of [all], in their order. *)
Inductive kept_from : list Row -> list Row -> Prop :=
| kept_nil : kept_from [] []
| kept_take r sub all : kept_from sub all -> kept_from (r :: sub) (r :: all)
| kept_skip r sub all : kept_from sub all -> kept_from sub (r :: all).

(** Strictly increasing in the order of [sorted] *)
Definition str_lt (a b : str) : Prop := str_compare a b = Lt.

(** Not a line boundary of [str.splitlines] *)
Definition no_linebreak (c : char) : bool :=
  negb ((c =? 13)%N || is_linebreak c).

(** ** Plain lists, line by line *)

(** The code points that are whitespace for [str.strip] *)
Definition whitespace : str :=
  [9; 10; 11; 12; 13; 28; 29; 30; 31; 32; 133; 160; 5760; 8192; 8193; 8194;
   8195; 8196; 8197; 8198; 8199; 8200; 8201; 8202; 8232; 8233; 8239; 8287;
   12288]%N.

(** The code points at which [str.splitlines] ends a line *)
Definition line_boundaries : str :=
  [10; 11; 12; 13; 28; 29; 30; 133; 8232; 8233]%N.

Definition is_white (c : char) : bool := char_in c whitespace.

Definition inside_line (c : char) : bool := negb (char_in c line_boundaries).

(** Where a line ends: at a carriage return followed by a line feed, at a
    carriage return that no line feed follows, or at one of the other
    line boundaries. *)
Definition line_break (b rest : str) : Prop :=
  b = [13; 10]%N \/
  (b = [13]%N /\ match rest with d :: _ => d <> 10%N | [] => True end) \/
  (exists c, b = [c] /\ c <> 13%N /\ char_in c line_boundaries = true).

(** The lines of a text: each line runs up to the next line boundary, and
    text after the last boundary is a line of its own. *)
Inductive text_lines : str -> list str -> Prop :=
| lines_none : text_lines [] []
| lines_last l :
    l <> [] -> forallb inside_line l = true -> text_lines l [l]
| lines_break l b rest ls :
    forallb inside_line l = true -> line_break b rest ->
    text_lines rest ls -> text_lines (l ++ b ++ rest) (l :: ls).

(** A line that holds nothing but whitespace *)
Definition blank (line : str) : bool := forallb is_white line.

(** [core] is [line] without the whitespace before and after it. *)
Definition trimmed (line core : str) : Prop :=
  exists before after,
    line = before ++ core ++ after /\
    forallb is_white before = true /\ forallb is_white after = true /\
    match core with c :: _ => is_white c = false | [] => True end /\
    match rev core with c :: _ => is_white c = false | [] => True end.

(** ** The main script (lines 122 to 177)

    Nothing is computed until a file is uploaded and the text area holds
    some text; then the run goes through. *)
Definition main_script (json_load yaml_safe_load : list byte -> result value)
           (os : OS) (endpoint_file : option UploadedFile)
           (project_dirs_input : str)
  : option (result (list Row * list warning)) :=
  match endpoint_file with
  | Some f =>
      if truthy project_dirs_input
      then Some (run json_load yaml_safe_load os f project_dirs_input)
      else None
  | None => None
  end.

(** ** Further worked examples *)

Module MoreExamples.

Definition ping_get : descriptor := (py "/ping", py "GET").
Definition ping_post : descriptor := (py "/ping", py "POST").

(** A project with a readable source file, a source file whose reading
    fails after its first line, and a file that is no source file *)
Definition flaky_os : OS :=
  mkOS (fun d => d)
       (fun root file => root ++ py "/" ++ file)
       (fun d => [(d, [py "api.js"; py "broken.ts"; py "notes.md"])])
       (fun path =>
          if endswith path (py "broken.ts")
          then LinesThenError [py "post('/ping')" ++ [NL]]
                              (py "'utf-8' codec can't decode byte 0xff")
          else AllLines [py "get('/ping')" ++ [NL]; py "// done" ++ [NL]]).

(** A project without any source file *)
Definition docs_os : OS :=
  mkOS (fun d => d)
       (fun root file => root ++ py "/" ++ file)
       (fun d => [(d, [py "README.md"; py "LICENSE"])])
       (fun path => AllLines [py "see /ping" ++ [NL]]).

Definition flaky_scan : MatchMap * list warning :=
  match find_endpoints_in_code flaky_os (py "web") [ping_get; ping_post] with
  | Ok r => r
  | Raise _ => ([], [])
  end.

Definition text_run : list Row * list warning :=
  match main_script Examples.rejecting_parser Examples.rejecting_parser
                    Examples.web_os (Some Examples.text_file) (py "web") with
  | Some (Ok r) => r
  | _ => ([], [])
  end.

Definition two_paths : list (str * value) :=
  [(py "/ping", VDict [(py "get", VDict []); (py "post", VDict [])]);
   (py "/users/{id}", VDict [(py "delete", VNone)])].

Definition openapi_parser (data : list byte) : result value :=
  Ok (VDict [(py "openapi", VStr (py "3.0.0")); (py "paths", VDict two_paths)]).

(** An empty YAML file loads as [None] *)
Definition empty_yaml_parser (data : list byte) : result value := Ok VNone.

Definition null_paths_parser (data : list byte) : result value :=
  Ok (VDict [(py "paths", VNone)]).

Definition null_item_parser (data : list byte) : result value :=
  Ok (VDict [(py "paths",
              VDict [(py "/ping", VDict [(py "get", VDict [])]);
                     (py "/users", VNone);
                     (py "/orders", VDict [(py "get", VDict [])])])]).

Definition yaml_file : UploadedFile :=
  mkFile (py "api.yaml") (list_byte_of_string "").

Definition latin1_file : UploadedFile :=
  mkFile (py "endpoints.txt") [x2f; xe9]%byte.

Definition two_rows : list Row :=
  report_rows [Examples.ping; Examples.orders] Examples.ping_map.

(** A plain list that names [/ping] on two lines *)
Definition twice_file : UploadedFile :=
  mkFile (py "endpoints.txt")
         (list_byte_of_string "/ping" ++ [x0a]%byte
            ++ list_byte_of_string "/ping" ++ [x0a]%byte).

(** What scanning [web] for that list records *)
Definition ping_twice_map : MatchMap :=
  [(Examples.ping, [(py "web/api.js", 1, py "web");
                    (py "web/api.js", 1, py "web")])].

(** A search that keeps the cells in which the text occurs as it stands *)
Fixpoint occurs_in (text cell : str) : bool :=
  startswith cell text ||
  match cell with
  | [] => false
  | _ :: cell' => occurs_in text cell'
  end.

Definition plain_contains (cells : list str) (search : str)
  : result (list bool) :=
  Ok (List.map (occurs_in search) cells).

End MoreExamples.

(** * Properties *)

(** ** Strings and keys *)

Lemma str_eqb_spec (a b : str) : str_eqb a b = true <-> a = b.
Proof.
  revert b; induction a as [|x a IH]; intros [|y b]; simpl;
    try (split; [discriminate | congruence]); try tauto.
  rewrite andb_true_iff, N.eqb_eq, IH.
  split; [intros [-> ->]; reflexivity | intros H; injection H; auto].
Qed.

Lemma desc_eqb_spec (a b : descriptor) : desc_eqb a b = true <-> a = b.
Proof.
  destruct a as [a1 a2], b as [b1 b2]; unfold desc_eqb; simpl.
  rewrite andb_true_iff, !str_eqb_spec.
  split; [intros [-> ->]; reflexivity | intros H; injection H; auto].
Qed.

Lemma desc_eqb_refl (a : descriptor) : desc_eqb a a = true.
Proof. apply desc_eqb_spec; reflexivity. Qed.

Lemma desc_eqb_neq (a b : descriptor) : a <> b -> desc_eqb a b = false.
Proof.
  intros H; destruct (desc_eqb a b) eqn:E; [|reflexivity].
  apply desc_eqb_spec in E; contradiction.
Qed.

Lemma desc_eq_dec (a b : descriptor) : {a = b} + {a <> b}.
Proof.
  destruct (desc_eqb a b) eqn:E.
  - left; apply desc_eqb_spec; exact E.
  - right; intros H; apply desc_eqb_spec in H; congruence.
Defined.

(** ** Pattern Compiler *)

(** The three patterns of the source are in the fragment. *)
Example colon_param_pattern_parses :
  Re.parse (py "\\:([a-zA-Z_][a-zA-Z0-9_]*)") = Some colon_param_regex.
Proof. reflexivity. Qed.

Example brace_param_pattern_parses :
  Re.parse (py "\\{[a-zA-Z_][a-zA-Z0-9_]*\\}") =
  Some (Re.Cat (Re.Lit 92) (Re.Cat (Re.Lit 123)
         (Re.Cat (Re.In false [(97, 122); (65, 90); (95, 95)])
            (Re.Cat (Re.Star (Re.In false [(97, 122); (65, 90); (48, 57); (95, 95)]))
               (Re.Cat (Re.Lit 92) (Re.Lit 125))))))%N.
Proof. reflexivity. Qed.

(** The appended suffix: an optional slash, then an optional group made of
    an optional backslash and any run of characters, then the end. *)
Example suffix_parses : Re.parse (py "/?(\\?.*)?$") = Some suffix_regex.
Proof. reflexivity. Qed.

Example brace_template_pattern :
  endpoint_pattern (py "/users/{id}") = Some (py "/users/[^/]+/?(\\?.*)?$").
Proof. reflexivity. Qed.

Example root_template_pattern :
  endpoint_pattern (py "/") = Some (py "/?(\\?.*)?$") /\
  matches (py "/") (py "/") = Some true.
Proof. split; reflexivity. Qed.

(** C1. The template [/users/:id] is not widened: [re.escape] leaves the
    colon alone, so the substitution that looks for a backslash before the
    colon finds nothing, and the compiled matcher only accepts the literal
    text [/users/:id].  It returns false on the lines [/users/42/] and
    [/users/42?x=1], with or without the line's newline. *)
Theorem colon_template_is_not_widened :
  Re.escape (py "/users/:id") = py "/users/:id" /\
  endpoint_pattern (py "/users/:id") = Some (py "/users/:id/?(\\?.*)?$") /\
  matches (py "/users/:id") (py "/users/42/") = Some false /\
  matches (py "/users/:id") (py "/users/42?x=1") = Some false /\
  matches (py "/users/:id") (py "/users/42/" ++ [NL]) = Some false /\
  matches (py "/users/:id") (py "/users/42?x=1" ++ [NL]) = Some false /\
  matches (py "/users/:id") (py "/users/:id") = Some true.
Proof. repeat split; vm_compute; reflexivity. Qed.

(** C2. The matcher compiled from [/users/{id}] returns true on the line
    [fetch('/users/42')], and it returns true as well on the line
    [/users/42/extra]: the group of the suffix accepts any tail. *)
Theorem brace_template_accepts_extra_segment :
  matches (py "/users/{id}") (py "fetch('/users/42')") = Some true /\
  matches (py "/users/{id}") (py "/users/42/extra") = Some true /\
  matches (py "/users/{id}") (py "/users/42/extra" ++ [NL]) = Some true.
Proof. repeat split; vm_compute; reflexivity. Qed.

(** C3. The matcher compiled from [/health] returns true on the lines
    [GET /health] and [/health/], and it returns true as well on the line
    [/healthcheck]. *)
Theorem literal_template_accepts_longer_word :
  matches (py "/health") (py "GET /health") = Some true /\
  matches (py "/health") (py "/health/") = Some true /\
  matches (py "/health") (py "/healthcheck") = Some true /\
  matches (py "/health") (py "/healthcheck" ++ [NL]) = Some true.
Proof. repeat split; vm_compute; reflexivity. Qed.

(** *** The first substitution never fires

    [re.escape] puts a backslash before the characters of
    [special_chars] only, and the colon is not one of them.  Unless the
    template itself holds a backslash right before a colon, the escaped
    text holds none, and the substitution for [:name] changes nothing. *)

Lemma search_colon_param_none s : forall must_advance i,
  has_backslash_colon s = false ->
  Re.search_from false colon_param_regex must_advance i s = None.
Proof.
  induction s as [|c s IH]; intros ma i H.
  - reflexivity.
  - cbn [Re.search_from].
    assert (Hm : forall k, Re.rmatch false colon_param_regex i (c :: s) k = None).
    { intros k; unfold colon_param_regex; cbn [Re.rmatch Re.lit_eq andb].
      destruct (92 =? c)%N eqn:Ec; [|reflexivity].
      destruct s as [|d s']; [reflexivity|].
      destruct (58 =? d)%N eqn:Ed; [|reflexivity].
      apply N.eqb_eq in Ec, Ed; subst c d.
      simpl in H; discriminate. }
    rewrite Hm; apply IH.
    simpl in H; destruct s as [|d s']; [reflexivity|].
    apply orb_false_iff in H; tauto.
Qed.

Lemma sub_colon_param_id s :
  has_backslash_colon s = false ->
  Re.sub (py "\\:([a-zA-Z_][a-zA-Z0-9_]*)") (py "[^/]+") s = Some s.
Proof.
  intros H; unfold Re.sub.
  change (Re.parse (py "\\:([a-zA-Z_][a-zA-Z0-9_]*)"))
    with (Some colon_param_regex).
  cbn [Nat.add Re.sub_loop].
  rewrite search_colon_param_none by exact H; reflexivity.
Qed.

Lemma has_backslash_colon_cons c s :
  has_backslash_colon (c :: s) =
  ((c =? 92)%N && head_is 58%N s) || has_backslash_colon s.
Proof. destruct s as [|d s]; simpl; [rewrite andb_false_r|]; reflexivity. Qed.

Lemma escape_cons c e :
  Re.escape (c :: e) =
  (if char_in c Re.special_chars then [BSLASH; c] else [c]) ++ Re.escape e.
Proof. reflexivity. Qed.

Lemma special_not_colon c :
  char_in c Re.special_chars = true -> (c =? 58)%N = false.
Proof.
  intros H; destruct (c =? 58)%N eqn:E; [|reflexivity].
  apply N.eqb_eq in E; subst c; vm_compute in H; discriminate.
Qed.

Lemma head_escape e : head_is 58%N (Re.escape e) = head_is 58%N e.
Proof.
  destruct e as [|c e]; [reflexivity|].
  rewrite escape_cons.
  destruct (char_in c Re.special_chars) eqn:E; simpl; [|reflexivity].
  rewrite (special_not_colon _ E); reflexivity.
Qed.

Lemma escape_keeps_no_backslash_colon e :
  has_backslash_colon e = false -> has_backslash_colon (Re.escape e) = false.
Proof.
  induction e as [|c e IH]; [reflexivity|].
  rewrite has_backslash_colon_cons, escape_cons.
  intros H; apply orb_false_iff in H; destruct H as [H1 H2].
  specialize (IH H2).
  destruct (char_in c Re.special_chars) eqn:E.
  - cbn [app]; rewrite !has_backslash_colon_cons.
    cbn [head_is]; rewrite (special_not_colon _ E), andb_false_r.
    rewrite head_escape, H1, IH; reflexivity.
  - cbn [app]; rewrite has_backslash_colon_cons, head_escape, H1, IH.
    reflexivity.
Qed.

Lemma colon_substitution_never_fires_fact endpoint :
  has_backslash_colon endpoint = false ->
  Re.sub (py "\\:([a-zA-Z_][a-zA-Z0-9_]*)") (py "[^/]+") (Re.escape endpoint)
  = Some (Re.escape endpoint).
Proof.
  intros H; apply sub_colon_param_id, escape_keeps_no_backslash_colon, H.
Qed.

(** X3. Unless the template holds a backslash right before a colon,
    the substitution for [:name] leaves the escaped template as it is. *)
Theorem colon_substitution_never_fires endpoint :
  has_backslash_colon endpoint = false ->
  Re.sub (py "\\:([a-zA-Z_][a-zA-Z0-9_]*)") (py "[^/]+") (Re.escape endpoint)
  = Some (Re.escape endpoint).
Proof. exact (@colon_substitution_never_fires_fact endpoint). Qed.

(** *** The suffix accepts any tail

    The group of the suffix is an optional backslash followed by any run
    of characters, so whatever follows the template on the line is
    accepted. *)

Lemma rmatch_cat ic r1 r2 i s k :
  Re.rmatch ic (Re.Cat r1 r2) i s k =
  Re.rmatch ic r1 i s (fun j s' => Re.rmatch ic r2 j s' k).
Proof. reflexivity. Qed.

Lemma rmatch_opt ic r i s k :
  Re.rmatch ic (Re.Opt r) i s k =
  match Re.rmatch ic r i s k with Some res => Some res | None => k i s end.
Proof. reflexivity. Qed.

Lemma rmatch_group ic r i s k :
  Re.rmatch ic (Re.Group r) i s k = Re.rmatch ic r i s k.
Proof. reflexivity. Qed.

Lemma rmatch_star ic r i s k :
  Re.rmatch ic (Re.Star r) i s k =
  Re.star_loop (Re.rmatch ic r) k (List.length s) i s.
Proof. reflexivity. Qed.

Lemma rmatch_plus ic r i s k :
  Re.rmatch ic (Re.Plus r) i s k =
  Re.rmatch ic r i s
            (fun j s' => Re.star_loop (Re.rmatch ic r) k (List.length s') j s').
Proof. reflexivity. Qed.

Lemma rmatch_lit ic a c i s k :
  Re.lit_eq ic a c = true ->
  Re.rmatch ic (Re.Lit a) i (c :: s) k = k (S i) s.
Proof. intros H; cbn [Re.rmatch]; rewrite H; reflexivity. Qed.

Lemma rmatch_in ic negate items c i s k :
  Re.in_set negate items c = true ->
  Re.rmatch ic (Re.In negate items) i (c :: s) k = k (S i) s.
Proof. intros H; cbn [Re.rmatch]; rewrite H; reflexivity. Qed.

Lemma opt_skip ic r i s k :
  k i s <> None -> Re.rmatch ic (Re.Opt r) i s k <> None.
Proof. rewrite rmatch_opt; destruct (Re.rmatch ic r i s k); congruence. Qed.

Lemma opt_take ic r i s k :
  Re.rmatch ic r i s k <> None -> Re.rmatch ic (Re.Opt r) i s k <> None.
Proof. rewrite rmatch_opt; destruct (Re.rmatch ic r i s k); congruence. Qed.

Lemma star_loop_skip body k n i s :
  k i s <> None -> Re.star_loop body k n i s <> None.
Proof.
  destruct n; cbn [Re.star_loop]; [auto|].
  destruct (body i s _); congruence.
Qed.

Lemma star_any_runs ic k tail e : forall n i,
  newline_free tail = true -> k (i + List.length tail) e <> None ->
  List.length (tail ++ e) <= n ->
  Re.star_loop (Re.rmatch ic Re.AnyChar) k n i (tail ++ e) <> None.
Proof.
  induction tail as [|c tail IH]; intros n i Hnf Hk Hn.
  - apply star_loop_skip; rewrite Nat.add_0_r in Hk; exact Hk.
  - destruct n as [|n]; [simpl in Hn; lia|].
    simpl in Hnf; apply andb_true_iff in Hnf; destruct Hnf as [Hc Hnf].
    apply negb_true_iff in Hc.
    cbn [Re.star_loop Re.rmatch app]; rewrite Hc.
    replace (S i =? i) with false by (symmetry; apply Nat.eqb_neq; lia).
    assert (H : Re.star_loop (Re.rmatch ic Re.AnyChar) k n (S i) (tail ++ e)
                <> None).
    { apply IH; [exact Hnf | | simpl in Hn; lia].
      simpl in Hk; rewrite Nat.add_succ_r in Hk; exact Hk. }
    destruct (Re.star_loop _ k n (S i) (tail ++ e)); congruence.
Qed.

Lemma eol_accepts ic k j e :
  line_end e -> k j e <> None -> Re.rmatch ic Re.Eol j e k <> None.
Proof. intros [->| ->] H; exact H. Qed.

Lemma suffix_accepts_tail ic k i tail e :
  newline_free tail = true -> line_end e ->
  k (i + List.length tail) e <> None ->
  Re.rmatch ic suffix_regex i (tail ++ e) k <> None.
Proof.
  intros Hnf He Hk; unfold suffix_regex.
  rewrite rmatch_cat; apply opt_skip.
  rewrite rmatch_cat; apply opt_take.
  rewrite rmatch_group, rmatch_cat; apply opt_skip.
  rewrite rmatch_star; apply star_any_runs; [exact Hnf | | lia].
  apply eol_accepts; assumption.
Qed.

Lemma search_at_start p line :
  Re.rmatch (Re.p_ignorecase p) (Re.p_regex p) 0 line
            (fun j s' => Some (j, s')) <> None ->
  Re.search p line = true.
Proof.
  unfold Re.search; intros H.
  destruct line as [|c line]; cbn [Re.search_from andb];
    match goal with
    | |- context [Re.rmatch ?ic ?r ?i ?s ?k] =>
        change k with (fun (j : nat) (s' : str) => Some (j, s')) ;
        destruct (Re.rmatch ic r i s (fun j s' => Some (j, s')))
          as [[? ?]|]; [reflexivity | congruence]
    end.
Qed.

Example health_compiled :
  endpoint_to_regex (py "/health") =
  Some (Re.mkPattern
          (Re.Cat (Re.Lit 47) (Re.Cat (Re.Lit 104) (Re.Cat (Re.Lit 101)
            (Re.Cat (Re.Lit 97) (Re.Cat (Re.Lit 108) (Re.Cat (Re.Lit 116)
              (Re.Cat (Re.Lit 104) suffix_regex)))))))%N true).
Proof. reflexivity. Qed.

Example users_compiled :
  endpoint_to_regex (py "/users/{id}") =
  Some (Re.mkPattern
          (Re.Cat (Re.Lit 47) (Re.Cat (Re.Lit 117) (Re.Cat (Re.Lit 115)
            (Re.Cat (Re.Lit 101) (Re.Cat (Re.Lit 114) (Re.Cat (Re.Lit 115)
              (Re.Cat (Re.Lit 47)
                 (Re.Cat (Re.Plus (Re.In true [(47, 47)]))
                         suffix_regex))))))))%N true).
Proof. reflexivity. Qed.

(** Whatever follows [/health] on a line, the matcher of [/health] accepts
    the line. *)
Theorem literal_template_accepts_any_tail tail e :
  newline_free tail = true -> line_end e ->
  matches (py "/health") (py "/health" ++ tail ++ e) = Some true.
Proof.
  intros Hnf He; unfold matches; rewrite health_compiled.
  f_equal; apply search_at_start; cbn [Re.p_regex Re.p_ignorecase].
  change (py "/health") with [47; 104; 101; 97; 108; 116; 104]%N.
  cbn [app].
  repeat (rewrite rmatch_cat, rmatch_lit by reflexivity).
  apply suffix_accepts_tail; [exact Hnf | exact He | discriminate].
Qed.

(** Whatever follows [/users/4] on a line, further path segments
    included, the matcher of [/users/{id}] accepts the line. *)
Theorem brace_template_accepts_any_tail tail e :
  newline_free tail = true -> line_end e ->
  matches (py "/users/{id}") (py "/users/4" ++ tail ++ e) = Some true.
Proof.
  intros Hnf He; unfold matches; rewrite users_compiled.
  f_equal; apply search_at_start; cbn [Re.p_regex Re.p_ignorecase].
  change (py "/users/4") with [47; 117; 115; 101; 114; 115; 47; 52]%N.
  cbn [app].
  repeat (rewrite rmatch_cat, rmatch_lit by reflexivity).
  rewrite rmatch_cat, rmatch_plus, rmatch_in by reflexivity.
  apply star_loop_skip.
  apply suffix_accepts_tail; [exact Hnf | exact He | discriminate].
Qed.

(** ** Dictionaries *)

Module DictFacts.
Section Facts.

Variables (K V : Type) (eqb : K -> K -> bool).
Hypothesis eqb_spec : forall a b, eqb a b = true <-> a = b.

Local Abbreviation get := (Dict.get (V := V) eqb).
Local Abbreviation set := (Dict.set (V := V) eqb).
Local Abbreviation mem := (Dict.mem (V := V) eqb).

Lemma eqb_refl k : eqb k k = true.
Proof. apply eqb_spec; reflexivity. Qed.

Lemma eqb_neq a b : a <> b -> eqb a b = false.
Proof.
  intros H; destruct (eqb a b) eqn:E; [|reflexivity].
  apply eqb_spec in E; contradiction.
Qed.

Lemma get_set_same d k v : get (set d k v) k = Some v.
Proof.
  induction d as [|[k' v'] d IH]; simpl.
  - rewrite eqb_refl; reflexivity.
  - destruct (eqb k' k) eqn:E; simpl; rewrite E; auto.
Qed.

Lemma get_set_other d k k' v : k <> k' -> get (set d k v) k' = get d k'.
Proof.
  intros Hne; induction d as [|[k0 v0] d IH]; simpl.
  - rewrite eqb_neq; auto.
  - destruct (eqb k0 k) eqn:E; simpl.
    + apply eqb_spec in E; subst k0.
      rewrite eqb_neq by assumption; reflexivity.
    + destruct (eqb k0 k'); auto.
Qed.

Lemma set_set d k v1 v2 : set (set d k v1) k v2 = set d k v2.
Proof.
  induction d as [|[k0 v0] d IH]; simpl.
  - rewrite eqb_refl; reflexivity.
  - destruct (eqb k0 k) eqn:E; simpl; rewrite E; [reflexivity|].
    f_equal; exact IH.
Qed.

Lemma get_In d k v : get d k = Some v -> In (k, v) d.
Proof.
  induction d as [|[k0 v0] d IH]; simpl; [discriminate|].
  destruct (eqb k0 k) eqn:E.
  - apply eqb_spec in E; subst k0; intros H; injection H as ->; auto.
  - auto.
Qed.

Lemma get_None d k : get d k = None <-> ~ In k (Dict.keys d).
Proof.
  induction d as [|[k0 v0] d IH]; simpl; [tauto|].
  destruct (eqb k0 k) eqn:E.
  - apply eqb_spec in E; subst k0.
    split; [discriminate | intros H; exfalso; apply H; auto].
  - rewrite IH; split; [|tauto].
    intros H [H1|H1]; [|tauto].
    subst k0; rewrite eqb_refl in E; discriminate.
Qed.

Lemma In_set d k v k' v' :
  In (k', v') (set d k v) -> In (k', v') d \/ (k' = k /\ v' = v).
Proof.
  induction d as [|[k0 v0] d IH]; simpl.
  - intros [H|[]]; injection H as <- <-; auto.
  - destruct (eqb k0 k) eqn:E; simpl.
    + apply eqb_spec in E; subst k0.
      intros [H|H]; [injection H as <- <-; auto | auto].
    + intros [H|H]; [auto|]. destruct (IH H); auto.
Qed.

Lemma keys_set d k v :
  Dict.keys (set d k v) = if mem d k then Dict.keys d else Dict.keys d ++ [k].
Proof.
  unfold mem, Dict.mem; induction d as [|[k0 v0] d IH]; simpl; [reflexivity|].
  destruct (eqb k0 k) eqn:E; simpl; [reflexivity|].
  rewrite IH; fold (get d k); destruct (get d k); reflexivity.
Qed.

Lemma wf_set d k v : Dict.wf d -> Dict.wf (set d k v).
Proof.
  unfold Dict.wf; intros Hwf; rewrite keys_set.
  unfold mem, Dict.mem; fold (get d k).
  destruct (get d k) eqn:E; [assumption|].
  apply get_None in E.
  apply NoDup_app; [assumption | repeat constructor; simpl; tauto|].
  intros x Hx [<-|[]]; contradiction.
Qed.

End Facts.
End DictFacts.

(** ** Facts about the MatchMap *)

Lemma mm_get_set_same m k v : mm_get (mm_set m k v) k = Some v.
Proof. apply DictFacts.get_set_same, desc_eqb_spec. Qed.

Lemma mm_get_set_other m k k' v : k <> k' -> mm_get (mm_set m k v) k' = mm_get m k'.
Proof. apply DictFacts.get_set_other, desc_eqb_spec. Qed.

Lemma mm_set_set m k v1 v2 : mm_set (mm_set m k v1) k v2 = mm_set m k v2.
Proof. apply DictFacts.set_set, desc_eqb_spec. Qed.

Lemma mm_wf_set m k v : Dict.wf m -> Dict.wf (mm_set m k v).
Proof. apply DictFacts.wf_set, desc_eqb_spec. Qed.

(** Binding a new key to a fresh list and extending the list bound to the
    key amounts to one assignment. *)
Lemma setdefault_extend m k (v : list occurrence) :
  (let m1 := if mm_mem m k then m else mm_set m k [] in
   match mm_get m1 k with
   | Some l => mm_set m1 k (l ++ v)
   | None => m1
   end) = mm_set m k (occurrences m k ++ v).
Proof.
  unfold mm_mem, Dict.mem, occurrences; fold (mm_get m k).
  destruct (mm_get m k) as [l|] eqn:E; simpl.
  - rewrite E; reflexivity.
  - rewrite mm_get_set_same, mm_set_set; reflexivity.
Qed.

Lemma occurrences_set m k k' v :
  occurrences (mm_set m k v) k' = if desc_eqb k k' then v else occurrences m k'.
Proof.
  unfold occurrences; destruct (desc_eqb k k') eqn:E.
  - apply desc_eqb_spec in E; subst k'; rewrite mm_get_set_same; reflexivity.
  - rewrite mm_get_set_other; [reflexivity|].
    intros ->; rewrite desc_eqb_refl in E; discriminate.
Qed.

Lemma mm_mem_set m k k' v :
  mm_mem (mm_set m k v) k' = desc_eqb k k' || mm_mem m k'.
Proof.
  unfold mm_mem, Dict.mem; fold (mm_get (mm_set m k v) k') (mm_get m k').
  destruct (desc_eqb k k') eqn:E; simpl.
  - apply desc_eqb_spec in E; subst k'; rewrite mm_get_set_same; reflexivity.
  - rewrite mm_get_set_other; [reflexivity|].
    intros ->; rewrite desc_eqb_refl in E; discriminate.
Qed.

Lemma nonempty_entries_get m k l :
  nonempty_entries m -> mm_get m k = Some l -> l <> [].
Proof.
  intros H E; apply (H k).
  exact (@DictFacts.get_In _ _ _ desc_eqb_spec _ _ _ E).
Qed.

Lemma nonempty_entries_set m k v :
  nonempty_entries m -> v <> [] -> nonempty_entries (mm_set m k v).
Proof.
  intros H Hv k' l Hin.
  apply (@DictFacts.In_set _ _ _ desc_eqb_spec) in Hin.
  destruct Hin as [Hin|[_ ->]]; [exact (H _ _ Hin) | exact Hv].
Qed.

(** ** Tree Scanner *)

Lemma record_match_set used key occ :
  record_match used key occ = mm_set used key (occurrences used key ++ [occ]).
Proof. exact (setdefault_extend used key [occ]). Qed.

(** Whatever [record_match] preserves, the whole scan preserves. *)
Section ScanPreserves.

Variable P : MatchMap -> Prop.
Hypothesis P_record : forall used key occ, P used -> P (record_match used key occ).

Lemma scan_line_preserves patterns fp pn i line used :
  P used -> P (scan_line patterns fp pn i line used).
Proof.
  unfold scan_line; revert used.
  induction patterns as [|[key pattern] patterns IH]; simpl; intros used H.
  - exact H.
  - apply IH; destruct (Re.search pattern line); auto.
Qed.

Lemma scan_lines_preserves patterns fp pn lines : forall i used,
  P used -> P (scan_lines patterns fp pn i lines used).
Proof.
  induction lines as [|line lines IH]; simpl; intros i used H.
  - exact H.
  - apply IH, scan_line_preserves, H.
Qed.

Lemma scan_file_preserves os patterns pn st fp :
  P (fst st) -> P (fst (scan_file os patterns pn st fp)).
Proof.
  destruct st as [used ws]; simpl; intros H.
  destruct (read_lines os fp); simpl; apply scan_lines_preserves, H.
Qed.

Lemma scan_dir_preserves os patterns pn entry : forall st,
  P (fst st) -> P (fst (scan_dir os patterns pn st entry)).
Proof.
  destruct entry as [root files]; unfold scan_dir.
  induction files as [|file files IH]; cbn [fold_left]; intros st H.
  - exact H.
  - apply IH; destruct (endswith_any file source_extensions);
      [apply scan_file_preserves|]; exact H.
Qed.

Lemma walk_preserves os patterns pn entries : forall st,
  P (fst st) -> P (fst (fold_left (scan_dir os patterns pn) entries st)).
Proof.
  induction entries as [|entry entries IH]; simpl; intros st H.
  - exact H.
  - apply IH, scan_dir_preserves, H.
Qed.

Lemma find_endpoints_in_code_preserves os dir endpoints used ws :
  P [] ->
  find_endpoints_in_code os dir endpoints = Ok (used, ws) -> P used.
Proof.
  unfold find_endpoints_in_code; intros H0 H.
  destruct (compile_endpoints endpoints) as [patterns|e]; simpl in H;
    [|discriminate].
  injection H as H.
  change used with (fst (used, ws)); rewrite <- H.
  apply walk_preserves; exact H0.
Qed.

End ScanPreserves.

Lemma record_match_nonempty used key occ :
  nonempty_entries used -> nonempty_entries (record_match used key occ).
Proof.
  intros H; rewrite record_match_set; apply nonempty_entries_set; [exact H|].
  destruct (occurrences used key); discriminate.
Qed.

Lemma record_match_wf used key occ :
  Dict.wf used -> Dict.wf (record_match used key occ).
Proof. intros H; rewrite record_match_set; apply mm_wf_set, H. Qed.

Lemma nonempty_entries_nil : nonempty_entries [].
Proof. intros k l []. Qed.

Lemma wf_nil : Dict.wf (K := descriptor) (V := list occurrence) [].
Proof. constructor. Qed.

(** The scanner returns a well-formed dictionary without empty entries. *)
Lemma find_endpoints_in_code_nonempty os dir endpoints used ws :
  find_endpoints_in_code os dir endpoints = Ok (used, ws) ->
  nonempty_entries used.
Proof.
  apply (@find_endpoints_in_code_preserves _ record_match_nonempty),
    nonempty_entries_nil.
Qed.

Lemma find_endpoints_in_code_wf os dir endpoints used ws :
  find_endpoints_in_code os dir endpoints = Ok (used, ws) -> Dict.wf used.
Proof.
  apply (@find_endpoints_in_code_preserves _ record_match_wf), wf_nil.
Qed.

(** ** Aggregator *)

Lemma merge_into_steps used_map partial_used :
  merge_into used_map partial_used = fold_left merge_step partial_used used_map.
Proof.
  unfold merge_into; revert used_map.
  induction partial_used as [|[key val] p IH]; simpl; intros used_map.
  - reflexivity.
  - rewrite <- IH; f_equal; exact (setdefault_extend used_map key val).
Qed.

Lemma occurrences_unbound (m : MatchMap) k :
  ~ In k (Dict.keys m) -> occurrences m k = [].
Proof.
  intros H; unfold occurrences, mm_get.
  apply (@DictFacts.get_None _ (list occurrence) _ desc_eqb_spec) in H.
  rewrite H; reflexivity.
Qed.

Lemma occurrences_cons k0 v (m : MatchMap) k :
  occurrences ((k0, v) :: m) k = if desc_eqb k0 k then v else occurrences m k.
Proof. unfold occurrences, mm_get; simpl; destruct (desc_eqb k0 k); reflexivity. Qed.

Lemma mm_mem_cons k0 v (m : MatchMap) k :
  mm_mem ((k0, v) :: m) k = desc_eqb k0 k || mm_mem m k.
Proof. unfold mm_mem, Dict.mem; simpl; destruct (desc_eqb k0 k); reflexivity. Qed.

(** Merging one per-project result appends, for every key, that result's
    occurrence list. *)
Lemma merge_into_occurrences partial_used : forall used_map k,
  Dict.wf partial_used ->
  occurrences (merge_into used_map partial_used) k =
  occurrences used_map k ++ occurrences partial_used k.
Proof.
  intros used_map k; rewrite merge_into_steps; revert used_map.
  induction partial_used as [|[key val] p IH]; simpl; intros used_map Hwf.
  - unfold occurrences at 3; simpl; rewrite app_nil_r; reflexivity.
  - inversion Hwf as [|? ? Hnotin Hwf']; subst.
    rewrite IH by exact Hwf'.
    unfold merge_step; simpl; rewrite occurrences_set, occurrences_cons.
    destruct (desc_eqb key k) eqn:E.
    + apply desc_eqb_spec in E; subst k.
      rewrite (@occurrences_unbound p key Hnotin), app_nil_r; reflexivity.
    + reflexivity.
Qed.

Lemma merge_into_mem partial_used : forall used_map k,
  mm_mem (merge_into used_map partial_used) k =
  mm_mem used_map k || mm_mem partial_used k.
Proof.
  intros used_map k; rewrite merge_into_steps; revert used_map.
  induction partial_used as [|[key val] p IH]; simpl; intros used_map.
  - rewrite orb_false_r; reflexivity.
  - rewrite IH; unfold merge_step; simpl fst; rewrite mm_mem_set, mm_mem_cons.
    destruct (desc_eqb key k), (mm_mem used_map k), (mm_mem p k); reflexivity.
Qed.

Lemma merge_into_wf partial_used : forall used_map,
  Dict.wf used_map -> Dict.wf (merge_into used_map partial_used).
Proof.
  intros used_map; rewrite merge_into_steps; revert used_map.
  induction partial_used as [|[key val] p IH]; simpl; intros used_map H.
  - exact H.
  - apply IH, mm_wf_set, H.
Qed.

Lemma merge_into_nonempty partial_used : forall used_map,
  nonempty_entries used_map -> nonempty_entries partial_used ->
  nonempty_entries (merge_into used_map partial_used).
Proof.
  intros used_map; rewrite merge_into_steps; revert used_map.
  induction partial_used as [|[key val] p IH]; simpl; intros used_map H Hp.
  - exact H.
  - apply IH.
    + apply nonempty_entries_set; [exact H|].
      simpl; intros Heq; apply app_eq_nil in Heq; destruct Heq as [_ Heq].
      exact (Hp key val (or_introl eq_refl) Heq).
    + intros k l Hin; apply (Hp k l); right; exact Hin.
Qed.

Lemma fold_merge_occurrences partials : forall used_map k,
  Forall (@Dict.wf _ _) partials ->
  occurrences (fold_left merge_into partials used_map) k =
  occurrences used_map k ++ List.concat (List.map (fun p => occurrences p k) partials).
Proof.
  induction partials as [|p partials IH]; simpl; intros used_map k H.
  - rewrite app_nil_r; reflexivity.
  - inversion H; subst.
    rewrite IH, merge_into_occurrences, app_assoc by assumption; reflexivity.
Qed.

Lemma fold_merge_mem partials : forall used_map k,
  mm_mem (fold_left merge_into partials used_map) k =
  mm_mem used_map k || existsb (fun p => mm_mem p k) partials.
Proof.
  induction partials as [|p partials IH]; simpl; intros used_map k.
  - rewrite orb_false_r; reflexivity.
  - rewrite IH, merge_into_mem, orb_assoc; reflexivity.
Qed.

(** The merge loop of the main script computes [aggregate] of the maps the
    scanner returned, project by project. *)
Lemma scan_projects_from os endpoints dirs : forall used_map warnings used ws,
  foldM (fun '(used_map, warnings) pdir =>
           r <- find_endpoints_in_code os pdir endpoints ;;
           Ok (merge_into used_map (fst r), warnings ++ snd r))
        (used_map, warnings) dirs = Ok (used, ws) ->
  exists results,
    Forall2 (fun dir r => find_endpoints_in_code os dir endpoints = Ok r)
            dirs results /\
    used = fold_left merge_into (List.map fst results) used_map /\
    ws = warnings ++ List.concat (List.map snd results).
Proof.
  induction dirs as [|dir dirs IH]; simpl; intros used_map warnings used ws H.
  - injection H as <- <-; exists []; simpl.
    rewrite app_nil_r; repeat split; constructor.
  - destruct (find_endpoints_in_code os dir endpoints) as [r|e] eqn:E;
      simpl in H; [|discriminate].
    destruct (IH _ _ _ _ H) as (results & HF & -> & ->).
    exists (r :: results); simpl; rewrite app_assoc.
    repeat split; constructor; assumption.
Qed.

Lemma scan_projects_aggregate os endpoints dirs used ws :
  scan_projects os endpoints dirs = Ok (used, ws) ->
  exists results,
    Forall2 (fun dir r => find_endpoints_in_code os dir endpoints = Ok r)
            dirs results /\
    used = aggregate (List.map fst results) /\
    ws = List.concat (List.map snd results).
Proof. intros H; exact (scan_projects_from _ _ _ _ _ H). Qed.

Lemma fold_merge_scanned results : forall used_map,
  scanned used_map ->
  Forall (fun r : MatchMap * list warning => scanned (fst r)) results ->
  scanned (fold_left merge_into (List.map fst results) used_map).
Proof.
  induction results as [|r results IH]; simpl; intros used_map H HF.
  - exact H.
  - inversion HF; subst; apply IH; [apply scanned_merge|]; assumption.
Qed.

Lemma scan_projects_scanned os endpoints dirs used ws :
  scan_projects os endpoints dirs = Ok (used, ws) -> scanned used.
Proof.
  intros H; destruct (scan_projects_aggregate _ _ _ H) as (results & HF & -> & _).
  apply fold_merge_scanned; [apply scanned_empty|].
  clear H; induction HF as [|dir [u w] dirs results Hr HF IH]; constructor.
  - simpl; eapply scanned_tree; exact Hr.
  - exact IH.
Qed.

Lemma scanned_nonempty m : scanned m -> nonempty_entries m.
Proof.
  induction 1 as [os dir endpoints used ws H| |um pu _ IH1 _ IH2].
  - exact (find_endpoints_in_code_nonempty _ _ _ H).
  - exact nonempty_entries_nil.
  - apply merge_into_nonempty; assumption.
Qed.

Lemma scanned_wf m : scanned m -> Dict.wf m.
Proof.
  induction 1 as [os dir endpoints used ws H| |um pu _ IH1 _ IH2].
  - exact (find_endpoints_in_code_wf _ _ _ H).
  - exact wf_nil.
  - apply merge_into_wf; assumption.
Qed.

(** C6. For every sequence of per-project results (dictionaries, one item
    per key), the aggregated map binds each key to the concatenation, in
    project order, of the key's per-project occurrence lists, and a key is
    bound exactly when some project binds it. *)
Theorem aggregate_concatenates (partials : list MatchMap) (key : descriptor) :
  Forall (@Dict.wf _ _) partials ->
  occurrences (aggregate partials) key =
    List.concat (List.map (fun p => occurrences p key) partials) /\
  mm_mem (aggregate partials) key = existsb (fun p => mm_mem p key) partials.
Proof.
  intros H; unfold aggregate; split.
  - rewrite fold_merge_occurrences by exact H; reflexivity.
  - rewrite fold_merge_mem; reflexivity.
Qed.

(** The same for the loop of the main script over the project roots. *)
Corollary scan_projects_concatenates os endpoints dirs used ws key :
  scan_projects os endpoints dirs = Ok (used, ws) ->
  exists results,
    Forall2 (fun dir r => find_endpoints_in_code os dir endpoints = Ok r)
            dirs results /\
    occurrences used key =
      List.concat (List.map (fun r => occurrences (fst r) key) results).
Proof.
  intros H; destruct (scan_projects_aggregate _ _ _ H) as (results & HF & -> & _).
  exists results; split; [exact HF|].
  unfold aggregate; rewrite fold_merge_occurrences, map_map; [reflexivity|].
  clear H; induction HF as [|dir [u w] dirs results Hr HF IH]; simpl;
    constructor; [exact (find_endpoints_in_code_wf _ _ _ Hr) | exact IH].
Qed.

(** C7. Every map returned by the Tree Scanner and every map built by the
    merge loop binds each of its keys to a non-empty occurrence list. *)
Theorem matchmap_has_no_empty_entry (m : MatchMap) :
  scanned m ->
  nonempty_entries m /\
  forall key occs, mm_get m key = Some occs -> occs <> [].
Proof.
  intros H; pose proof (scanned_nonempty H) as Hne; split; [exact Hne|].
  intros key occs E; exact (@nonempty_entries_get m key occs Hne E).
Qed.

(** ** One record per line *)

Lemma compile_endpoints_keys endpoints : forall patterns,
  compile_endpoints endpoints = Ok patterns -> List.map fst patterns = endpoints.
Proof.
  induction endpoints as [|[ep method] endpoints IH]; simpl; intros patterns H.
  - injection H as <-; reflexivity.
  - destruct (endpoint_to_regex ep) as [p|]; [|discriminate].
    destruct (compile_endpoints endpoints) as [rest|e]; simpl in H;
      [|discriminate].
    injection H as <-; simpl; rewrite (IH rest eq_refl); reflexivity.
Qed.

(** One line: every entry of [endpoint_patterns] that carries the key and
    whose pattern is found in the line appends one record. *)
Lemma scan_line_occurrences patterns fp pn i line : forall used key,
  occurrences (scan_line patterns fp pn i line used) key =
  occurrences used key
    ++ repeat (fp, i, pn) (List.length (filter (hit key line) patterns)).
Proof.
  unfold scan_line.
  induction patterns as [|[k p] patterns IH]; cbn [fold_left filter];
    intros used key.
  - rewrite app_nil_r; reflexivity.
  - rewrite IH; unfold hit at 2; cbn [fst snd].
    destruct (Re.search p line).
    + rewrite record_match_set, occurrences_set.
      destruct (desc_eqb k key) eqn:E; cbn [andb length repeat].
      * apply desc_eqb_spec in E; subst k.
        rewrite <- app_assoc; reflexivity.
      * reflexivity.
    + rewrite andb_false_r; reflexivity.
Qed.

Lemma filter_hit_unbound key line patterns :
  ~ In key (List.map fst patterns) -> filter (hit key line) patterns = [].
Proof.
  induction patterns as [|[k p] patterns IH]; simpl; intros H; [reflexivity|].
  unfold hit at 1; simpl.
  rewrite desc_eqb_neq by (intros ->; apply H; auto).
  apply IH; tauto.
Qed.

Lemma filter_hit_unique key line patterns :
  NoDup (List.map fst patterns) ->
  List.length (filter (hit key line) patterns) =
  if existsb (hit key line) patterns then 1 else 0.
Proof.
  induction patterns as [|[k p] patterns IH]; simpl; intros H; [reflexivity|].
  inversion H as [|? ? Hnotin H']; subst.
  destruct (hit key line (k, p)) eqn:E; simpl.
  - unfold hit in E; simpl in E; apply andb_true_iff in E; destruct E as [E _].
    apply desc_eqb_spec in E; subst k.
    rewrite (@filter_hit_unbound key line patterns Hnotin); reflexivity.
  - exact (IH H').
Qed.

Lemma scan_lines_occurrences patterns fp pn key :
  NoDup (List.map fst patterns) ->
  forall lines i used,
    occurrences (scan_lines patterns fp pn i lines used) key =
    occurrences used key
      ++ List.map (fun j => (fp, j, pn)) (matching_lines patterns key i lines).
Proof.
  intros Hk; induction lines as [|line lines IH]; simpl; intros i used.
  - rewrite app_nil_r; reflexivity.
  - rewrite IH, scan_line_occurrences, filter_hit_unique by exact Hk.
    rewrite map_app, <- app_assoc.
    destruct (existsb (hit key line) patterns); reflexivity.
Qed.

Lemma matching_lines_bounds patterns key lines : forall i j,
  In j (matching_lines patterns key i lines) ->
  i <= j < i + List.length lines.
Proof.
  induction lines as [|line lines IH]; simpl; intros i j H; [contradiction|].
  apply in_app_or in H; destruct H as [H|H].
  - destruct (existsb (hit key line) patterns); [|contradiction].
    destruct H as [<-|[]]; lia.
  - apply IH in H; lia.
Qed.

Lemma matching_lines_NoDup patterns key lines : forall i,
  NoDup (matching_lines patterns key i lines).
Proof.
  induction lines as [|line lines IH]; simpl; intros i; [constructor|].
  destruct (existsb (hit key line) patterns); simpl; [|apply IH].
  constructor; [|apply IH].
  intros H; apply matching_lines_bounds in H; lia.
Qed.

Lemma NoDup_map_injective {A B : Type} (f : A -> B) (l : list A) :
  (forall x y, f x = f y -> x = y) -> NoDup l -> NoDup (List.map f l).
Proof.
  intros Hf; induction 1 as [|x l Hx _ IH]; simpl; constructor; [|exact IH].
  intros H; apply in_map_iff in H; destruct H as (y & Hy & Hin).
  apply Hf in Hy; subst y; contradiction.
Qed.

(** C10, amended.  For a descriptor list without repeated (path, method)
    pairs, one pass over a file's lines appends, to the list of each
    descriptor, one occurrence per line in which the descriptor's pattern
    is found, however many times it is found there: the appended records
    carry pairwise distinct line numbers, so none is repeated. *)
Theorem one_record_per_descriptor_and_line
        (endpoints : list descriptor) (patterns : list compiled)
        (file_path project_name : str) (lines : list str)
        (used : MatchMap) (key : descriptor) :
  NoDup endpoints ->
  compile_endpoints endpoints = Ok patterns ->
  let added :=
    List.map (fun j => (file_path, j, project_name))
             (matching_lines patterns key 1 lines) in
  occurrences (scan_lines patterns file_path project_name 1 lines used) key =
    occurrences used key ++ added /\
  NoDup added /\
  forall occ, In occ added ->
    exists j, occ = (file_path, j, project_name) /\ 1 <= j <= List.length lines.
Proof.
  intros Hnd Hc added; subst added.
  apply compile_endpoints_keys in Hc.
  split; [|split].
  - apply scan_lines_occurrences; rewrite Hc; exact Hnd.
  - apply NoDup_map_injective; [|apply matching_lines_NoDup].
    intros x y H; injection H; auto.
  - intros occ H; apply in_map_iff in H; destruct H as (j & <- & Hj).
    exists j; split; [reflexivity|].
    apply matching_lines_bounds in Hj; lia.
Qed.

(** ** Report Builder *)

Lemma fold_left_snoc_map {A B : Type} (f : A -> B) (l : list A) : forall acc,
  fold_left (fun rows d => rows ++ [f d]) l acc = acc ++ List.map f l.
Proof.
  induction l as [|x l IH]; simpl; intros acc.
  - rewrite app_nil_r; reflexivity.
  - rewrite IH, <- app_assoc; reflexivity.
Qed.

Lemma report_rows_map endpoints used :
  report_rows endpoints used = List.map (make_row used) endpoints.
Proof. unfold report_rows; rewrite fold_left_snoc_map; reflexivity. Qed.

Lemma make_row_key used d : row_key (make_row used d) = d.
Proof.
  destruct d as [ep m]; unfold make_row.
  destruct (mm_get used (ep, m)); reflexivity.
Qed.

Lemma make_row_status used d :
  status (make_row used d) =
  if mm_mem used d then py "used" else py "unused".
Proof.
  destruct d as [ep m]; unfold make_row, mm_mem, Dict.mem.
  fold (mm_get used (ep, m)); destruct (mm_get used (ep, m)); reflexivity.
Qed.



(** ** Spec Loader *)

Lemma plain_endpoints_filter_map lines :
  plain_endpoints lines =
  List.map (fun line => (strip line, []))
           (filter (fun line => truthy (strip line)) lines).
Proof.
  induction lines as [|line lines IH]; simpl; [reflexivity|].
  destruct (truthy (strip line)); simpl; rewrite IH; reflexivity.
Qed.

(** The plain-text case, as the comprehension computes it *)
Lemma plain_list_comprehension
      (json_load yaml_safe_load : list byte -> result value)
      (endpoint_file : UploadedFile) (content : str) :
  endswith (name endpoint_file) (py ".json") = false ->
  endswith_any (name endpoint_file) [py ".yaml"; py ".yml"] = false ->
  decode_utf8 (data endpoint_file) = Ok content ->
  load_endpoints json_load yaml_safe_load endpoint_file =
  Ok (List.map (fun line => (strip line, []))
               (filter (fun line => truthy (strip line)) (splitlines content))).
Proof.
  intros Hj Hy Hd; unfold load_endpoints.
  rewrite Hj, Hy, Hd; simpl; rewrite plain_endpoints_filter_map; reflexivity.
Qed.

(** Every descriptor of a plain list has a non-empty path and no method. *)
Lemma plain_endpoints_shape lines d :
  In d (plain_endpoints lines) -> fst d <> [] /\ snd d = [].
Proof.
  rewrite plain_endpoints_filter_map, in_map_iff.
  intros (line & <- & H); apply filter_In in H; destruct H as [_ H]; simpl.
  split; [|reflexivity].
  destruct (strip line); [discriminate H | discriminate].
Qed.

(** C8. When the parser of the format rejects the document, loading
    raises the parser's exception: no descriptor list is returned, and the
    run stops there with the same exception. *)
Theorem malformed_document_is_fatal
        (json_load yaml_safe_load : list byte -> result value)
        (os : OS) (endpoint_file : UploadedFile) (project_dirs_input : str)
        (e : exn) :
  (endswith (name endpoint_file) (py ".json") = true /\
   json_load (data endpoint_file) = Raise e) \/
  (endswith (name endpoint_file) (py ".json") = false /\
   endswith_any (name endpoint_file) [py ".yaml"; py ".yml"] = true /\
   yaml_safe_load (data endpoint_file) = Raise e) ->
  load_endpoints json_load yaml_safe_load endpoint_file = Raise e /\
  run json_load yaml_safe_load os endpoint_file project_dirs_input = Raise e.
Proof.
  intros H; assert (HL : load_endpoints json_load yaml_safe_load endpoint_file
                         = Raise e).
  { unfold load_endpoints; destruct H as [[Hj Hp]|(Hj & Hy & Hp)].
    - rewrite Hj, Hp; reflexivity.
    - rewrite Hj, Hy, Hp; reflexivity. }
  split; [exact HL | unfold run; rewrite HL; reflexivity].
Qed.

(** C9. A structured document that parses to a mapping without the key
    [paths] loads as the empty descriptor list, which is also what a
    document with an empty [paths] mapping loads as. *)
Theorem missing_paths_loads_empty
        (json_load yaml_safe_load : list byte -> result value)
        (endpoint_file : UploadedFile) (items : list (str * value)) :
  (endswith (name endpoint_file) (py ".json") = true /\
   json_load (data endpoint_file) = Ok (VDict items)) \/
  (endswith (name endpoint_file) (py ".json") = false /\
   endswith_any (name endpoint_file) [py ".yaml"; py ".yml"] = true /\
   yaml_safe_load (data endpoint_file) = Ok (VDict items)) ->
  assoc (py "paths") items = None ->
  load_endpoints json_load yaml_safe_load endpoint_file = Ok [] /\
  openapi_endpoints (VDict ((py "paths", VDict []) :: items)) = Ok [].
Proof.
  intros H Hp; split; [|reflexivity].
  assert (HO : openapi_endpoints (VDict items) = Ok []).
  { unfold openapi_endpoints; cbn [py_get bind]; rewrite Hp; reflexivity. }
  unfold load_endpoints; destruct H as [[Hj Hl]|(Hj & Hy & Hl)].
  - rewrite Hj, Hl; exact HO.
  - rewrite Hj, Hy, Hl; exact HO.
Qed.

Example text_file_loads :
  load_endpoints Examples.rejecting_parser Examples.rejecting_parser
                 Examples.text_file =
  Ok [(py "/ping", []); (py "/users/{id}", [])].
Proof. vm_compute; reflexivity. Qed.

Example web_scan :
  find_endpoints_in_code Examples.web_os (py "web") [Examples.ping] =
  Ok (Examples.ping_map, []).
Proof. vm_compute; reflexivity. Qed.

Example two_projects_report :
  List.map projects
    (snd (export_to_csv [Examples.ping; Examples.orders]
            (aggregate [Examples.ping_map; Examples.app_map]))) =
  [py "app, web"; []].
Proof. vm_compute; reflexivity. Qed.



Example repeated_line_loads_twice :
  load_endpoints Examples.rejecting_parser Examples.rejecting_parser
                 MoreExamples.twice_file =
  Ok [Examples.ping; Examples.ping].
Proof. vm_compute; reflexivity. Qed.

Example repeated_descriptor_report :
  List.map (fun r => (endpoint r, status r))
           (snd (export_to_csv [Examples.ping; Examples.ping]
                               MoreExamples.ping_twice_map)) =
  [(py "/ping", py "used"); (py "/ping", py "used")].
Proof. vm_compute; reflexivity. Qed.

Lemma aggregate_concatenates_witness :
  occurrences (aggregate [Examples.ping_map; Examples.app_map]) Examples.ping =
    List.concat (List.map (fun p => occurrences p Examples.ping)
                          [Examples.ping_map; Examples.app_map]) /\
  mm_mem (aggregate [Examples.ping_map; Examples.app_map]) Examples.ping =
    existsb (fun p => mm_mem p Examples.ping)
            [Examples.ping_map; Examples.app_map].
Proof.
  apply aggregate_concatenates.
  repeat constructor; simpl; tauto.
Defined.

Lemma matchmap_has_no_empty_entry_witness :
  nonempty_entries Examples.ping_map /\
  forall key occs, mm_get Examples.ping_map key = Some occs -> occs <> [].
Proof.
  apply matchmap_has_no_empty_entry.
  apply scanned_tree
    with (os := Examples.web_os) (dir := py "web")
         (endpoints := [Examples.ping]) (ws := []).
  vm_compute; reflexivity.
Defined.

Lemma malformed_document_is_fatal_witness :
  load_endpoints Examples.rejecting_parser Examples.rejecting_parser
                 Examples.json_file =
    Raise (ParseError (py "Expecting value: line 1 column 1 (char 0)")) /\
  run Examples.rejecting_parser Examples.rejecting_parser Examples.web_os
      Examples.json_file (py "web") =
    Raise (ParseError (py "Expecting value: line 1 column 1 (char 0)")).
Proof.
  apply malformed_document_is_fatal.
  left; split; reflexivity.
Defined.

Lemma missing_paths_loads_empty_witness :
  load_endpoints Examples.info_only_parser Examples.rejecting_parser
                 Examples.json_file = Ok [] /\
  openapi_endpoints
    (VDict [(py "paths", VDict []); (py "openapi", VStr (py "3.0.0"))]) = Ok [].
Proof.
  apply (@missing_paths_loads_empty
           Examples.info_only_parser Examples.rejecting_parser
           Examples.json_file [(py "openapi", VStr (py "3.0.0"))]).
  - left; split; reflexivity.
  - reflexivity.
Defined.

Lemma one_record_per_descriptor_and_line_witness :
  let lines := [py "get('/ping'); get('/ping')" ++ [NL]; py "x" ++ [NL];
                py "post('/PING/')"] in
  let added :=
    List.map (fun j => (py "web/api.js", j, py "web"))
             (matching_lines Examples.ping_patterns Examples.ping 1 lines) in
  occurrences (scan_lines Examples.ping_patterns (py "web/api.js") (py "web")
                          1 lines []) Examples.ping =
    occurrences [] Examples.ping ++ added /\
  NoDup added /\
  forall occ, In occ added ->
    exists j, occ = (py "web/api.js", j, py "web") /\ 1 <= j <= List.length lines.
Proof.
  apply (@one_record_per_descriptor_and_line [Examples.ping]).
  - repeat constructor; simpl; tauto.
  - vm_compute; reflexivity.
Defined.

Example one_record_lines :
  matching_lines Examples.ping_patterns Examples.ping 1
    [py "get('/ping'); get('/ping')" ++ [NL]; py "x" ++ [NL];
     py "post('/PING/')"] = [1; 3].
Proof. vm_compute; reflexivity. Qed.

(** C10 as stated fails: with the descriptor [/ping] listed twice, one
    pass over a one-line file records the line twice for it. *)
Lemma repeated_descriptor_records_line_twice :
  ~ (forall (endpoints : list descriptor) (patterns : list compiled)
            (file_path project_name : str) (lines : list str)
            (used : MatchMap) (key : descriptor),
        compile_endpoints endpoints = Ok patterns ->
        exists added,
          occurrences (scan_lines patterns file_path project_name 1 lines used)
                      key = occurrences used key ++ added /\
          NoDup added).
Proof.
  intros H.
  destruct (H [Examples.ping; Examples.ping] Examples.ping_twice_patterns
              (py "web/api.js") (py "web") [py "fetch('/ping')"] []
              Examples.ping) as (added & E & ND).
  { vm_compute; reflexivity. }
  vm_compute in E; subst added.
  inversion ND as [|? ? Hin _]; apply Hin; left; reflexivity.
Qed.

Example repeated_descriptor_scan :
  find_endpoints_in_code Examples.web_os (py "web")
                         [Examples.ping; Examples.ping] =
  Ok ([(Examples.ping, [(py "web/api.js", 1, py "web");
                        (py "web/api.js", 1, py "web")])], []).
Proof. vm_compute; reflexivity. Qed.

(** ** The pattern of every template *)

Import Template.

Example items_example :
  items (py "/users/{id}/orders/{order_id}//") =
  List.map TChar (py "/users/") ++ [TParam] ++ List.map TChar (py "/orders/")
    ++ [TParam; TChar 47; TChar 47]%N.
Proof. reflexivity. Qed.

Example items_unclosed : items (py "/a/{id/") = List.map TChar (py "/a/{id/").
Proof. reflexivity. Qed.

Lemma search_from_fail_head ic r ma i x s :
  (forall k, Re.rmatch ic r i (x :: s) k = None) ->
  Re.search_from ic r ma i (x :: s) = Re.search_from ic r false (S i) s.
Proof. intros H; cbn [Re.search_from]; rewrite H; reflexivity. Qed.

Lemma search_from_lower_bound ic r s : forall ma i b e rest,
  Re.search_from ic r ma i s = Some (b, e, rest) -> i <= b.
Proof.
  induction s as [|x s IH]; intros ma i b e rest H; cbn [Re.search_from] in H.
  - destruct (Re.rmatch ic r i [] _) as [[? ?]|]; [|discriminate].
    injection H as <- _ _; lia.
  - destruct (Re.rmatch ic r i (x :: s) _) as [[? ?]|].
    + injection H as <- _ _; lia.
    + apply IH in H; lia.
Qed.

Lemma sub_loop_skip r repl ma i x s f :
  (forall k, Re.rmatch false r i (x :: s) k = None) ->
  Re.sub_loop (S f) r repl ma i (x :: s) =
  x :: Re.sub_loop (S f) r repl false (S i) s.
Proof.
  intros H; cbn [Re.sub_loop]; rewrite search_from_fail_head by exact H.
  destruct (Re.search_from false r false (S i) s) as [[[b e] rest]|] eqn:E;
    [|reflexivity].
  apply search_from_lower_bound in E.
  replace (b - i) with (S (b - S i)) by lia; reflexivity.
Qed.

Lemma sub_loop_hit r repl ma i s f e rest :
  Re.rmatch false r i s
            (fun j s' => if ma && (j =? i) then None else Some (j, s'))
  = Some (e, rest) ->
  Re.sub_loop (S f) r repl ma i s = repl ++ Re.sub_loop f r repl (e =? i) e rest.
Proof.
  intros H; cbn [Re.sub_loop].
  assert (E : Re.search_from false r ma i s = Some (i, e, rest)).
  { destruct s; cbn [Re.search_from]; rewrite H; reflexivity. }
  rewrite E, Nat.sub_diag; reflexivity.
Qed.

Lemma sub_loop_nil f r repl ma i :
  (forall k, Re.rmatch false r i [] k = None) ->
  Re.sub_loop f r repl ma i [] = [].
Proof.
  intros H; destruct f; cbn [Re.sub_loop Re.search_from]; [reflexivity|].
  rewrite H; reflexivity.
Qed.

(** *** Characters that [re.escape] touches *)

Lemma char_in_forallb (q : char -> bool) c l :
  char_in c l = true -> forallb q l = true -> q c = true.
Proof.
  unfold char_in; rewrite existsb_exists, forallb_forall.
  intros (x & Hin & E) H; apply N.eqb_eq in E; subst x; auto.
Qed.

Lemma special_not_ident c :
  char_in c Re.special_chars = true -> is_ident_char c = false.
Proof.
  intros H.
  apply negb_true_iff.
  exact (char_in_forallb (fun x => negb (is_ident_char x)) _ _ H eq_refl).
Qed.

Lemma ident_not_special c :
  is_ident_char c = true -> char_in c Re.special_chars = false.
Proof.
  intros H; destruct (char_in c Re.special_chars) eqn:E; [|reflexivity].
  rewrite (special_not_ident _ E) in H; discriminate.
Qed.

Lemma ident_start_char c : is_ident_start c = true -> is_ident_char c = true.
Proof.
  unfold is_ident_start, is_ident_char; cbn [Re.in_items existsb].
  rewrite !orb_false_r, !orb_true_iff; tauto.
Qed.

Lemma not_special_neq c d :
  char_in c Re.special_chars = false -> char_in d Re.special_chars = true ->
  (c =? d)%N = false.
Proof.
  intros Hc Hd; destruct (c =? d)%N eqn:E; [|reflexivity].
  apply N.eqb_eq in E; subst d; congruence.
Qed.

Lemma escape_app a b : Re.escape (a ++ b) = Re.escape a ++ Re.escape b.
Proof. apply flat_map_app. Qed.

Lemma escape_ident run :
  forallb is_ident_char run = true -> Re.escape run = run.
Proof.
  induction run as [|c run IH]; [reflexivity|]; cbn [forallb].
  intros H; apply andb_true_iff in H; destruct H as [Hc H].
  rewrite escape_cons, (ident_not_special _ Hc), (IH H); reflexivity.
Qed.

(** The escaped text starts with a backslash or with a character that
    [re.escape] leaves alone. *)
Lemma escape_head e :
  match Re.escape e with
  | [] => e = []
  | c :: _ => c = BSLASH \/ char_in c Re.special_chars = false
  end.
Proof.
  destruct e as [|c e]; [reflexivity|].
  rewrite escape_cons; destruct (char_in c Re.special_chars) eqn:E; cbn [app]; auto.
Qed.

Lemma span_spec p s :
  s = fst (span p s) ++ snd (span p s) /\
  forallb p (fst (span p s)) = true /\
  match snd (span p s) with c :: _ => p c = false | [] => True end.
Proof.
  induction s as [|c s IH]; cbn [span].
  - cbn; auto.
  - destruct (p c) eqn:E.
    + destruct (span p s) as [run rest]; cbn [fst snd] in *.
      destruct IH as (H1 & H2 & H3); repeat split;
        [rewrite H1 at 1; reflexivity
        | cbn [forallb]; rewrite E, H2; reflexivity
        | exact H3].
    + cbn [fst snd forallb app]; auto.
Qed.

(** *** The greedy loop over a character set *)

Lemma in_set_plain negate items c :
  Re.in_set negate items c = xorb negate (Re.in_items items c).
Proof. reflexivity. Qed.

Lemma star_span ic negate items k run rest : forall n i,
  forallb (Re.in_set negate items) run = true ->
  match rest with
  | c :: _ => Re.in_set negate items c = false
  | [] => True
  end ->
  (forall j c t, Re.in_set negate items c = true -> k j (c :: t) = None) ->
  List.length run <= n ->
  Re.star_loop (Re.rmatch ic (Re.In negate items)) k n i (run ++ rest) =
  k (i + List.length run) rest.
Proof.
  induction run as [|c run IH]; intros n i Hrun Hrest Hk Hn.
  - cbn [app List.length]; rewrite Nat.add_0_r.
    destruct n; cbn [Re.star_loop Re.rmatch]; [reflexivity|].
    destruct rest as [|d rest]; [reflexivity|].
    rewrite Hrest; reflexivity.
  - destruct n as [|n]; [cbn in Hn; lia|].
    cbn [forallb] in Hrun; apply andb_true_iff in Hrun; destruct Hrun as [Hc Hrun].
    cbn [Re.star_loop Re.rmatch app]; rewrite Hc.
    replace (S i =? i) with false by (symmetry; apply Nat.eqb_neq; lia).
    rewrite IH by (auto; cbn in Hn; lia).
    cbn [List.length]; rewrite Nat.add_succ_r; cbn [Nat.add].
    destruct (k (S (i + List.length run)) rest); [reflexivity|].
    rewrite Hk by exact Hc; reflexivity.
Qed.

(** *** The second substitution, seen on the template *)

Lemma skipn_param (c d : char) run r :
  skipn (2 + List.length run) (c :: run ++ d :: r) = r.
Proof.
  change (skipn (2 + List.length run) (c :: run ++ d :: r))
    with (skipn (S (List.length run)) (run ++ d :: r)).
  rewrite skipn_app, skipn_all2 by lia.
  replace (S (List.length run) - List.length run) with 1 by lia; reflexivity.
Qed.

Lemma param_len_spec s n :
  param_len s = Some n ->
  exists c run rest,
    s = c :: run ++ 125%N :: rest /\ is_ident_start c = true /\
    forallb is_ident_char run = true /\ n = 2 + List.length run /\
    skipn n s = rest.
Proof.
  destruct s as [|c s]; cbn [param_len]; [discriminate|].
  destruct (is_ident_start c) eqn:Es; [|discriminate].
  destruct (span_spec is_ident_char s) as (H1 & H2 & _).
  destruct (span is_ident_char s) as [run rest0]; cbn [fst snd] in *.
  destruct rest0 as [|d rest]; [discriminate|].
  destruct (d =? 125)%N eqn:Ed; [|discriminate].
  apply N.eqb_eq in Ed; subst d s; intros H; injection H as <-.
  exists c, run, rest; repeat split; auto.
  apply skipn_param.
Qed.

Lemma brace_match e' i k :
  Re.rmatch false brace_param_regex i (BSLASH :: 123%N :: Re.escape e') k =
  match param_len e' with
  | Some n => k (i + n + 3) (Re.escape (skipn n e'))
  | None => None
  end.
Proof.
  unfold brace_param_regex.
  rewrite rmatch_cat, rmatch_lit by reflexivity.
  rewrite rmatch_cat, rmatch_lit by reflexivity.
  destruct e' as [|c1 e1]; [reflexivity|].
  rewrite escape_cons, rmatch_cat; cbn [param_len].
  destruct (is_ident_start c1) eqn:Es.
  - rewrite (ident_not_special _ (ident_start_char _ Es)); cbn [app].
    rewrite rmatch_in by (rewrite in_set_plain; exact Es).
    rewrite rmatch_cat, rmatch_star.
    destruct (span_spec is_ident_char e1) as (H1 & H2 & H3).
    destruct (span is_ident_char e1) as [run rest] eqn:Esp; cbn [fst snd] in *.
    subst e1; rewrite escape_app, (escape_ident _ H2).
    rewrite star_span.
    + destruct rest as [|d r]; [reflexivity|].
      rewrite escape_cons.
      destruct (d =? 125)%N eqn:Ed.
      * apply N.eqb_eq in Ed; subst d; cbn [char_in existsb app].
        change (char_in 125%N Re.special_chars) with true; cbn [app].
        rewrite rmatch_cat, rmatch_lit by reflexivity.
        rewrite rmatch_lit by reflexivity.
        rewrite skipn_param; f_equal; lia.
      * destruct (char_in d Re.special_chars) eqn:E; cbn [app].
        -- rewrite rmatch_cat, rmatch_lit by reflexivity.
           cbn [Re.rmatch Re.lit_eq andb]; rewrite N.eqb_sym, Ed; reflexivity.
        -- cbn [Re.rmatch Re.lit_eq andb].
           rewrite N.eqb_sym, (not_special_neq d 92%N E eq_refl); reflexivity.
    + apply forallb_forall; intros c Hin; rewrite in_set_plain; cbn [xorb].
      exact (proj1 (forallb_forall _ _) H2 c Hin).
    + destruct rest as [|d r]; [exact I|].
      rewrite escape_cons.
      destruct (char_in d Re.special_chars); cbn [app]; rewrite in_set_plain;
        [reflexivity | exact H3].
    + intros j c t Hc; rewrite in_set_plain in Hc; cbn [xorb] in Hc.
      cbn [Re.rmatch Re.lit_eq andb].
      rewrite N.eqb_sym, (not_special_neq c 92%N (ident_not_special _ Hc) eq_refl).
      reflexivity.
    + rewrite length_app; lia.
  - destruct (char_in c1 Re.special_chars) eqn:E; cbn [app].
    + cbn [Re.rmatch]; reflexivity.
    + cbn [Re.rmatch]; rewrite in_set_plain; cbn [xorb].
      change (Re.in_items [(97, 122); (65, 90); (95, 95)]%N c1)
        with (is_ident_start c1).
      rewrite Es; reflexivity.
Qed.

Lemma brace_no_match_other c e' i k :
  (c =? 123)%N = false ->
  Re.rmatch false brace_param_regex i (Re.escape (c :: e')) k = None.
Proof.
  intros Hc; rewrite escape_cons; unfold brace_param_regex.
  destruct (char_in c Re.special_chars) eqn:E; cbn [app].
  - rewrite rmatch_cat, rmatch_lit by reflexivity.
    cbn [Re.rmatch Re.lit_eq andb]; rewrite N.eqb_sym, Hc; reflexivity.
  - cbn [Re.rmatch Re.lit_eq andb].
    rewrite N.eqb_sym, (not_special_neq c 92%N E eq_refl); reflexivity.
Qed.

Lemma brace_no_match_mid c e' i k :
  char_in c Re.special_chars = true ->
  Re.rmatch false brace_param_regex i (c :: Re.escape e') k = None.
Proof.
  intros Hc; unfold brace_param_regex; cbn [Re.rmatch Re.lit_eq andb].
  destruct (92 =? c)%N; [|reflexivity].
  pose proof (escape_head e') as H.
  destruct (Re.escape e') as [|d t]; [reflexivity|].
  destruct H as [->|H]; [reflexivity|].
  rewrite N.eqb_sym, (not_special_neq d 123%N H eq_refl); reflexivity.
Qed.

Lemma items_from_skipn n : forall s,
  items_from n s = items_from 0 (skipn n s).
Proof.
  induction n as [|n IH]; intros s; [reflexivity|].
  destruct s as [|c s]; [reflexivity|]; cbn [items_from skipn]; apply IH.
Qed.

Lemma escape_skipn_length n e :
  List.length (Re.escape (skipn n e)) <= List.length (Re.escape e).
Proof.
  rewrite <- (firstn_skipn n e) at 2; rewrite escape_app, length_app; lia.
Qed.

Lemma brace_regex_nil i k : Re.rmatch false brace_param_regex i [] k = None.
Proof. reflexivity. Qed.

(** On the escaped template, the substitution for [{name}] replaces the
    placeholders of the template and nothing else. *)
Lemma sub_brace_param_items : forall n e,
  List.length e <= n ->
  forall f i ma,
    List.length (Re.escape e) < f ->
    Re.sub_loop f brace_param_regex (py "[^/]+") ma i (Re.escape e) =
    render (items e).
Proof.
  unfold items.
  induction n as [|n IH]; intros e Hn f i ma Hf.
  - destruct e; [|cbn in Hn; lia].
    apply sub_loop_nil; intros k; reflexivity.
  - destruct e as [|c e']; [apply sub_loop_nil; intros k; reflexivity|].
    cbn [List.length] in Hn.
    destruct f as [|f]; [lia|].
    cbn [items_from].
    destruct (c =? 123)%N eqn:Ec.
    + apply N.eqb_eq in Ec; subst c.
      rewrite escape_cons; change (char_in 123%N Re.special_chars) with true.
      cbn [app].
      destruct (param_len e') as [m|] eqn:Ep.
      * rewrite (@sub_loop_hit _ _ ma i _ f (i + m + 3) (Re.escape (skipn m e'))).
        2:{ rewrite brace_match, Ep.
            replace (i + m + 3 =? i) with false
              by (symmetry; apply Nat.eqb_neq; lia).
            rewrite andb_false_r; reflexivity. }
        rewrite items_from_skipn.
        rewrite IH.
        -- reflexivity.
        -- rewrite length_skipn; lia.
        -- pose proof (escape_skipn_length m e').
           rewrite escape_cons in Hf; cbn [List.length app] in Hf.
           change (char_in 123%N Re.special_chars) with true in Hf.
           cbn [List.length app] in Hf; lia.
      * rewrite sub_loop_skip
          by (intros k; rewrite brace_match, Ep; reflexivity).
        rewrite sub_loop_skip
          by (intros k; apply brace_no_match_mid; reflexivity).
        rewrite IH; [reflexivity | lia |].
        rewrite escape_cons in Hf.
        change (char_in 123%N Re.special_chars) with true in Hf.
        cbn [List.length app] in Hf; lia.
    + pose proof (fun k => @brace_no_match_other c e' i k Ec) as Hno.
      rewrite escape_cons in Hno, Hf |- *.
      cbn [render flat_map render_item].
      destruct (char_in c Re.special_chars) eqn:E; cbn [app] in *.
      * rewrite sub_loop_skip by exact Hno.
        rewrite sub_loop_skip
          by (intros k; apply brace_no_match_mid; exact E).
        rewrite IH; [reflexivity | lia | cbn [List.length] in Hf; lia].
      * rewrite sub_loop_skip by exact Hno.
        rewrite IH; [reflexivity | lia | cbn [List.length] in Hf; lia].
Qed.

Lemma sub_brace_param e :
  Re.sub (py "\\{[a-zA-Z_][a-zA-Z0-9_]*\\}") (py "[^/]+") (Re.escape e) =
  Some (render (items e)).
Proof.
  unfold Re.sub.
  change (Re.parse (py "\\{[a-zA-Z_][a-zA-Z0-9_]*\\}"))
    with (Some brace_param_regex).
  cbv beta iota; f_equal.
  apply (@sub_brace_param_items (List.length e)); lia.
Qed.

(** *** Trailing slashes *)

Lemma rev_flat_map {A B : Type} (f : A -> list B) (l : list A) :
  rev (flat_map f l) = flat_map (fun x => rev (f x)) (rev l).
Proof.
  induction l as [|x l IH]; [reflexivity|]; cbn [flat_map rev].
  rewrite rev_app_distr, IH, flat_map_app; cbn [flat_map].
  rewrite app_nil_r; reflexivity.
Qed.

Lemma dropwhile_stop p c s : p c = false -> dropwhile p (c :: s) = c :: s.
Proof. intros H; cbn [dropwhile]; rewrite H; reflexivity. Qed.

Lemma slash_not_special : char_in 47%N Re.special_chars = false.
Proof. reflexivity. Qed.

Lemma dropwhile_rendered m :
  dropwhile (fun c => char_in c (py "/"))
            (flat_map (fun it => rev (render_item it)) m) =
  flat_map (fun it => rev (render_item it)) (drop_slashes m).
Proof.
  induction m as [|it m IH]; [reflexivity|].
  cbn [flat_map drop_slashes].
  destruct it as [c|]; cbn [is_slash render_item].
  - destruct (c =? 47)%N eqn:Ec.
    + apply N.eqb_eq in Ec; subst c; rewrite slash_not_special.
      cbn [rev app dropwhile]; exact IH.
    + cbn [flat_map render_item].
      destruct (char_in c Re.special_chars); cbn [rev app];
        (rewrite dropwhile_stop;
         [reflexivity | cbn; rewrite Ec; reflexivity]).
  - reflexivity.
Qed.

Lemma rstrip_rendered l :
  rstrip_chars (py "/") (render l) = render (rstrip_items l).
Proof.
  unfold rstrip_chars, render, rstrip_items.
  rewrite rev_flat_map, dropwhile_rendered, rev_flat_map.
  apply flat_map_ext; intros it; apply rev_involutive.
Qed.

(** The pattern text handed to [re.compile], for a template without a
    backslash right before a colon. *)
Lemma endpoint_pattern_rendered e :
  has_backslash_colon e = false ->
  endpoint_pattern e =
  Some (render (rstrip_items (items e)) ++ py "/?(\\?.*)?$").
Proof.
  intros H; unfold endpoint_pattern.
  rewrite colon_substitution_never_fires_fact by exact H.
  rewrite sub_brace_param, rstrip_rendered; reflexivity.
Qed.

(** *** Parsing the rendered pattern *)

Lemma rendered_starts_item l : starts_item (render l ++ py "/?(\\?.*)?$").
Proof.
  destruct l as [|[c|] l]; cbn [render flat_map render_item].
  - right; right; reflexivity.
  - destruct (char_in c Re.special_chars) eqn:E; cbn [app starts_item]; auto.
  - right; left; reflexivity.
Qed.

Lemma starts_item_tests c s :
  starts_item (c :: s) ->
  Re.is_repeat_char c = false /\ (c =? 123)%N = false /\
  (c =? 41)%N = false /\ (c =? 124)%N = false.
Proof.
  intros [->|[->|H]]; [repeat split; reflexivity ..|].
  unfold Re.is_repeat_char.
  rewrite (not_special_neq c 42%N H eq_refl), (not_special_neq c 43%N H eq_refl),
    (not_special_neq c 63%N H eq_refl), (not_special_neq c 123%N H eq_refl),
    (not_special_neq c 41%N H eq_refl), (not_special_neq c 124%N H eq_refl).
  repeat split; reflexivity.
Qed.

Lemma parse_quantifier_next r s :
  starts_item s -> Re.parse_quantifier r s = Some (r, s).
Proof.
  destruct s as [|c s]; [intros []|]; intros H.
  destruct (@starts_item_tests c s H) as (Hr & _).
  unfold Re.parse_quantifier; rewrite Hr; reflexivity.
Qed.

Lemma parse_quantifier_plus r s :
  starts_item s -> Re.repeatable r = true ->
  Re.parse_quantifier r (43%N :: s) = Some (Re.Plus r, s).
Proof.
  destruct s as [|c s]; [intros []|]; intros H Hrep.
  destruct (@starts_item_tests c s H) as (Hr & H123 & _).
  unfold Re.parse_quantifier.
  change (Re.is_repeat_char 43%N) with true; cbv beta iota.
  rewrite Hrep, Hr, H123; reflexivity.
Qed.

Lemma parse_atom_plain rec c s :
  char_in c Re.special_chars = false ->
  Re.parse_atom rec c s = Some (Re.Lit c, s).
Proof.
  intros H; unfold Re.parse_atom, Re.is_repeat_char, BSLASH.
  rewrite (not_special_neq c 92%N H eq_refl), (not_special_neq c 46%N H eq_refl),
    (not_special_neq c 94%N H eq_refl), (not_special_neq c 36%N H eq_refl),
    (not_special_neq c 91%N H eq_refl), (not_special_neq c 40%N H eq_refl),
    (not_special_neq c 42%N H eq_refl), (not_special_neq c 43%N H eq_refl),
    (not_special_neq c 63%N H eq_refl), (not_special_neq c 123%N H eq_refl).
  reflexivity.
Qed.

Lemma special_not_alnum c :
  char_in c Re.special_chars = true -> is_ascii_alnum c = false.
Proof.
  intros H; apply negb_true_iff.
  exact (char_in_forallb (fun x => negb (is_ascii_alnum x)) _ _ H eq_refl).
Qed.

Lemma parse_atom_escaped rec c s :
  char_in c Re.special_chars = true ->
  Re.parse_atom rec BSLASH (c :: s) = Some (Re.Lit c, s).
Proof.
  intros H; unfold Re.parse_atom.
  change (BSLASH =? BSLASH)%N with true; cbv beta iota.
  rewrite (special_not_alnum _ H); reflexivity.
Qed.

Lemma parse_atom_wildcard rec s :
  Re.parse_atom rec 91%N (py "^/]+" ++ s) =
  Some (Re.In true [(47, 47)]%N, 43%N :: s).
Proof. reflexivity. Qed.

Lemma cat_chain r l : Re.cat r (chain l suffix_regex) = Re.Cat r (chain l suffix_regex).
Proof. destruct l; reflexivity. Qed.

Lemma parse_suffix m :
  Re.parse_branches (10 + m) (py "/?(\\?.*)?$") = Some ([suffix_regex], []).
Proof. reflexivity. Qed.

Lemma parse_rendered l : forall fuel,
  10 <= fuel ->
  Re.parse_branches (List.length l + fuel) (render l ++ py "/?(\\?.*)?$") =
  Some ([chain l suffix_regex], []).
Proof.
  induction l as [|it l IH]; intros fuel Hf.
  - replace (List.length (@nil item) + fuel) with (10 + (fuel - 10))
      by (cbn [List.length]; lia).
    apply parse_suffix.
  - pose proof (rendered_starts_item l) as Hs.
    change (render (it :: l)) with (render_item it ++ render l).
    rewrite <- app_assoc.
    specialize (IH fuel Hf).
    set (R := render l ++ py "/?(\\?.*)?$") in *.
    change (List.length (it :: l) + fuel) with (S (List.length l + fuel)).
    set (F := List.length l + fuel) in *.
    cbn [chain fold_right]; fold (chain l suffix_regex).
    destruct it as [c|]; cbn [render_item regex_of].
    + destruct (char_in c Re.special_chars) eqn:E; cbn [app Re.parse_branches].
      * change (BSLASH =? 41)%N with false; change (BSLASH =? 124)%N with false.
        cbv beta iota.
        rewrite parse_atom_escaped by exact E.
        rewrite parse_quantifier_next by exact Hs.
        rewrite IH, cat_chain; reflexivity.
      * rewrite (not_special_neq c 41%N E eq_refl),
          (not_special_neq c 124%N E eq_refl).
        rewrite parse_atom_plain by exact E.
        rewrite parse_quantifier_next by exact Hs.
        rewrite IH, cat_chain; reflexivity.
    + change (py "[^/]+" ++ R) with (91%N :: (py "^/]+" ++ R)).
      cbn [Re.parse_branches].
      change (91 =? 41)%N with false; change (91 =? 124)%N with false.
      cbv beta iota.
      rewrite parse_atom_wildcard.
      rewrite parse_quantifier_plus by (auto; reflexivity).
      rewrite IH, cat_chain; reflexivity.
Qed.

Lemma render_length l : List.length l <= List.length (render l).
Proof.
  induction l as [|it l IH]; [reflexivity|].
  change (render (it :: l)) with (render_item it ++ render l).
  rewrite length_app; cbn [List.length].
  assert (1 <= List.length (render_item it)).
  { destruct it as [c|]; cbn [render_item];
      [destruct (char_in c Re.special_chars)|]; cbn; lia. }
  lia.
Qed.

(** The only character set of a template's pattern is [[^/]], and the
    slash is not cased. *)
Lemma chain_no_cased_set l :
  Re.has_cased_set (chain l suffix_regex) = false.
Proof.
  induction l as [|it l IH]; [vm_compute; reflexivity|].
  cbn [chain fold_right Re.has_cased_set]; fold (chain l suffix_regex).
  rewrite IH, orb_false_r.
  destruct it; [reflexivity | vm_compute; reflexivity].
Qed.

Lemma compile_rendered l :
  Re.compile (render l ++ py "/?(\\?.*)?$") true =
  Some (Re.mkPattern (chain l suffix_regex) true).
Proof.
  unfold Re.compile, Re.parse.
  pose proof (render_length l) as Hl.
  replace (S (List.length (render l ++ py "/?(\\?.*)?$")))
    with (List.length l + (10 + (List.length (render l) - List.length l + 2))).
  - rewrite parse_rendered by lia; cbn [Re.alts].
    rewrite chain_no_cased_set; reflexivity.
  - rewrite length_app.
    change (List.length (py "/?(\\?.*)?$")) with 11; lia.
Qed.

Lemma endpoint_to_regex_items_fact e :
  has_backslash_colon e = false ->
  endpoint_to_regex e =
  Some (Re.mkPattern (chain (rstrip_items (items e)) suffix_regex) true).
Proof.
  intros H; pose proof (endpoint_pattern_rendered e H) as Hp.
  unfold endpoint_pattern in Hp; unfold endpoint_to_regex.
  destruct (Re.sub (py "\\:([a-zA-Z_][a-zA-Z0-9_]*)") (py "[^/]+")
                   (Re.escape e)) as [p1|]; [|discriminate].
  destruct (Re.sub (py "\\{[a-zA-Z_][a-zA-Z0-9_]*\\}") (py "[^/]+") p1)
    as [p2|]; [|discriminate].
  injection Hp as ->; apply compile_rendered.
Qed.

(** X1. The matcher of a template without a backslash right before a colon:
    the items of the template without the trailing slashes, then the
    suffix, case-insensitive.  In particular [re.compile] accepts the
    pattern. *)
Theorem endpoint_to_regex_items e :
  has_backslash_colon e = false ->
  endpoint_to_regex e =
  Some (Re.mkPattern (chain (rstrip_items (items e)) suffix_regex) true).
Proof. exact (@endpoint_to_regex_items_fact e). Qed.

(** *** What the matcher of a template accepts *)

Section StarOverChars.

(** A loop body that consumes one character satisfying [p]. *)
Variable body : nat -> str -> Re.cont -> option (nat * str).
Variable p : char -> bool.
Hypothesis body_spec : forall i s k,
  body i s k =
  match s with
  | c :: s' => if p c then k (S i) s' else None
  | [] => None
  end.

Lemma star_runs k seg rest : forall n i,
  forallb p seg = true -> k (i + List.length seg) rest <> None ->
  List.length seg <= n ->
  Re.star_loop body k n i (seg ++ rest) <> None.
Proof.
  induction seg as [|c seg IH]; intros n i Hseg Hk Hn.
  - apply star_loop_skip; rewrite Nat.add_0_r in Hk; exact Hk.
  - destruct n as [|n]; [cbn in Hn; lia|].
    cbn [forallb] in Hseg; apply andb_true_iff in Hseg; destruct Hseg as [Hc Hseg].
    cbn [Re.star_loop app]; rewrite body_spec, Hc.
    replace (S i =? i) with false by (symmetry; apply Nat.eqb_neq; lia).
    assert (H : Re.star_loop body k n (S i) (seg ++ rest) <> None).
    { apply IH; [exact Hseg | | cbn in Hn; lia].
      cbn [List.length] in Hk; rewrite Nat.add_succ_r in Hk; exact Hk. }
    destruct (Re.star_loop body k n (S i) (seg ++ rest)); congruence.
Qed.

Lemma star_inv k : forall n i s,
  Re.star_loop body k n i s <> None ->
  exists seg rest,
    s = seg ++ rest /\ forallb p seg = true /\
    k (i + List.length seg) rest <> None.
Proof.
  induction n as [|n IH]; intros i s H; cbn [Re.star_loop] in H.
  - exists [], s; cbn; rewrite Nat.add_0_r; auto.
  - rewrite body_spec in H.
    destruct s as [|c s'].
    + exists [], []; cbn; rewrite Nat.add_0_r; auto.
    + destruct (p c) eqn:Ec.
      * replace (S i =? i) with false in H
          by (symmetry; apply Nat.eqb_neq; lia).
        destruct (Re.star_loop body k n (S i) s') eqn:E.
        -- destruct (IH (S i) s') as (seg & rest & -> & Hseg & Hk);
             [congruence|].
           exists (c :: seg), rest; cbn [app forallb List.length].
           rewrite Ec, Hseg, Nat.add_succ_r; auto.
        -- exists [], (c :: s'); cbn; rewrite Nat.add_0_r; auto.
      * exists [], (c :: s'); cbn; rewrite Nat.add_0_r; auto.
Qed.

End StarOverChars.

Lemma in_body_spec ic negate items i s k :
  Re.rmatch ic (Re.In negate items) i s k =
  match s with
  | c :: s' => if Re.in_set negate items c then k (S i) s' else None
  | [] => None
  end.
Proof. reflexivity. Qed.

Lemma any_body_spec ic i s k :
  Re.rmatch ic Re.AnyChar i s k =
  match s with
  | c :: s' => if negb (c =? NL)%N then k (S i) s' else None
  | [] => None
  end.
Proof. destruct s as [|c s']; cbn; [|destruct (c =? NL)%N]; reflexivity. Qed.

(** [[^/]] accepts every character but the slash. *)
Lemma in_set_not_slash c :
  Re.in_set true [(47, 47)]%N c = negb (c =? 47)%N.
Proof.
  unfold Re.in_set, Re.in_items; cbn [existsb xorb]; rewrite orb_false_r.
  destruct (N.eq_dec c 47) as [->|Hne]; [reflexivity|].
  rewrite (proj2 (N.eqb_neq c 47) Hne); cbn [negb].
  destruct (47 <=? c)%N eqn:E1, (c <=? 47)%N eqn:E2; try reflexivity.
  apply N.leb_le in E1, E2; lia.
Qed.

Lemma search_from_found ic r before rest : forall i,
  Re.rmatch ic r (i + List.length before) rest (fun j s' => Some (j, s'))
    <> None ->
  Re.search_from ic r false i (before ++ rest) <> None.
Proof.
  induction before as [|x before IH]; intros i H.
  - cbn [app List.length] in *; rewrite Nat.add_0_r in H.
    destruct rest; cbn [Re.search_from andb];
      destruct (Re.rmatch ic r i _ _) as [[? ?]|]; congruence.
  - cbn [app Re.search_from andb].
    destruct (Re.rmatch ic r i _ _) as [[? ?]|]; [congruence|].
    apply IH; cbn [List.length] in H; rewrite Nat.add_succ_r in H; exact H.
Qed.

Lemma search_from_inv ic r s : forall i,
  Re.search_from ic r false i s <> None ->
  exists before rest,
    s = before ++ rest /\
    Re.rmatch ic r (i + List.length before) rest (fun j s' => Some (j, s'))
      <> None.
Proof.
  induction s as [|x s IH]; intros i H; cbn [Re.search_from andb] in H.
  - exists [], []; cbn [app List.length]; rewrite Nat.add_0_r; split; [reflexivity|].
    destruct (Re.rmatch ic r i [] _) as [[? ?]|]; congruence.
  - destruct (Re.rmatch ic r i (x :: s) (fun j s' => Some (j, s'))) eqn:E.
    + exists [], (x :: s); cbn [app List.length]; rewrite Nat.add_0_r.
      split; [reflexivity | congruence].
    + destruct (IH (S i)) as (before & rest & -> & Hm).
      { destruct (Re.rmatch ic r i (x :: s) _) as [[? ?]|]; congruence. }
      exists (x :: before), rest; cbn [app List.length].
      rewrite Nat.add_succ_r; auto.
Qed.

Lemma opt_inv ic r i s k :
  Re.rmatch ic (Re.Opt r) i s k <> None ->
  Re.rmatch ic r i s k <> None \/ k i s <> None.
Proof.
  rewrite rmatch_opt; destruct (Re.rmatch ic r i s k); [left; congruence | auto].
Qed.

Lemma lit_inv ic a i s k :
  Re.rmatch ic (Re.Lit a) i s k <> None ->
  exists c s', s = c :: s' /\ Re.lit_eq ic a c = true /\ k (S i) s' <> None.
Proof.
  destruct s as [|c s']; cbn [Re.rmatch]; [congruence|].
  destruct (Re.lit_eq ic a c) eqn:E; [|congruence].
  intros H; exists c, s'; auto.
Qed.

Lemma eol_inv ic i s k :
  Re.rmatch ic Re.Eol i s k <> None -> line_end s /\ k i s <> None.
Proof.
  unfold line_end; destruct s as [|c [|d s']]; cbn [Re.rmatch]; auto.
  - destruct (c =? NL)%N eqn:E; [|congruence].
    apply N.eqb_eq in E; subst c; auto.
  - congruence.
Qed.

Lemma lit_eq_47_not_nl ic c : Re.lit_eq ic 47%N c = true -> (c =? NL)%N = false.
Proof.
  intros H; destruct (c =? NL)%N eqn:E; [|reflexivity].
  apply N.eqb_eq in E; subst c; destruct ic; vm_compute in H; discriminate.
Qed.

Lemma lit_eq_92_not_nl ic c : Re.lit_eq ic 92%N c = true -> (c =? NL)%N = false.
Proof.
  intros H; destruct (c =? NL)%N eqn:E; [|reflexivity].
  apply N.eqb_eq in E; subst c; destruct ic; vm_compute in H; discriminate.
Qed.

Lemma char_in_In c l : char_in c l = true <-> In c l.
Proof.
  unfold char_in; rewrite existsb_exists; split.
  - intros (x & Hin & E); apply N.eqb_eq in E; subst x; exact Hin.
  - intros Hin; exists c; split; [exact Hin | apply N.eqb_refl].
Qed.

(** The engine's comparison of a literal under [re.IGNORECASE] *)
Lemma lit_eq_same_letter c c' :
  Re.lit_eq true c c' = true <-> same_letter c c'.
Proof.
  unfold Re.lit_eq, same_letter; cbn [andb].
  destruct (Re.unicode_iscased c).
  - apply char_in_In.
  - rewrite N.eqb_eq; split; intros H; symmetry; exact H.
Qed.

(** The suffix accepts exactly the texts without a newline before the end
    of the line. *)
Lemma suffix_inv ic i s k :
  Re.rmatch ic suffix_regex i s k <> None ->
  exists tail e j,
    s = tail ++ e /\ newline_free tail = true /\ line_end e /\ k j e <> None.
Proof.
  assert (A : forall j s',
    Re.rmatch ic (Re.Cat (Re.Opt (Re.Group (Re.Cat (Re.Opt (Re.Lit 92%N))
                                              (Re.Star Re.AnyChar))))
                         Re.Eol) j s' k <> None ->
    exists tail e j', s' = tail ++ e /\ newline_free tail = true /\
                      line_end e /\ k j' e <> None).
  { intros j s' H; rewrite rmatch_cat in H.
    assert (S : forall j3 s3,
      Re.rmatch ic (Re.Star Re.AnyChar) j3 s3
                (fun j2 s2 => Re.rmatch ic Re.Eol j2 s2 k) <> None ->
      exists tail e j', s3 = tail ++ e /\ newline_free tail = true /\
                        line_end e /\ k j' e <> None).
    { intros j3 s3 Hs; rewrite rmatch_star in Hs.
      apply (@star_inv _ _ (any_body_spec ic)) in Hs.
      destruct Hs as (seg & rest & -> & Hseg & Hk).
      apply eol_inv in Hk; destruct Hk as [He Hk].
      exists seg, rest, (j3 + List.length seg); auto. }
    apply opt_inv in H; destruct H as [H|H].
    - rewrite rmatch_group, rmatch_cat in H.
      apply opt_inv in H; destruct H as [H|H].
      + apply lit_inv in H; destruct H as (c & s3 & -> & Hc & H).
        destruct (S _ _ H) as (tail & e & j' & -> & Hnf & He & Hk).
        exists (c :: tail), e, j'; repeat split; auto.
        cbn [newline_free forallb]; rewrite (lit_eq_92_not_nl _ _ Hc); exact Hnf.
      + exact (S _ _ H).
    - apply eol_inv in H; destruct H as [He Hk].
      exists [], s', j; auto. }
  unfold suffix_regex; rewrite rmatch_cat; intros H.
  apply opt_inv in H; destruct H as [H|H].
  - apply lit_inv in H; destruct H as (c & s' & -> & Hc & H).
    destruct (A _ _ H) as (tail & e & j' & -> & Hnf & He & Hk).
    exists (c :: tail), e, j'; repeat split; auto.
    cbn [newline_free forallb]; rewrite (lit_eq_47_not_nl _ _ Hc); exact Hnf.
  - exact (A _ _ H).
Qed.

Lemma chain_accepts l text :
  instantiates l text ->
  forall tail_regex rest k i,
    (forall j, Re.rmatch true tail_regex j rest k <> None) ->
    Re.rmatch true (chain l tail_regex) i (text ++ rest) k <> None.
Proof.
  induction 1 as [|c c' l text Hc _ IH|seg l text Hne Hseg _ IH];
    intros T rest k i HT.
  - apply HT.
  - cbn [chain fold_right regex_of app]; fold (chain l T).
    rewrite rmatch_cat, rmatch_lit by (apply lit_eq_same_letter, Hc).
    apply IH, HT.
  - destruct seg as [|c0 seg]; [contradiction|].
    cbn [forallb] in Hseg; apply andb_true_iff in Hseg; destruct Hseg as [H0 Hseg].
    cbn [chain fold_right regex_of]; fold (chain l T).
    rewrite <- app_assoc; cbn [app].
    rewrite rmatch_cat, rmatch_plus, rmatch_in
      by (rewrite in_set_not_slash; exact H0).
    apply (@star_runs _ _ (in_body_spec true true [(47, 47)]%N)).
    + apply forallb_forall.
      intros c Hin; rewrite in_set_not_slash.
      exact (proj1 (forallb_forall _ _) Hseg c Hin).
    + apply IH, HT.
    + rewrite length_app; apply Nat.le_add_r.
Qed.

Lemma chain_inv l : forall tail_regex i s k,
  Re.rmatch true (chain l tail_regex) i s k <> None ->
  exists text rest j,
    s = text ++ rest /\ instantiates l text /\
    Re.rmatch true tail_regex j rest k <> None.
Proof.
  induction l as [|it l IH]; intros T i s k H.
  - exists [], s, i; repeat split; [constructor | exact H].
  - cbn [chain fold_right] in H; fold (chain l T) in H.
    rewrite rmatch_cat in H.
    destruct it as [c|]; cbn [regex_of] in H.
    + apply lit_inv in H; destruct H as (c' & s' & -> & Hc & H).
      destruct (IH _ _ _ _ H) as (text & rest & j & -> & Hi & Hr).
      exists (c' :: text), rest, j; repeat split; auto.
      constructor; [|exact Hi].
      apply lit_eq_same_letter, Hc.
    + rewrite rmatch_plus, in_body_spec in H.
      destruct s as [|c0 s1]; [congruence|].
      destruct (Re.in_set true [(47, 47)]%N c0) eqn:E0; [|congruence].
      apply (@star_inv _ _ (in_body_spec true true [(47, 47)]%N)) in H.
      destruct H as (seg & rest1 & -> & Hseg & H).
      destruct (IH _ _ _ _ H) as (text & rest & j & -> & Hi & Hr).
      exists ((c0 :: seg) ++ text), rest, j; repeat split.
      * rewrite <- app_assoc; reflexivity.
      * constructor; [discriminate | | exact Hi].
        cbn [forallb]; rewrite <- in_set_not_slash, E0; cbn [andb].
        apply forallb_forall; intros c Hin; rewrite <- in_set_not_slash.
        exact (proj1 (forallb_forall _ _) Hseg c Hin).
      * exact Hr.
Qed.

Lemma matcher_accepts_iff_fact e line :
  has_backslash_colon e = false ->
  (matches e line = Some true \/ matches e line = Some false) /\
  (matches e line = Some true <->
   exists before text tail e_end,
     line = before ++ text ++ tail ++ e_end /\
     instantiates (rstrip_items (items e)) text /\
     newline_free tail = true /\ line_end e_end).
Proof.
  intros H; unfold matches; rewrite (endpoint_to_regex_items_fact e H).
  split; [destruct (Re.search _ line); auto|].
  unfold Re.search; cbn [Re.p_regex Re.p_ignorecase].
  set (r := chain (rstrip_items (items e)) suffix_regex).
  split.
  - intros Hs.
    assert (Hn : Re.search_from true r false 0 line <> None).
    { destruct (Re.search_from true r false 0 line); congruence. }
    apply search_from_inv in Hn; destruct Hn as (before & rest & -> & Hm).
    apply chain_inv in Hm; destruct Hm as (text & rest' & j & -> & Hi & Hm).
    apply suffix_inv in Hm; destruct Hm as (tail & e_end & _ & -> & Hnf & He & _).
    exists before, text, tail, e_end; auto.
  - intros (before & text & tail & e_end & -> & Hi & Hnf & He).
    assert (Hn : Re.search_from true r false 0
                   (before ++ text ++ tail ++ e_end) <> None).
    { apply search_from_found, chain_accepts; [exact Hi|].
      intros j; apply suffix_accepts_tail; [exact Hnf | exact He | discriminate]. }
    destruct (Re.search_from true r false 0 _); congruence.
Qed.

(** X2. For a template without a backslash right before a colon, the matcher
    accepts a line exactly when the line holds an instance of the template
    (trailing slashes of the template left out; letters compared as the
    engine does under [re.IGNORECASE], with the Unicode tables) that is
    followed, up to the end of the line, by text without a newline. *)
Theorem matcher_accepts_iff e line :
  has_backslash_colon e = false ->
  (matches e line = Some true \/ matches e line = Some false) /\
  (matches e line = Some true <->
   exists before text tail e_end,
     line = before ++ text ++ tail ++ e_end /\
     instantiates (rstrip_items (items e)) text /\
     newline_free tail = true /\ line_end e_end).
Proof. exact (@matcher_accepts_iff_fact e line). Qed.

(** On ASCII characters, standing for a letter is being the same letter
    in capital or small. *)
Lemma lit_eq_ascii_table :
  forallb (fun c =>
             forallb (fun c' => Bool.eqb (Re.lit_eq true c c')
                                         (lower c =? lower c')%N)
                     (List.map N.of_nat (seq 0 128)))
          (List.map N.of_nat (seq 0 128)) = true.
Proof. vm_compute; reflexivity. Qed.

Lemma same_letter_ascii c c' :
  is_ascii c = true -> is_ascii c' = true ->
  (same_letter c c' <-> lower c = lower c').
Proof.
  unfold is_ascii; intros H H'; apply N.ltb_lt in H, H'.
  assert (R : forall x, (x < 128)%N -> In x (List.map N.of_nat (seq 0 128))).
  { intros x Hx; apply in_map_iff; exists (N.to_nat x).
    split; [apply N2Nat.id | apply in_seq; lia]. }
  pose proof (proj1 (forallb_forall _ _) lit_eq_ascii_table c (R c H)) as T.
  cbv beta in T.
  pose proof (proj1 (forallb_forall _ _) T c' (R c' H')) as E.
  cbv beta in E; apply Bool.eqb_prop in E.
  rewrite <- lit_eq_same_letter, E; apply N.eqb_eq.
Qed.

(** Outside ASCII the engine folds with the Unicode tables: the long s
    stands for an s, a capital E with acute for the small one. *)
Example long_s_matches :
  matches (py "/users") ([47; 117; 383]%N ++ py "ers") = Some true.
Proof. vm_compute; reflexivity. Qed.

Example accented_capital_matches :
  matches (py "/caf" ++ [233]%N) (py "/CAF" ++ [201]%N) = Some true.
Proof. vm_compute; reflexivity. Qed.

(** ** The Tree Scanner, file by file *)

Lemma scan_lines_records patterns fp pn key : forall lines i used,
  occurrences (scan_lines patterns fp pn i lines used) key =
  occurrences used key
    ++ flat_map (fun nl : nat * str =>
                   repeat (fp, fst nl, pn)
                          (List.length (filter (hit key (snd nl)) patterns)))
                (numbered i lines).
Proof.
  induction lines as [|line lines IH]; intros i used.
  - cbn; rewrite app_nil_r; reflexivity.
  - cbn [scan_lines]; rewrite IH, scan_line_occurrences, <- app_assoc.
    reflexivity.
Qed.

Lemma scan_file_records os patterns pn key st fp :
  occurrences (fst (scan_file os patterns pn st fp)) key =
  occurrences (fst st) key
    ++ file_records patterns key pn fp (file_lines (read_lines os fp)).
Proof.
  destruct st as [used ws]; unfold scan_file, file_records.
  destruct (read_lines os fp); cbn [fst file_lines]; apply scan_lines_records.
Qed.

Lemma scan_file_warnings os patterns pn st fp :
  snd (scan_file os patterns pn st fp) =
  snd st ++ file_warning fp (read_lines os fp).
Proof.
  destruct st as [used ws]; unfold scan_file.
  destruct (read_lines os fp); cbn [snd file_warning];
    [rewrite app_nil_r|]; reflexivity.
Qed.

Lemma scan_dir_records os patterns pn key entry : forall st,
  occurrences (fst (scan_dir os patterns pn st entry)) key =
  occurrences (fst st) key
    ++ flat_map (fun fp => file_records patterns key pn fp
                             (file_lines (read_lines os fp)))
         (List.map (path_join os (fst entry))
            (filter (fun file => endswith_any file source_extensions)
                    (snd entry))).
Proof.
  destruct entry as [root files]; unfold scan_dir; cbn [fst snd].
  induction files as [|file files IH]; intros st; cbn [fold_left filter].
  - cbn; rewrite app_nil_r; reflexivity.
  - rewrite IH; destruct (endswith_any file source_extensions).
    + rewrite scan_file_records; cbn [List.map flat_map].
      rewrite app_assoc; reflexivity.
    + reflexivity.
Qed.

Lemma scan_dir_warnings os patterns pn entry : forall st,
  snd (scan_dir os patterns pn st entry) =
  snd st
    ++ flat_map (fun fp => file_warning fp (read_lines os fp))
         (List.map (path_join os (fst entry))
            (filter (fun file => endswith_any file source_extensions)
                    (snd entry))).
Proof.
  destruct entry as [root files]; unfold scan_dir; cbn [fst snd].
  induction files as [|file files IH]; intros st; cbn [fold_left filter].
  - cbn; rewrite app_nil_r; reflexivity.
  - rewrite IH; destruct (endswith_any file source_extensions).
    + rewrite scan_file_warnings; cbn [List.map flat_map].
      rewrite app_assoc; reflexivity.
    + reflexivity.
Qed.

Lemma walk_records os patterns pn key entries : forall st,
  occurrences (fst (fold_left (scan_dir os patterns pn) entries st)) key =
  occurrences (fst st) key
    ++ flat_map (fun fp => file_records patterns key pn fp
                             (file_lines (read_lines os fp)))
         (flat_map (fun entry : str * list str =>
                      List.map (path_join os (fst entry))
                        (filter (fun file => endswith_any file source_extensions)
                                (snd entry)))
                   entries).
Proof.
  induction entries as [|entry entries IH]; intros st; cbn [fold_left flat_map].
  - rewrite app_nil_r; reflexivity.
  - rewrite IH, scan_dir_records, flat_map_app, app_assoc; reflexivity.
Qed.

Lemma walk_warnings os patterns pn entries : forall st,
  snd (fold_left (scan_dir os patterns pn) entries st) =
  snd st
    ++ flat_map (fun fp => file_warning fp (read_lines os fp))
         (flat_map (fun entry : str * list str =>
                      List.map (path_join os (fst entry))
                        (filter (fun file => endswith_any file source_extensions)
                                (snd entry)))
                   entries).
Proof.
  induction entries as [|entry entries IH]; intros st; cbn [fold_left flat_map].
  - rewrite app_nil_r; reflexivity.
  - rewrite IH, scan_dir_warnings, flat_map_app, app_assoc; reflexivity.
Qed.

(** The occurrence list of a key, as the scanner builds it: the records of
    the source files in the order of the walk. *)
Lemma find_endpoints_in_code_records os dir endpoints used ws :
  find_endpoints_in_code os dir endpoints = Ok (used, ws) ->
  exists patterns,
    compile_endpoints endpoints = Ok patterns /\
    (forall key,
       occurrences used key =
       flat_map (fun fp => file_records patterns key (basename_abspath os dir)
                             fp (file_lines (read_lines os fp)))
                (source_files os dir)) /\
    ws = flat_map (fun fp => file_warning fp (read_lines os fp))
                  (source_files os dir).
Proof.
  unfold find_endpoints_in_code; intros H.
  destruct (compile_endpoints endpoints) as [patterns|e]; cbn [bind] in H;
    [|discriminate].
  injection H as H; exists patterns; split; [reflexivity|].
  split.
  - intros key.
    change used with (fst (used, ws)); rewrite <- H, walk_records; reflexivity.
  - change ws with (snd (used, ws)); rewrite <- H, walk_warnings; reflexivity.
Qed.

Lemma compile_endpoints_sound endpoints : forall patterns kp,
  compile_endpoints endpoints = Ok patterns -> In kp patterns ->
  In (fst kp) endpoints /\ endpoint_to_regex (fst (fst kp)) = Some (snd kp).
Proof.
  induction endpoints as [|[ep m] endpoints IH]; cbn [compile_endpoints];
    intros patterns kp H Hin.
  - injection H as <-; contradiction.
  - destruct (endpoint_to_regex ep) as [p|] eqn:Ep; [|discriminate].
    destruct (compile_endpoints endpoints) as [rest|e]; cbn [bind] in H;
      [|discriminate].
    injection H as <-; destruct Hin as [<-|Hin].
    + split; [left; reflexivity | exact Ep].
    + destruct (IH rest kp eq_refl Hin); split; [right|]; assumption.
Qed.

Lemma compile_endpoints_complete endpoints : forall patterns key,
  compile_endpoints endpoints = Ok patterns -> In key endpoints ->
  exists p, In (key, p) patterns /\ endpoint_to_regex (fst key) = Some p.
Proof.
  induction endpoints as [|[ep m] endpoints IH]; cbn [compile_endpoints];
    intros patterns key H Hin; [contradiction|].
  destruct (endpoint_to_regex ep) as [p|] eqn:Ep; [|discriminate].
  destruct (compile_endpoints endpoints) as [rest|e]; cbn [bind] in H;
    [|discriminate].
  injection H as <-; destruct Hin as [<-|Hin].
  - exists p; split; [left; reflexivity | exact Ep].
  - destruct (IH rest key eq_refl Hin) as (q & Hq & Eq).
    exists q; split; [right|]; assumption.
Qed.

Lemma accepts_search ep p line :
  endpoint_to_regex ep = Some p -> accepts ep line = Re.search p line.
Proof.
  intros H; unfold accepts, matches; rewrite H.
  destruct (Re.search p line); reflexivity.
Qed.

Lemma accepts_matches ep line :
  accepts ep line = true <-> matches ep line = Some true.
Proof.
  unfold accepts; destruct (matches ep line) as [[|]|];
    split; congruence.
Qed.

(** Some entry of [endpoint_patterns] records the line for the key exactly
    when the key is a listed descriptor whose matcher accepts the line. *)
Lemma existsb_hit endpoints patterns key line :
  compile_endpoints endpoints = Ok patterns ->
  existsb (hit key line) patterns = true <->
  In key endpoints /\ accepts (fst key) line = true.
Proof.
  intros Hc; rewrite existsb_exists; split.
  - intros (kp & Hin & Hh); unfold hit in Hh.
    apply andb_true_iff in Hh; destruct Hh as [Hk Hs].
    apply desc_eqb_spec in Hk.
    destruct (compile_endpoints_sound _ _ Hc Hin) as [Hi Hr].
    rewrite Hk in Hi, Hr; split; [exact Hi|].
    rewrite (@accepts_search (fst key) (snd kp) line Hr); exact Hs.
  - intros [Hin Ha].
    destruct (compile_endpoints_complete _ _ Hc Hin) as (p & Hp & Hr).
    exists (key, p); split; [exact Hp|].
    unfold hit; cbn [fst snd]; rewrite desc_eqb_refl.
    rewrite <- (@accepts_search (fst key) p line Hr); exact Ha.
Qed.

Lemma filter_nonempty_existsb {A : Type} (f : A -> bool) l :
  0 < List.length (filter f l) <-> existsb f l = true.
Proof.
  induction l as [|x l IH]; cbn [filter existsb List.length].
  - split; [lia | discriminate].
  - destruct (f x); cbn [List.length orb]; [split; [reflexivity | lia] | exact IH].
Qed.

Lemma in_repeat {A : Type} (x y : A) n :
  In x (repeat y n) <-> x = y /\ 0 < n.
Proof.
  induction n as [|n IH]; cbn [repeat In].
  - split; [contradiction | lia].
  - rewrite IH; split.
    + intros [->|[-> _]]; split; auto; lia.
    + intros [-> _]; auto.
Qed.

Lemma in_numbered lines : forall i j line,
  In (j, line) (numbered i lines) <->
  i <= j /\ nth_error lines (j - i) = Some line.
Proof.
  unfold numbered; induction lines as [|l lines IH]; intros i j line.
  - cbn; split; [contradiction|]. intros [_ H]; destruct (j - i); discriminate.
  - cbn [List.length seq combine In]; rewrite IH; split.
    + intros [H|[H1 H2]].
      * injection H as <- <-; rewrite Nat.sub_diag; split; [lia | reflexivity].
      * split; [lia|].
        replace (j - i) with (S (j - S i)) by lia; exact H2.
    + intros [H1 H2].
      destruct (Nat.eq_dec i j) as [->|Hne].
      * rewrite Nat.sub_diag in H2; injection H2 as ->; left; reflexivity.
      * right; split; [lia|].
        replace (j - i) with (S (j - S i)) in H2 by lia; exact H2.
Qed.

Lemma scanner_records_iff_fact os dir endpoints used ws key fp j pn :
  find_endpoints_in_code os dir endpoints = Ok (used, ws) ->
  In (fp, j, pn) (occurrences used key) <->
  pn = basename_abspath os dir /\
  In fp (source_files os dir) /\
  In key endpoints /\
  exists line,
    1 <= j /\
    nth_error (file_lines (read_lines os fp)) (j - 1) = Some line /\
    matches (fst key) line = Some true.
Proof.
  intros H.
  destruct (find_endpoints_in_code_records _ _ _ H) as (patterns & Hc & Hocc & _).
  rewrite Hocc, in_flat_map; unfold file_records; split.
  - intros (fp' & Hfp & Hin).
    apply in_flat_map in Hin; destruct Hin as ([j' line] & Hnl & Hrep).
    cbn [fst snd] in Hrep; apply in_repeat in Hrep; destruct Hrep as [Heq Hpos].
    injection Heq as <- <- <-.
    apply in_numbered in Hnl; destruct Hnl as [Hj Hnth].
    apply filter_nonempty_existsb in Hpos.
    apply (@existsb_hit endpoints patterns key line Hc) in Hpos.
    destruct Hpos as [Hk Ha].
    repeat split; auto.
    exists line; repeat split; auto; apply accepts_matches; exact Ha.
  - intros (-> & Hfp & Hk & line & Hj & Hnth & Hm).
    exists fp; split; [exact Hfp|].
    apply in_flat_map; exists (j, line); split.
    + apply in_numbered; auto.
    + cbn [fst snd]; apply in_repeat; split; [reflexivity|].
      apply filter_nonempty_existsb, (@existsb_hit endpoints patterns key line Hc).
      split; [exact Hk | apply accepts_matches; exact Hm].
Qed.

(** X7. What the scanner records, and nothing else. *)
Theorem scanner_records_iff os dir endpoints used ws key fp j pn :
  find_endpoints_in_code os dir endpoints = Ok (used, ws) ->
  In (fp, j, pn) (occurrences used key) <->
  pn = basename_abspath os dir /\
  In fp (source_files os dir) /\
  In key endpoints /\
  exists line,
    1 <= j /\
    nth_error (file_lines (read_lines os fp)) (j - 1) = Some line /\
    matches (fst key) line = Some true.
Proof. exact (@scanner_records_iff_fact os dir endpoints used ws key fp j pn). Qed.

Lemma existsb_hit_accepts endpoints patterns key line :
  compile_endpoints endpoints = Ok patterns -> In key endpoints ->
  existsb (hit key line) patterns = accepts (fst key) line.
Proof.
  intros Hc Hin.
  pose proof (@existsb_hit endpoints patterns key line Hc) as H.
  destruct (existsb (hit key line) patterns), (accepts (fst key) line);
    try reflexivity.
  - destruct (proj1 H eq_refl); discriminate.
  - apply (proj2 H); auto.
Qed.

Lemma file_records_accepted endpoints patterns key pn fp lines :
  NoDup endpoints -> compile_endpoints endpoints = Ok patterns ->
  In key endpoints ->
  file_records patterns key pn fp lines =
  List.map (fun j => (fp, j, pn)) (accepted_lines (fst key) lines).
Proof.
  intros Hnd Hc Hin; unfold file_records, accepted_lines.
  assert (Hk : NoDup (List.map fst patterns))
    by (rewrite (compile_endpoints_keys _ Hc); exact Hnd).
  induction (numbered 1 lines) as [|[j line] l IH]; [reflexivity|].
  cbn [flat_map filter fst snd].
  rewrite IH, (@filter_hit_unique key line patterns Hk).
  rewrite (@existsb_hit_accepts endpoints patterns key line Hc Hin).
  destruct (accepts (fst key) line); reflexivity.
Qed.

Lemma scanner_occurrences_in_order_fact os dir endpoints used ws key :
  NoDup endpoints ->
  find_endpoints_in_code os dir endpoints = Ok (used, ws) ->
  In key endpoints ->
  occurrences used key =
  flat_map (fun fp =>
              List.map (fun j => (fp, j, basename_abspath os dir))
                       (accepted_lines (fst key)
                                       (file_lines (read_lines os fp))))
           (source_files os dir).
Proof.
  intros Hnd H Hin.
  destruct (find_endpoints_in_code_records _ _ _ H) as (patterns & Hc & Hocc & _).
  rewrite Hocc; apply flat_map_ext; intros fp.
  exact (@file_records_accepted endpoints patterns key _ fp _ Hnd Hc Hin).
Qed.

(** X8. The occurrence list of a listed descriptor, in order. *)
Theorem scanner_occurrences_in_order os dir endpoints used ws key :
  NoDup endpoints ->
  find_endpoints_in_code os dir endpoints = Ok (used, ws) ->
  In key endpoints ->
  occurrences used key =
  flat_map (fun fp =>
              List.map (fun j => (fp, j, basename_abspath os dir))
                       (accepted_lines (fst key)
                                       (file_lines (read_lines os fp))))
           (source_files os dir).
Proof. exact (@scanner_occurrences_in_order_fact os dir endpoints used ws key). Qed.

(** X9. The method of a descriptor plays no part in matching. *)
Theorem method_never_restricts os dir endpoints used ws ep m1 m2 :
  NoDup endpoints ->
  find_endpoints_in_code os dir endpoints = Ok (used, ws) ->
  In (ep, m1) endpoints -> In (ep, m2) endpoints ->
  occurrences used (ep, m1) = occurrences used (ep, m2).
Proof.
  intros Hnd H H1 H2.
  rewrite (@scanner_occurrences_in_order_fact os dir endpoints used ws (ep, m1) Hnd H H1).
  rewrite (@scanner_occurrences_in_order_fact os dir endpoints used ws (ep, m2) Hnd H H2).
  reflexivity.
Qed.

Lemma map_fst_numbered lines : forall i,
  List.map fst (numbered i lines) = seq i (List.length lines).
Proof.
  unfold numbered; induction lines as [|l lines IH]; intros i; [reflexivity|].
  cbn [List.length seq combine List.map fst]; rewrite IH; reflexivity.
Qed.

Lemma nodup_map_filter {A B : Type} (g : A -> B) (f : A -> bool) l :
  NoDup (List.map g l) -> NoDup (List.map g (filter f l)).
Proof.
  induction l as [|x l IH]; cbn [List.map filter]; [auto|].
  intros H; inversion H as [|? ? Hx Hl]; subst.
  destruct (f x); cbn [List.map]; [|exact (IH Hl)].
  constructor; [|exact (IH Hl)].
  intros Hin; apply Hx; apply in_map_iff in Hin.
  destruct Hin as (y & Hy & Hin); apply filter_In in Hin.
  apply in_map_iff; exists y; tauto.
Qed.

Lemma accepted_lines_nodup ep lines : NoDup (accepted_lines ep lines).
Proof.
  unfold accepted_lines; apply nodup_map_filter.
  rewrite map_fst_numbered; apply seq_NoDup.
Qed.

Lemma nodup_flat_map {A B : Type} (f : A -> list B) l :
  NoDup l -> (forall x, In x l -> NoDup (f x)) ->
  (forall x y b, In x l -> In y l -> In b (f x) -> In b (f y) -> x = y) ->
  NoDup (flat_map f l).
Proof.
  induction 1 as [|x l Hx Hl IH]; intros Hf Hd; cbn [flat_map]; [constructor|].
  apply NoDup_app.
  - apply Hf; left; reflexivity.
  - apply IH; [intros y Hy; apply Hf; right; exact Hy|].
    intros y z b Hy Hz; apply Hd; right; assumption.
  - intros b Hb Hb'; apply in_flat_map in Hb'; destruct Hb' as (y & Hy & Hb').
    apply Hx.
    rewrite (Hd x y b (or_introl eq_refl) (or_intror Hy) Hb Hb'); exact Hy.
Qed.

(** X11. With pairwise distinct descriptors and pairwise distinct paths in
    the walk, no occurrence list of a scan holds a record twice. *)
Theorem scan_has_no_duplicate os dir endpoints used ws key :
  NoDup endpoints -> NoDup (source_files os dir) ->
  find_endpoints_in_code os dir endpoints = Ok (used, ws) ->
  NoDup (occurrences used key).
Proof.
  intros Hnd Hfiles H.
  destruct (in_dec desc_eq_dec key endpoints) as [Hin|Hout].
  - rewrite (@scanner_occurrences_in_order_fact os dir endpoints used ws key Hnd H Hin).
    apply nodup_flat_map; [exact Hfiles | |].
    + intros fp _; apply NoDup_map_injective; [|apply accepted_lines_nodup].
      intros x y E; injection E; auto.
    + intros fp fp' b _ _ Hb Hb'.
      apply in_map_iff in Hb, Hb'.
      destruct Hb as (j & <- & _), Hb' as (j' & E & _).
      injection E; auto.
  - destruct (occurrences used key) as [|[[fp j] pn] l] eqn:E; [constructor|].
    exfalso; apply Hout.
    assert (Hocc : In (fp, j, pn) (occurrences used key))
      by (rewrite E; left; reflexivity).
    apply (proj1 (@scanner_records_iff_fact os dir endpoints used ws key fp j pn H))
      in Hocc.
    tauto.
Qed.

(** X10. One warning per source file whose reading fails, in the order of
    the walk, and no other warning. *)
Theorem scanner_warnings os dir endpoints used ws :
  find_endpoints_in_code os dir endpoints = Ok (used, ws) ->
  ws = flat_map (fun fp => file_warning fp (read_lines os fp))
                (source_files os dir).
Proof.
  intros H.
  destruct (find_endpoints_in_code_records _ _ _ H) as (_ & _ & _ & Hw).
  exact Hw.
Qed.

Lemma compile_endpoints_total endpoints :
  Forall (fun d : descriptor => has_backslash_colon (fst d) = false) endpoints ->
  exists patterns, compile_endpoints endpoints = Ok patterns.
Proof.
  induction 1 as [|[ep m] endpoints Hd _ [rest IH]]; cbn [compile_endpoints].
  - exists []; reflexivity.
  - cbn [fst] in Hd; rewrite (endpoint_to_regex_items_fact ep Hd), IH.
    eexists; reflexivity.
Qed.

(** X6. For templates without a backslash right before a colon, the scan
    of a project and the scan of all projects return a result. *)
Theorem scan_returns os endpoints dir dirs :
  Forall (fun d : descriptor => has_backslash_colon (fst d) = false) endpoints ->
  (exists used ws, find_endpoints_in_code os dir endpoints = Ok (used, ws)) /\
  (exists used ws, scan_projects os endpoints dirs = Ok (used, ws)).
Proof.
  intros H; destruct (compile_endpoints_total H) as [patterns Hc].
  assert (Hf : forall d, exists r, find_endpoints_in_code os d endpoints = Ok r).
  { intros d; unfold find_endpoints_in_code; rewrite Hc; cbn [bind].
    eexists; reflexivity. }
  split.
  - destruct (Hf dir) as [[used ws] E]; exists used, ws; exact E.
  - unfold scan_projects.
    generalize (@nil (descriptor * list occurrence), @nil warning).
    induction dirs as [|d dirs IH]; intros [um w]; cbn [foldM].
    + exists um, w; reflexivity.
    + destruct (Hf d) as [r E]; rewrite E; cbn [bind]; apply IH.
Qed.

(** ** Structured documents *)

Lemma load_structured json_load yaml_safe_load f r :
  parsed_as json_load yaml_safe_load f r ->
  load_endpoints json_load yaml_safe_load f =
  bind r openapi_endpoints.
Proof.
  unfold load_endpoints; intros [[Hj Hr]|(Hj & Hy & Hr)].
  - rewrite Hj, Hr; reflexivity.
  - rewrite Hj, Hy, Hr; reflexivity.
Qed.

Lemma fold_methods (path : str) (methods : list str) :
  forall acc : list descriptor,
  fold_left (fun endpoints method => endpoints ++ [(path, str_upper method)])
            methods acc =
  acc ++ List.map (fun method => (path, str_upper method)) methods.
Proof.
  induction methods as [|m methods IH]; intros acc; cbn [fold_left List.map].
  - rewrite app_nil_r; reflexivity.
  - rewrite IH, <- app_assoc; reflexivity.
Qed.

Lemma paths_loop_ok paths : forall acc,
  forallb (fun pv : str * value => is_dict (snd pv)) paths = true ->
  foldM (fun endpoints '(path, methods) =>
           ks <- py_keys methods ;;
           Ok (fold_left (fun endpoints method =>
                            endpoints ++ [(path, str_upper method)])
                         ks endpoints))
        acc paths = Ok (acc ++ path_descriptors paths).
Proof.
  induction paths as [|[path v] paths IH]; intros acc H; cbn [foldM].
  - cbn; rewrite app_nil_r; reflexivity.
  - cbn [forallb snd] in H; apply andb_true_iff in H; destruct H as [Hv H].
    destruct v; try discriminate; cbn [py_keys bind].
    rewrite IH by exact H; rewrite fold_methods, map_map, <- app_assoc.
    reflexivity.
Qed.

(** On ASCII text [str.upper] replaces the small letters by the capital
    letters and leaves the rest alone. *)
Lemma upper_full_ascii_table :
  forallb (fun c => str_eqb (upper_full c) [upper c])
          (List.map N.of_nat (seq 0 128)) = true.
Proof. vm_compute; reflexivity. Qed.

Lemma str_eqb_eq (a : str) : forall b : str, str_eqb a b = true -> a = b.
Proof.
  induction a as [|x a IH]; intros [|y b] H; try discriminate; [reflexivity|].
  cbn [str_eqb] in H; apply andb_true_iff in H; destruct H as [Hx H].
  apply N.eqb_eq in Hx; subst y; rewrite (IH b H); reflexivity.
Qed.

Lemma upper_full_ascii c : is_ascii c = true -> upper_full c = [upper c].
Proof.
  unfold is_ascii; intros H; apply N.ltb_lt in H.
  apply str_eqb_eq.
  apply (proj1 (forallb_forall _ _) upper_full_ascii_table c).
  apply in_map_iff; exists (N.to_nat c); split; [apply N2Nat.id|].
  apply in_seq; lia.
Qed.

Lemma str_upper_ascii (s : str) :
  forallb is_ascii s = true -> str_upper s = List.map upper s.
Proof.
  induction s as [|c s IH]; [reflexivity|]; cbn [forallb]; intros H.
  apply andb_true_iff in H; destruct H as [Hc H].
  unfold str_upper; cbn [flat_map List.map].
  rewrite (upper_full_ascii c Hc); fold (str_upper s); rewrite (IH H).
  reflexivity.
Qed.

Lemma path_descriptors_ascii paths :
  ascii_method_keys paths = true ->
  path_descriptors paths = capital_descriptors paths.
Proof.
  unfold ascii_method_keys, path_descriptors, capital_descriptors.
  induction paths as [|[path v] paths IH]; [reflexivity|].
  cbn [forallb flat_map fst snd]; intros H.
  apply andb_true_iff in H; destruct H as [Hv H].
  rewrite (IH H); f_equal.
  destruct v; try reflexivity.
  apply map_ext_in; intros mk Hin.
  rewrite str_upper_ascii; [reflexivity|].
  exact (proj1 (forallb_forall _ _) Hv mk Hin).
Qed.

(** X18. A document whose top level is a mapping with a [paths] mapping
    of mappings, and whose method keys are written in ASCII, yields one
    descriptor per path and method key, in document order, the small
    letters of the method key replaced by capital letters.  (Mapping keys
    are strings, as in every JSON document.) *)
Theorem structured_descriptors json_load yaml_safe_load f top paths :
  parsed_as json_load yaml_safe_load f (Ok (VDict top)) ->
  assoc (py "paths") top = Some (VDict paths) ->
  forallb (fun pv : str * value => is_dict (snd pv)) paths = true ->
  ascii_method_keys paths = true ->
  load_endpoints json_load yaml_safe_load f = Ok (capital_descriptors paths).
Proof.
  intros Hp Ha Hd Hk; rewrite (load_structured Hp); cbn [bind].
  unfold openapi_endpoints; cbn [py_get bind]; rewrite Ha; cbn [py_items bind].
  rewrite paths_loop_ok by exact Hd.
  rewrite path_descriptors_ascii by exact Hk; reflexivity.
Qed.

Lemma paths_loop_raises pre path v post : forall acc,
  forallb (fun pv : str * value => is_dict (snd pv)) pre = true ->
  is_dict v = false ->
  foldM (fun endpoints '(path, methods) =>
           ks <- py_keys methods ;;
           Ok (fold_left (fun endpoints method =>
                            endpoints ++ [(path, str_upper method)])
                         ks endpoints))
        acc (pre ++ (path, v) :: post) =
  Raise (AttributeError (type_name v) (py "keys")).
Proof.
  induction pre as [|[p0 v0] pre IH]; intros acc Hpre Hv; cbn [app foldM].
  - destruct v; try discriminate; reflexivity.
  - cbn [forallb snd] in Hpre; apply andb_true_iff in Hpre.
    destruct Hpre as [H0 Hpre].
    destruct v0; try discriminate; cbn [py_keys bind].
    apply IH; assumption.
Qed.

(** X19. A document whose top level is no mapping (an empty YAML file loads
    as [None]) raises [AttributeError]; no descriptor is returned. *)
Theorem top_level_not_mapping json_load yaml_safe_load f v :
  parsed_as json_load yaml_safe_load f (Ok v) -> is_dict v = false ->
  load_endpoints json_load yaml_safe_load f =
  Raise (AttributeError (type_name v) (py "get")).
Proof.
  intros Hp Hv; rewrite (load_structured Hp); cbn [bind].
  destruct v; try discriminate; reflexivity.
Qed.

(** X20. A [paths] value that is no mapping raises [AttributeError]. *)
Theorem paths_not_mapping json_load yaml_safe_load f top v :
  parsed_as json_load yaml_safe_load f (Ok (VDict top)) ->
  assoc (py "paths") top = Some v -> is_dict v = false ->
  load_endpoints json_load yaml_safe_load f =
  Raise (AttributeError (type_name v) (py "items")).
Proof.
  intros Hp Ha Hv; rewrite (load_structured Hp); cbn [bind].
  unfold openapi_endpoints; cbn [py_get bind]; rewrite Ha.
  destruct v; try discriminate; reflexivity.
Qed.

(** X21. A path whose value is no mapping raises [AttributeError]; the
    descriptors of the paths before it are not returned. *)
Theorem path_item_not_mapping json_load yaml_safe_load f top pre path v post :
  parsed_as json_load yaml_safe_load f (Ok (VDict top)) ->
  assoc (py "paths") top = Some (VDict (pre ++ (path, v) :: post)) ->
  forallb (fun pv : str * value => is_dict (snd pv)) pre = true ->
  is_dict v = false ->
  load_endpoints json_load yaml_safe_load f =
  Raise (AttributeError (type_name v) (py "keys")).
Proof.
  intros Hp Ha Hpre Hv.
  rewrite (load_structured Hp); cbn [bind].
  unfold openapi_endpoints; cbn [py_get bind]; rewrite Ha; cbn [py_items bind].
  apply paths_loop_raises; assumption.
Qed.

(** ** Plain lists *)

(** X22. A plain-text file that is not valid UTF-8 stops the load and the
    run with the decoding error. *)
Theorem undecodable_list_is_fatal json_load yaml_safe_load os f input e :
  endswith (name f) (py ".json") = false ->
  endswith_any (name f) [py ".yaml"; py ".yml"] = false ->
  decode_utf8 (data f) = Raise e ->
  input <> [] ->
  load_endpoints json_load yaml_safe_load f = Raise e /\
  main_script json_load yaml_safe_load os (Some f) input = Some (Raise e).
Proof.
  intros Hj Hy Hd Hi.
  assert (HL : load_endpoints json_load yaml_safe_load f = Raise e).
  { unfold load_endpoints; rewrite Hj, Hy, Hd; reflexivity. }
  split; [exact HL|].
  unfold main_script, run; destruct input; [contradiction|].
  cbn [truthy]; rewrite HL; reflexivity.
Qed.

Lemma dropwhile_head p s :
  match dropwhile p s with c :: _ => p c = false | [] => True end.
Proof.
  induction s as [|c s IH]; cbn [dropwhile]; [exact I|].
  destruct (p c) eqn:E; [exact IH | exact E].
Qed.

Lemma dropwhile_suffix p s : exists pre, s = pre ++ dropwhile p s.
Proof.
  induction s as [|c s [pre IH]]; cbn [dropwhile]; [exists []; reflexivity|].
  destruct (p c); [exists (c :: pre); cbn; rewrite <- IH; reflexivity
                  | exists []; reflexivity].
Qed.

Lemma dropwhile_forallb p q s :
  forallb q s = true -> forallb q (dropwhile p s) = true.
Proof.
  intros H; destruct (dropwhile_suffix p s) as [pre E].
  rewrite E, forallb_app in H; apply andb_true_iff in H; tauto.
Qed.

Lemma forallb_rev {A : Type} (q : A -> bool) l :
  forallb q (rev l) = forallb q l.
Proof.
  induction l as [|x l IH]; [reflexivity|]; cbn [rev forallb].
  rewrite forallb_app, IH; cbn [forallb]; rewrite andb_true_r, andb_comm.
  reflexivity.
Qed.

(** [strip] leaves no whitespace at either end. *)
Lemma strip_ends s :
  (match strip s with c :: _ => isspace c = false | [] => True end) /\
  (match rev (strip s) with c :: _ => isspace c = false | [] => True end).
Proof.
  unfold strip.
  set (a := dropwhile isspace s).
  set (b := dropwhile isspace (rev a)).
  rewrite rev_involutive; split; [|apply dropwhile_head].
  destruct (dropwhile_suffix isspace (rev a)) as [pre E]; fold b in E.
  pose proof (dropwhile_head isspace s) as Ha; fold a in Ha.
  destruct (rev b) as [|c t] eqn:Eb; [exact I|].
  assert (Ea : a = rev b ++ rev pre).
  { rewrite <- (rev_involutive a), E, rev_app_distr; reflexivity. }
  rewrite Eb in Ea; rewrite Ea in Ha; exact Ha.
Qed.

Lemma strip_forallb q s : forallb q s = true -> forallb q (strip s) = true.
Proof.
  intros H; unfold strip.
  rewrite forallb_rev; apply dropwhile_forallb.
  rewrite forallb_rev; apply dropwhile_forallb; exact H.
Qed.

Lemma splitlines_from_no_linebreak : forall n s cur line,
  List.length s <= n ->
  forallb no_linebreak cur = true ->
  In line (splitlines_from cur s) -> forallb no_linebreak line = true.
Proof.
  induction n as [|n IH]; intros s cur line Hn Hcur Hin.
  - destruct s; [|cbn in Hn; lia].
    cbn [splitlines_from] in Hin; destruct cur; [contradiction|].
    destruct Hin as [<-|[]]; rewrite forallb_rev; exact Hcur.
  - assert (Hrev : forallb no_linebreak (rev cur) = true)
      by (rewrite forallb_rev; exact Hcur).
    destruct s as [|c s]; cbn [splitlines_from] in Hin.
    + destruct cur; [contradiction|].
      destruct Hin as [<-|[]]; exact Hrev.
    + cbn [List.length] in Hn.
      destruct (c =? 13)%N eqn:E13.
      * destruct s as [|d s'].
        -- destruct Hin as [<-|Hin]; [exact Hrev | contradiction].
        -- cbn [List.length] in Hn.
           destruct (d =? 10)%N;
             (destruct Hin as [<-|Hin]; [exact Hrev|]);
             apply (IH _ [] line) in Hin; auto; cbn [List.length]; lia.
      * destruct (is_linebreak c) eqn:El.
        -- destruct Hin as [<-|Hin]; [exact Hrev|].
           apply (IH _ [] line) in Hin; auto; lia.
        -- apply (IH _ (c :: cur) line) in Hin; auto; [lia|].
           cbn [forallb]; rewrite Hcur, andb_true_r.
           unfold no_linebreak; rewrite E13, El; reflexivity.
Qed.

Lemma splitlines_no_linebreak s line :
  In line (splitlines s) -> forallb no_linebreak line = true.
Proof.
  apply (@splitlines_from_no_linebreak (List.length s)); [lia | reflexivity].
Qed.

(** *** The lines of a text *)

Lemma no_linebreak_inside c : no_linebreak c = inside_line c.
Proof.
  unfold no_linebreak, inside_line, is_linebreak, in_range, line_boundaries,
    char_in; cbn [existsb]; f_equal.
  apply Bool.eq_iff_eq_true.
  rewrite ?orb_true_iff, ?andb_true_iff, ?N.eqb_eq, ?N.leb_le; lia.
Qed.

Lemma is_linebreak_boundary c :
  c <> 13%N -> char_in c line_boundaries = true -> is_linebreak c = true.
Proof.
  unfold is_linebreak, in_range, line_boundaries, char_in; cbn [existsb].
  rewrite ?orb_true_iff, ?andb_true_iff, ?N.eqb_eq, ?N.leb_le; lia.
Qed.

Lemma is_linebreak_inv c :
  is_linebreak c = true -> c <> 13%N /\ char_in c line_boundaries = true.
Proof.
  unfold is_linebreak, in_range, line_boundaries, char_in; cbn [existsb].
  rewrite ?orb_true_iff, ?andb_true_iff, ?N.eqb_eq, ?N.leb_le; lia.
Qed.

Lemma forallb_inside (l : str) :
  forallb inside_line l = forallb no_linebreak l.
Proof.
  induction l as [|c l IH]; [reflexivity|]; cbn [forallb].
  rewrite IH, no_linebreak_inside; reflexivity.
Qed.

Lemma no_linebreak_tests c :
  no_linebreak c = true -> (c =? 13)%N = false /\ is_linebreak c = false.
Proof.
  unfold no_linebreak; intros H; apply negb_true_iff, orb_false_iff in H.
  exact H.
Qed.

Lemma splitlines_from_run (l : str) : forall (cur s : str),
  forallb no_linebreak l = true ->
  splitlines_from cur (l ++ s) = splitlines_from (rev l ++ cur) s.
Proof.
  induction l as [|c l IH]; intros cur s H; [reflexivity|].
  cbn [forallb] in H; apply andb_true_iff in H; destruct H as [Hc H].
  destruct (no_linebreak_tests c Hc) as [E13 El].
  cbn [app splitlines_from rev]; rewrite E13, El, (IH (c :: cur) s H).
  rewrite <- app_assoc; reflexivity.
Qed.

Lemma splitlines_from_break (cur b rest : str) :
  line_break b rest ->
  splitlines_from cur (b ++ rest) = rev cur :: splitlines_from [] rest.
Proof.
  intros [->|[[-> Hr]|(c & -> & H13 & Hc)]]; cbn [app splitlines_from].
  - reflexivity.
  - change (13 =? 13)%N with true; cbv iota.
    destruct rest as [|d rest]; [reflexivity|].
    rewrite (proj2 (N.eqb_neq d 10) Hr); reflexivity.
  - rewrite (proj2 (N.eqb_neq c 13) H13).
    rewrite (is_linebreak_boundary H13 Hc); reflexivity.
Qed.

(** The lines of a text are the lines that [str.splitlines] returns. *)
Lemma text_lines_splitlines content lines :
  text_lines content lines -> splitlines content = lines.
Proof.
  unfold splitlines; induction 1 as [|l Hne Hl|l b rest ls Hl Hb _ IH].
  - reflexivity.
  - rewrite forallb_inside in Hl.
    rewrite <- (app_nil_r l) at 1.
    rewrite splitlines_from_run by exact Hl.
    rewrite app_nil_r; cbn [splitlines_from].
    destruct (rev l) eqn:E; [|rewrite <- E, rev_involutive; reflexivity].
    apply (f_equal (@rev char)) in E; rewrite rev_involutive in E.
    contradiction.
  - rewrite forallb_inside in Hl.
    rewrite splitlines_from_run by exact Hl.
    rewrite app_nil_r, splitlines_from_break by exact Hb.
    rewrite rev_involutive, IH; reflexivity.
Qed.

Lemma splitlines_from_lines : forall n (s cur : str),
  List.length s <= n ->
  forallb no_linebreak cur = true ->
  text_lines (rev cur ++ s) (splitlines_from cur s).
Proof.
  induction n as [|n IH]; intros s cur Hn Hcur.
  - destruct s; [|cbn in Hn; lia].
    rewrite app_nil_r; cbn [splitlines_from].
    destruct cur as [|c cur]; [constructor|].
    constructor; [|rewrite forallb_inside, forallb_rev; exact Hcur].
    cbn [rev]; intros E; apply app_eq_nil in E; destruct E; discriminate.
  - assert (Hrev : forallb inside_line (rev cur) = true)
      by (rewrite forallb_inside, forallb_rev; exact Hcur).
    destruct s as [|c s].
    + rewrite app_nil_r; cbn [splitlines_from].
      destruct cur as [|c cur]; [constructor|].
      constructor; [|exact Hrev].
      cbn [rev]; intros E; apply app_eq_nil in E; destruct E; discriminate.
    + cbn [List.length] in Hn; cbn [splitlines_from].
      destruct (c =? 13)%N eqn:E13.
      * apply N.eqb_eq in E13; subst c.
        destruct s as [|d s'].
        -- apply (@lines_break (rev cur) [13%N] [] []);
             [exact Hrev | right; left; auto | constructor].
        -- cbn [List.length] in Hn.
           destruct (d =? 10)%N eqn:E10.
           ++ apply N.eqb_eq in E10; subst d.
              apply (@lines_break (rev cur) [13; 10]%N s');
                [exact Hrev | left; reflexivity|].
              apply (IH s' []); [lia | reflexivity].
           ++ apply (@lines_break (rev cur) [13%N] (d :: s'));
                [exact Hrev | right; left; split; [reflexivity|]|].
              ** apply N.eqb_neq; exact E10.
              ** apply (IH (d :: s') []); [cbn [List.length]; lia | reflexivity].
      * destruct (is_linebreak c) eqn:El.
        -- apply (@lines_break (rev cur) [c] s);
             [exact Hrev
             | right; right; exists c; split; [reflexivity|];
               apply is_linebreak_inv; exact El|].
           apply (IH s []); [lia | reflexivity].
        -- replace (rev cur ++ c :: s) with (rev (c :: cur) ++ s)
             by (cbn [rev]; rewrite <- app_assoc; reflexivity).
           apply IH; [lia|].
           cbn [forallb]; rewrite Hcur, andb_true_r.
           unfold no_linebreak; rewrite E13, El; reflexivity.
Qed.

(** Every text has its lines. *)
Lemma splitlines_lines content : text_lines content (splitlines content).
Proof.
  apply (@splitlines_from_lines (List.length content) content []);
    [lia | reflexivity].
Qed.

(** *** Trimming *)

Lemma isspace_white c : isspace c = is_white c.
Proof.
  unfold isspace, is_white, in_range, whitespace, char_in; cbn [existsb].
  apply Bool.eq_iff_eq_true.
  rewrite ?orb_true_iff, ?andb_true_iff, ?N.eqb_eq, ?N.leb_le; lia.
Qed.

Lemma forallb_white (l : str) : forallb is_white l = forallb isspace l.
Proof.
  induction l as [|c l IH]; [reflexivity|]; cbn [forallb].
  rewrite IH, isspace_white; reflexivity.
Qed.

Lemma dropwhile_split p s :
  exists pre, s = pre ++ dropwhile p s /\ forallb p pre = true.
Proof.
  induction s as [|c s (pre & E & H)]; cbn [dropwhile];
    [exists []; auto|].
  destruct (p c) eqn:Ec; [|exists []; auto].
  exists (c :: pre); cbn [app forallb]; rewrite Ec, H, <- E; auto.
Qed.

Lemma dropwhile_all p s : forallb p s = true -> dropwhile p s = [].
Proof.
  induction s as [|c s IH]; [reflexivity|]; cbn [forallb dropwhile].
  intros H; apply andb_true_iff in H; destruct H as [Hc H].
  rewrite Hc; exact (IH H).
Qed.

(** [strip] takes the whitespace before and after away, and nothing
    else. *)
Lemma strip_trimmed line : trimmed line (strip line).
Proof.
  destruct (dropwhile_split isspace line) as (a & Ea & Ha).
  destruct (dropwhile_split isspace (rev (dropwhile isspace line)))
    as (b & Eb & Hb).
  exists a, (rev b); split; [|split; [|split]].
  - rewrite Ea at 1; f_equal.
    rewrite <- (rev_involutive (dropwhile isspace line)), Eb at 1.
    rewrite rev_app_distr; reflexivity.
  - rewrite forallb_white; exact Ha.
  - rewrite forallb_white, forallb_rev; exact Hb.
  - destruct (strip_ends line) as [H1 H2]; split.
    + destruct (strip line); [exact I | rewrite <- isspace_white; exact H1].
    + destruct (rev (strip line)); [exact I|].
      rewrite <- isspace_white; exact H2.
Qed.

Lemma strip_blank line : truthy (strip line) = negb (blank line).
Proof.
  unfold blank; rewrite forallb_white.
  destruct (forallb isspace line) eqn:E; cbn [negb].
  - unfold strip; rewrite (dropwhile_all _ _ E); reflexivity.
  - destruct (strip line) eqn:Es; [|reflexivity].
    destruct (strip_trimmed line) as (a & b & El & Ha & Hb & _).
    rewrite Es in El; cbn [app] in El.
    rewrite forallb_white in Ha, Hb.
    rewrite El, forallb_app, Ha, Hb in E; discriminate.
Qed.

Lemma plain_lines_trimmed lines :
  Forall2 (fun line (d : descriptor) =>
             trimmed line (fst d) /\ fst d <> [] /\ snd d = [])
          (filter (fun line => negb (blank line)) lines)
          (List.map (fun line => (strip line, []))
                    (filter (fun line => truthy (strip line)) lines)).
Proof.
  induction lines as [|line lines IH]; [constructor|]; cbn [filter].
  rewrite strip_blank; destruct (negb (blank line)) eqn:E; [|exact IH].
  cbn [List.map]; constructor; [|exact IH]; cbn [fst snd].
  split; [apply strip_trimmed|]; split; [|reflexivity].
  rewrite <- strip_blank in E; destruct (strip line); discriminate.
Qed.

(** C5. In plain-list mode (a file name with none of the structured
    suffixes), for content that decodes as UTF-8, the text has its lines,
    and the loader returns, in line order, one descriptor for each line
    that holds more than whitespace: its path is the line without the
    whitespace before and after it, its method is empty.  The other lines
    contribute nothing. *)
Theorem plain_list_descriptors
        (json_load yaml_safe_load : list byte -> result value)
        (endpoint_file : UploadedFile) (content : str) :
  endswith (name endpoint_file) (py ".json") = false ->
  endswith_any (name endpoint_file) [py ".yaml"; py ".yml"] = false ->
  decode_utf8 (data endpoint_file) = Ok content ->
  (exists lines, text_lines content lines) /\
  forall lines, text_lines content lines ->
    exists ds,
      load_endpoints json_load yaml_safe_load endpoint_file = Ok ds /\
      Forall2 (fun line (d : descriptor) =>
                 trimmed line (fst d) /\ fst d <> [] /\ snd d = [])
              (filter (fun line => negb (blank line)) lines) ds.
Proof.
  intros Hj Hy Hd; split; [exists (splitlines content); apply splitlines_lines|].
  intros lines Hl; eexists; split.
  - apply plain_list_comprehension; eassumption.
  - rewrite (text_lines_splitlines Hl); apply plain_lines_trimmed.
Qed.

(** X23. What the descriptors of a plain list look like. *)
Theorem plain_descriptor_shape json_load yaml_safe_load f ds d :
  endswith (name f) (py ".json") = false ->
  endswith_any (name f) [py ".yaml"; py ".yml"] = false ->
  load_endpoints json_load yaml_safe_load f = Ok ds ->
  In d ds ->
  snd d = [] /\ fst d <> [] /\
  (match fst d with c :: _ => isspace c = false | [] => True end) /\
  (match rev (fst d) with c :: _ => isspace c = false | [] => True end) /\
  forallb no_linebreak (fst d) = true.
Proof.
  intros Hj Hy; unfold load_endpoints; rewrite Hj, Hy.
  destruct (decode_utf8 (data f)) as [content|e]; cbn [bind]; [|discriminate].
  intros H; injection H as <-.
  rewrite plain_endpoints_filter_map, in_map_iff.
  intros (line & <- & Hin); apply filter_In in Hin; destruct Hin as [Hin Ht].
  cbn [fst snd]; split; [reflexivity|].
  split; [destruct (strip line); [discriminate Ht | discriminate]|].
  destruct (strip_ends line) as [H1 H2]; repeat split; auto.
  apply strip_forallb; exact (@splitlines_no_linebreak content line Hin).
Qed.

(** ** The report and the run *)

Lemma filter_map_length {A B : Type} (f : B -> bool) (g : A -> B) l :
  List.length (filter f (List.map g l)) =
  List.length (filter (fun x => f (g x)) l).
Proof.
  induction l as [|x l IH]; [reflexivity|]; cbn [List.map filter].
  destruct (f (g x)); cbn [List.length]; rewrite IH; reflexivity.
Qed.

Lemma status_used used d :
  str_eqb (status (make_row used d)) (py "used") = mm_mem used d.
Proof. rewrite make_row_status; destruct (mm_mem used d); reflexivity. Qed.

Lemma status_unused used d :
  str_eqb (status (make_row used d)) (py "unused") = negb (mm_mem used d).
Proof. rewrite make_row_status; destruct (mm_mem used d); reflexivity. Qed.

(** X15. The three counts of the main script: the used and the unused rows
    add up to all rows, one per listed descriptor. *)
Theorem counts_add_up (endpoints : list descriptor) (used : MatchMap) :
  let rows := report_rows endpoints used in
  used_count rows = List.length (filter (mm_mem used) endpoints) /\
  unused_count rows =
    List.length (filter (fun d => negb (mm_mem used d)) endpoints) /\
  used_count rows + unused_count rows = all_count rows /\
  all_count rows = List.length endpoints.
Proof.
  cbv zeta; unfold used_count, unused_count, all_count.
  rewrite report_rows_map, !filter_map_length, length_map.
  assert (E1 : filter (fun d => str_eqb (status (make_row used d)) (py "used"))
                      endpoints = filter (mm_mem used) endpoints)
    by (apply filter_ext; intros d; apply status_used).
  assert (E2 : filter (fun d => str_eqb (status (make_row used d)) (py "unused"))
                      endpoints
               = filter (fun d => negb (mm_mem used d)) endpoints)
    by (apply filter_ext; intros d; apply status_unused).
  rewrite E1, E2; repeat split.
  apply filter_length.
Qed.

Lemma startswith_app prefix rest : startswith (prefix ++ rest) prefix = true.
Proof.
  induction prefix as [|c prefix IH]; [destruct rest; reflexivity|].
  cbn [app startswith]; rewrite N.eqb_refl, IH; reflexivity.
Qed.

Lemma filter_map_comm {A B : Type} (f : B -> bool) (g : A -> B) l :
  filter f (List.map g l) = List.map g (filter (fun x => f (g x)) l).
Proof.
  induction l as [|x l IH]; [reflexivity|]; cbn [List.map filter].
  destruct (f (g x)); cbn [List.map]; rewrite IH; reflexivity.
Qed.

Lemma used_rows endpoints used :
  filter (fun r => str_eqb (status r) (py "used")) (report_rows endpoints used)
  = report_rows (filter (mm_mem used) endpoints) used.
Proof.
  rewrite !report_rows_map, filter_map_comm; f_equal.
  apply filter_ext; intros d; apply status_used.
Qed.

Lemma unused_rows endpoints used :
  filter (fun r => str_eqb (status r) (py "unused"))
         (report_rows endpoints used)
  = report_rows (filter (fun d => negb (mm_mem used d)) endpoints) used.
Proof.
  rewrite !report_rows_map, filter_map_comm; f_equal.
  apply filter_ext; intros d; apply status_unused.
Qed.

Lemma kept_from_refl rows : kept_from rows rows.
Proof. induction rows; constructor; assumption. Qed.

Lemma kept_from_nil rows : kept_from [] rows.
Proof. induction rows; constructor; assumption. Qed.

Lemma select_rows_kept rows : forall mask,
  kept_from (select_rows mask rows) rows.
Proof.
  unfold select_rows; induction rows as [|r rows IH]; intros mask.
  - destruct mask; constructor.
  - destruct mask as [|b mask]; [apply kept_from_nil|].
    cbn [combine filter fst]; destruct b; cbn [List.map snd]; constructor;
      apply IH.
Qed.

(** The label starts with the word that the script tests for. *)
Lemma label_all (n : str) rows :
  apply_status_filter (py "All (" ++ n) rows = rows.
Proof. reflexivity. Qed.

Lemma label_used (n : str) rows :
  apply_status_filter (py "Used (" ++ n) rows =
  filter (fun r => str_eqb (status r) (py "used")) rows.
Proof.
  unfold apply_status_filter.
  change (py "Used (") with (py "Used" ++ py " (").
  rewrite <- app_assoc, startswith_app; reflexivity.
Qed.

Lemma label_unused (n : str) rows :
  apply_status_filter (py "Unused (" ++ n) rows =
  filter (fun r => str_eqb (status r) (py "unused")) rows.
Proof.
  unfold apply_status_filter.
  change (py "Unused (") with (py "Unused" ++ py " (").
  rewrite <- app_assoc.
  change (startswith (py "Unused" ++ py " (" ++ n) (py "Used")) with false.
  rewrite startswith_app; reflexivity.
Qed.

(** X16. The table that is displayed.  With an empty search box the three
    labels of the radio button show, in this order: every row; the rows
    of the descriptors that have an occurrence; the rows of the
    descriptors that have none.  A search text only takes rows away:
    whatever the search, when the table is displayed its rows are rows
    that the same label shows with an empty search box, in the same
    order. *)
Theorem displayed_rows_by_status
        (str_contains : list str -> str -> result (list bool))
        (endpoints : list descriptor) (used : MatchMap) :
  let rows := report_rows endpoints used in
  let shown label := displayed str_contains label [] rows in
  List.map shown (status_labels rows) =
    [Ok rows;
     Ok (report_rows (filter (mm_mem used) endpoints) used);
     Ok (report_rows (filter (fun d => negb (mm_mem used d)) endpoints)
                     used)] /\
  forall label search out,
    In label (status_labels rows) ->
    displayed str_contains label search rows = Ok out ->
    exists base, shown label = Ok base /\ kept_from out base.
Proof.
  cbv zeta; split.
  - unfold status_labels, displayed; cbn [List.map truthy].
    rewrite label_all, label_used, label_unused, used_rows, unused_rows.
    reflexivity.
  - intros label search out _; unfold displayed; cbn [truthy].
    destruct (truthy search).
    + destruct (str_contains _ search) as [mask|e]; cbn [bind]; [|discriminate].
      intros H; injection H as <-.
      eexists; split; [reflexivity | apply select_rows_kept].
    + intros H; injection H as <-.
      eexists; split; [reflexivity | apply kept_from_refl].
Qed.

(** X17. A run that completes reports every loaded descriptor, in order. *)
Theorem run_reports_every_descriptor
        json_load yaml_safe_load os endpoint_file input rows ws :
  main_script json_load yaml_safe_load os endpoint_file input
    = Some (Ok (rows, ws)) ->
  exists f endpoints,
    endpoint_file = Some f /\
    load_endpoints json_load yaml_safe_load f = Ok endpoints /\
    List.map row_key rows = endpoints /\
    all_count rows = List.length endpoints /\
    forall r, In r rows -> status r = py "used" \/ status r = py "unused".
Proof.
  unfold main_script; destruct endpoint_file as [f|]; [|discriminate].
  destruct (truthy input); [|discriminate].
  unfold run; intros H; injection H as H.
  destruct (load_endpoints json_load yaml_safe_load f) as [endpoints|e] eqn:EL;
    cbn [bind] in H; [|discriminate].
  destruct (scan_projects os endpoints _) as [[used w]|e]; cbn [bind] in H;
    [|discriminate].
  cbn [export_to_csv fst snd] in H; injection H as <- <-.
  exists f, endpoints; split; [reflexivity|]; split; [exact EL|].
  rewrite report_rows_map; repeat split.
  - rewrite map_map; erewrite map_ext; [apply map_id|].
    intros d; apply make_row_key.
  - unfold all_count; apply length_map.
  - intros r Hr; apply in_map_iff in Hr; destruct Hr as (d & <- & _).
    rewrite make_row_status; destruct (mm_mem used d); auto.
Qed.

Lemma merge_into_nil used_map : merge_into used_map [] = used_map.
Proof. reflexivity. Qed.

Lemma scan_without_sources os dir endpoints used ws :
  find_endpoints_in_code os dir endpoints = Ok (used, ws) ->
  source_files os dir = [] -> used = [] /\ ws = [].
Proof.
  intros H Hs.
  pose proof (find_endpoints_in_code_nonempty _ _ _ H) as Hne.
  destruct (find_endpoints_in_code_records _ _ _ H) as (patterns & _ & Hocc & Hw).
  rewrite Hs in Hocc, Hw; split; [|exact Hw].
  destruct used as [|[k l] used]; [reflexivity|].
  specialize (Hocc k); rewrite occurrences_cons, desc_eqb_refl in Hocc.
  cbn [flat_map] in Hocc; subst l.
  exfalso; exact (Hne k [] (or_introl eq_refl) eq_refl).
Qed.

(** X12. When no project holds a source file, every row is unused, with
    empty Files and Projects, and there is no warning. *)
Theorem no_source_file_all_unused os endpoints dirs used ws :
  scan_projects os endpoints dirs = Ok (used, ws) ->
  (forall dir, In dir dirs -> source_files os dir = []) ->
  used = [] /\ ws = [] /\
  snd (export_to_csv endpoints used) =
  List.map (fun d : descriptor => mkRow (fst d) (snd d) (py "unused") [] [])
           endpoints.
Proof.
  intros H Hs.
  destruct (scan_projects_aggregate _ _ _ H) as (results & HF & -> & ->).
  assert (E : Forall (fun r : MatchMap * list warning => r = ([], [])) results).
  { clear H; induction HF as [|dir [u w] dirs results Hr HF IH]; constructor.
    - destruct (scan_without_sources _ _ _ Hr (Hs dir (or_introl eq_refl)))
        as [-> ->]; reflexivity.
    - apply IH; intros d Hd; apply Hs; right; exact Hd. }
  assert (Hu : forall um, fold_left merge_into (List.map fst results) um = um).
  { clear H HF; induction E as [|r results -> _ IH]; intros um; [reflexivity|].
    cbn [List.map fold_left fst]; rewrite merge_into_nil; apply IH. }
  assert (Hw : List.concat (List.map snd results) = []).
  { clear H HF Hu; induction E as [|r results -> _ IH]; [reflexivity|].
    cbn [List.map List.concat snd app]; exact IH. }
  unfold aggregate; rewrite Hu, Hw; repeat split.
  cbn [export_to_csv snd]; rewrite report_rows_map.
  apply map_ext; intros [ep m]; reflexivity.
Qed.

(** ** The order of the projects *)

Lemma existsb_permutation {A : Type} (f : A -> bool) l l' :
  Permutation l l' -> existsb f l = existsb f l'.
Proof.
  intros H.
  destruct (existsb f l) eqn:E, (existsb f l') eqn:E'; try reflexivity.
  - apply existsb_exists in E; destruct E as (x & Hx & Hf).
    assert (existsb f l' = true)
      by (apply existsb_exists; exists x; split;
          [exact (Permutation_in x H Hx) | exact Hf]).
    congruence.
  - apply existsb_exists in E'; destruct E' as (x & Hx & Hf).
    assert (existsb f l = true)
      by (apply existsb_exists; exists x; split;
          [exact (Permutation_in x (Permutation_sym H) Hx) | exact Hf]).
    congruence.
Qed.

Lemma forall_permutation {A : Type} (P : A -> Prop) l l' :
  Permutation l l' -> Forall P l -> Forall P l'.
Proof.
  intros H HF; apply Forall_forall; intros x Hx.
  apply (proj1 (Forall_forall P l) HF).
  exact (Permutation_in x (Permutation_sym H) Hx).
Qed.

(** X13. Scanning the projects in another order gives every descriptor the
    same occurrences, in another order, and binds the same keys. *)
Theorem aggregate_project_order (partials partials' : list MatchMap) key :
  Permutation partials partials' ->
  Forall (@Dict.wf _ _) partials ->
  Permutation (occurrences (aggregate partials) key)
              (occurrences (aggregate partials') key) /\
  mm_mem (aggregate partials) key = mm_mem (aggregate partials') key.
Proof.
  intros Hp Hwf; unfold aggregate.
  pose proof (forall_permutation Hp Hwf) as Hwf'.
  rewrite !fold_merge_occurrences, !fold_merge_mem by assumption.
  split.
  - change (occurrences [] key) with (@nil occurrence); cbn [app].
    rewrite <- !flat_map_concat_map.
    apply Permutation_flat_map, Hp.
  - f_equal; apply existsb_permutation; exact Hp.
Qed.

(** ** The Projects column *)

Lemma str_compare_refl a : str_compare a a = Eq.
Proof.
  induction a as [|x a IH]; [reflexivity|]; cbn [str_compare].
  rewrite N.compare_refl; exact IH.
Qed.

Lemma str_compare_eq a : forall b, str_compare a b = Eq -> a = b.
Proof.
  induction a as [|x a IH]; intros [|y b]; cbn [str_compare];
    try discriminate; [reflexivity|].
  destruct (x ?= y)%N eqn:E; try discriminate.
  apply N.compare_eq in E; subst y; intros H; f_equal; apply IH, H.
Qed.

Lemma str_compare_antisym a : forall b,
  str_compare b a = CompOpp (str_compare a b).
Proof.
  induction a as [|x a IH]; intros [|y b]; cbn [str_compare]; try reflexivity.
  rewrite (N.compare_antisym x y).
  destruct (x ?= y)%N; cbn [CompOpp]; [apply IH | reflexivity | reflexivity].
Qed.

Lemma str_lt_trans a : forall b c, str_lt a b -> str_lt b c -> str_lt a c.
Proof.
  unfold str_lt; induction a as [|x a IH]; intros [|y b] [|z c];
    cbn [str_compare]; try discriminate; try reflexivity.
  destruct (x ?= y)%N eqn:Exy; try discriminate;
    destruct (y ?= z)%N eqn:Eyz; try discriminate; intros H1 H2.
  - apply N.compare_eq in Exy, Eyz; subst y z.
    rewrite N.compare_refl; exact (IH _ _ H1 H2).
  - apply N.compare_eq in Exy; subst y; rewrite Eyz; reflexivity.
  - apply N.compare_eq in Eyz; subst z; rewrite Exy; reflexivity.
  - assert (E : (x ?= z)%N = Lt)
      by (apply N.compare_lt_iff; apply N.compare_lt_iff in Exy, Eyz;
          exact (N.lt_trans _ _ _ Exy Eyz)).
    rewrite E; reflexivity.
Qed.

Lemma str_lt_irrefl a : ~ str_lt a a.
Proof. unfold str_lt; rewrite str_compare_refl; discriminate. Qed.

Lemma in_insert_uniq x l y :
  In y (insert_uniq x l) <-> y = x \/ In y l.
Proof.
  induction l as [|z l IH]; cbn [insert_uniq In]; [intuition congruence|].
  destruct (str_compare x z) eqn:E; cbn [In].
  - apply str_compare_eq in E; subst z; intuition congruence.
  - intuition congruence.
  - rewrite IH; intuition congruence.
Qed.

Lemma insert_uniq_sorted x l :
  StronglySorted str_lt l -> StronglySorted str_lt (insert_uniq x l).
Proof.
  induction 1 as [|z l Hs IH Hz]; cbn [insert_uniq]; [repeat constructor|].
  destruct (str_compare x z) eqn:E.
  - constructor; assumption.
  - constructor; [constructor; assumption|].
    constructor; [exact E|].
    apply Forall_forall; intros y Hy.
    apply (str_lt_trans E), (proj1 (Forall_forall _ _) Hz y Hy).
  - constructor; [exact IH|].
    apply Forall_forall; intros y Hy; apply in_insert_uniq in Hy.
    destruct Hy as [->|Hy]; [|exact (proj1 (Forall_forall _ _) Hz y Hy)].
    unfold str_lt; rewrite (str_compare_antisym x z), E; reflexivity.
Qed.

Lemma sorted_set_from items : forall acc,
  StronglySorted str_lt acc ->
  StronglySorted str_lt (fold_left (fun acc x => insert_uniq x acc) items acc) /\
  forall y, In y (fold_left (fun acc x => insert_uniq x acc) items acc) <->
            In y acc \/ In y items.
Proof.
  induction items as [|x items IH]; intros acc Hacc; cbn [fold_left In].
  - split; [exact Hacc | intuition].
  - destruct (IH _ (insert_uniq_sorted x Hacc)) as [Hs Hin]; split; [exact Hs|].
    intros y; rewrite Hin, in_insert_uniq; intuition congruence.
Qed.

Lemma strongly_sorted_nodup l : StronglySorted str_lt l -> NoDup l.
Proof.
  induction 1 as [|z l _ IH Hz]; constructor; [|exact IH].
  intros Hin; exact (str_lt_irrefl (proj1 (Forall_forall _ _) Hz z Hin)).
Qed.

(** X14. The Projects column of a used row lists the projects of the row's
    occurrences, each once, in increasing order. *)
Theorem projects_column used d occs :
  mm_get used d = Some occs ->
  exists names,
    projects (make_row used d) = join (py ", ") names /\
    StronglySorted str_lt names /\ NoDup names /\
    forall n, In n names <-> exists fp ln, In (fp, ln, n) occs.
Proof.
  intros H; destruct d as [ep m]; unfold make_row; rewrite H; cbn [projects].
  set (ps := List.map (fun '(_, _, p) => p) occs).
  destruct (@sorted_set_from ps [] (SSorted_nil _)) as [Hs Hin].
  exists (sorted_set ps); split; [reflexivity|].
  split; [exact Hs|]; split; [exact (strongly_sorted_nodup Hs)|].
  intros n; unfold sorted_set; rewrite Hin; unfold ps; rewrite in_map_iff.
  split.
  - intros [[]|([[fp ln] p] & <- & Ho)]; exists fp, ln; exact Ho.
  - intros (fp & ln & Ho); right; exists (fp, ln, n); auto.
Qed.

(** ** The case of the line *)

Lemma lower_low_inv c x : (x < 65)%N -> lower c = x -> c = x.
Proof.
  unfold lower; intros Hx.
  destruct ((65 <=? c)%N && (c <=? 90)%N) eqn:E; [|auto].
  apply andb_true_iff in E; destruct E as [E _]; apply N.leb_le in E.
  intros H; exfalso; revert Hx; rewrite <- H.
  apply N.le_ngt, (N.le_trans _ c); [exact E | apply N.le_add_r].
Qed.

Lemma lower_eqb_low a b x :
  (x < 65)%N -> lower a = lower b -> (a =? x)%N = (b =? x)%N.
Proof.
  intros Hx H.
  destruct (a =? x)%N eqn:Ea, (b =? x)%N eqn:Eb; try reflexivity.
  - apply N.eqb_eq in Ea; subst a; apply N.eqb_neq in Eb.
    destruct Eb; apply (@lower_low_inv b x Hx); rewrite <- H.
    unfold lower; destruct ((65 <=? x)%N && (x <=? 90)%N) eqn:E; [|reflexivity].
    apply andb_true_iff in E; destruct E as [E _]; apply N.leb_le in E.
    exfalso; exact (proj1 (N.le_ngt _ _) E Hx).
  - apply N.eqb_eq in Eb; subst b; apply N.eqb_neq in Ea.
    destruct Ea; apply (@lower_low_inv a x Hx); rewrite H.
    unfold lower; destruct ((65 <=? x)%N && (x <=? 90)%N) eqn:E; [|reflexivity].
    apply andb_true_iff in E; destruct E as [E _]; apply N.leb_le in E.
    exfalso; exact (proj1 (N.le_ngt _ _) E Hx).
Qed.

Lemma forallb_not_low x s : forall s',
  (x < 65)%N -> List.map lower s = List.map lower s' ->
  forallb (fun c => negb (c =? x)%N) s =
  forallb (fun c => negb (c =? x)%N) s'.
Proof.
  induction s as [|c s IH]; intros [|c' s'] Hx H; try discriminate;
    [reflexivity|].
  cbn [List.map] in H; injection H as Hc H.
  cbn [forallb]; rewrite (@lower_eqb_low c c' x Hx Hc), (IH s' Hx H).
  reflexivity.
Qed.

(** The engine's tables on the ASCII letters: a capital letter and its
    small letter are cased and have the small letter as their lower case. *)
Lemma ascii_letters_fold :
  forallb (fun x => (Re.unicode_tolower x =? x + 32)%N &&
                    (Re.unicode_tolower (x + 32) =? x + 32)%N &&
                    Re.unicode_iscased x && Re.unicode_iscased (x + 32)%N)
          (List.map N.of_nat (seq 65 26)) = true.
Proof. vm_compute; reflexivity. Qed.

Lemma capital_fold x :
  (65 <= x)%N -> (x <= 90)%N ->
  Re.unicode_tolower x = (x + 32)%N /\
  Re.unicode_tolower (x + 32)%N = (x + 32)%N /\
  Re.unicode_iscased x = true /\ Re.unicode_iscased (x + 32)%N = true.
Proof.
  intros H1 H2.
  assert (Hin : In x (List.map N.of_nat (seq 65 26))).
  { apply in_map_iff; exists (N.to_nat x); split; [apply N2Nat.id|].
    apply in_seq; lia. }
  pose proof (proj1 (forallb_forall _ _) ascii_letters_fold x Hin) as H.
  cbv beta in H.
  apply andb_true_iff in H; destruct H as [H H4].
  apply andb_true_iff in H; destruct H as [H H3].
  apply andb_true_iff in H; destruct H as [Ha Hb].
  apply N.eqb_eq in Ha, Hb; auto.
Qed.

(** Two characters with the same ASCII lower case are one character, or a
    capital letter and its small letter. *)
Lemma lower_eq_cases a b :
  lower a = lower b ->
  a = b \/
  (exists x, (65 <= x)%N /\ (x <= 90)%N /\
             ((a = x /\ b = (x + 32)%N) \/ (a = (x + 32)%N /\ b = x))).
Proof.
  unfold lower.
  destruct ((65 <=? a)%N && (a <=? 90)%N) eqn:Ea;
    destruct ((65 <=? b)%N && (b <=? 90)%N) eqn:Eb; intros H.
  - left; lia.
  - apply andb_true_iff in Ea; destruct Ea as [E1 E2].
    apply N.leb_le in E1, E2.
    right; exists a; repeat split; auto.
  - apply andb_true_iff in Eb; destruct Eb as [E1 E2].
    apply N.leb_le in E1, E2.
    right; exists b; repeat split; auto.
  - left; exact H.
Qed.

Lemma same_letter_case c c' c'' :
  same_letter c c' -> lower c' = lower c'' -> same_letter c c''.
Proof.
  intros Hs Hl; apply lower_eq_cases in Hl.
  destruct Hl as [->|(x & H1 & H2 & Hx)]; [exact Hs|].
  destruct (capital_fold H1 H2) as (Lx & Ly & Cx & Cy).
  revert Hs; unfold same_letter.
  destruct (Re.unicode_iscased c) eqn:Ec.
  - destruct Hx as [[-> ->]|[-> ->]]; rewrite Lx, Ly; auto.
  - destruct Hx as [[-> ->]|[-> ->]]; intros <-; congruence.
Qed.

Lemma instantiates_case l text :
  instantiates l text ->
  forall text', List.map lower text = List.map lower text' ->
                instantiates l text'.
Proof.
  induction 1 as [|c c' l text Hc _ IH|seg l text Hne Hseg _ IH]; intros text' H.
  - destruct text'; [constructor | discriminate].
  - destruct text' as [|c'' text']; [discriminate|].
    cbn [List.map] in H; injection H as Hc' H.
    apply inst_char;
      [exact (@same_letter_case c c' c'' Hc Hc') | exact (IH _ H)].
  - rewrite map_app in H; symmetry in H.
    apply map_eq_app in H; destruct H as (seg' & t' & -> & Hs & Ht).
    constructor.
    + destruct seg'; [|discriminate].
      destruct seg; [contradiction | discriminate].
    + rewrite (@forallb_not_low 47%N seg' seg eq_refl Hs); exact Hseg.
    + apply IH; auto.
Qed.

Lemma line_end_case e e' :
  line_end e -> List.map lower e = List.map lower e' -> line_end e'.
Proof.
  intros [->| ->] H.
  - destruct e'; [left; reflexivity | discriminate].
  - destruct e' as [|c [|d e']]; try discriminate.
    cbn [List.map] in H; injection H as H.
    right; f_equal; symmetry in H.
    exact (@lower_low_inv c NL eq_refl H).
Qed.

Lemma accepted_case e line line' :
  has_backslash_colon e = false ->
  List.map lower line = List.map lower line' ->
  matches e line = Some true -> matches e line' = Some true.
Proof.
  intros He H Hm.
  apply (proj2 (matcher_accepts_iff_fact e line He)) in Hm.
  destruct Hm as (before & text & tail & e_end & -> & Hi & Hnf & Hend).
  apply (proj2 (matcher_accepts_iff_fact e line' He)).
  rewrite !map_app in H; symmetry in H.
  apply map_eq_app in H; destruct H as (b' & r1 & -> & Hb & H).
  apply map_eq_app in H; destruct H as (t' & r2 & -> & Ht & H).
  apply map_eq_app in H; destruct H as (tl' & e' & -> & Htl & He').
  exists b', t', tl', e'; repeat split.
  - exact (@instantiates_case _ text Hi t' (eq_sym Ht)).
  - unfold newline_free in *.
    rewrite (@forallb_not_low NL tl' tail eq_refl Htl); exact Hnf.
  - exact (@line_end_case e_end e' Hend (eq_sym He')).
Qed.

(** X4. The matcher does not see the case of the letters of the line. *)
Theorem matching_ignores_line_case e line line' :
  has_backslash_colon e = false ->
  List.map lower line = List.map lower line' ->
  matches e line = matches e line'.
Proof.
  intros He H.
  destruct (proj1 (matcher_accepts_iff_fact e line He)) as [E|E];
    destruct (proj1 (matcher_accepts_iff_fact e line' He)) as [E'|E'];
    rewrite E, E'; try reflexivity.
  - rewrite (@accepted_case e line line' He H E) in E'; discriminate.
  - rewrite (@accepted_case e line' line He (eq_sym H) E') in E; discriminate.
Qed.

(** ** Trailing slashes of the template *)

Lemma span_snoc p s c :
  p c = false ->
  span p (s ++ [c]) = (fst (span p s), snd (span p s) ++ [c]).
Proof.
  intros Hc; induction s as [|x s IH]; cbn [app span].
  - rewrite Hc; reflexivity.
  - destruct (p x); [|reflexivity].
    rewrite IH; destruct (span p s); reflexivity.
Qed.

Lemma param_len_snoc (s : str) : param_len (s ++ [47%N]) = param_len s.
Proof.
  destruct s as [|c s]; [reflexivity|]; cbn [app param_len].
  destruct (is_ident_start c); [|reflexivity].
  rewrite span_snoc by reflexivity; cbn [fst snd].
  destruct (snd (span is_ident_char s)); reflexivity.
Qed.

Lemma param_len_bound s n : param_len s = Some n -> n <= List.length s.
Proof.
  intros H; apply param_len_spec in H.
  destruct H as (c & run & rest & -> & _ & _ & -> & _).
  cbn [List.length]; rewrite length_app; cbn [List.length]; lia.
Qed.

Lemma items_from_snoc (s : str) : forall n,
  items_from n (s ++ [47%N]) =
  items_from n s ++ (if n <=? List.length s then [TChar 47%N] else []).
Proof.
  induction s as [|c s IH]; intros n.
  - destruct n; reflexivity.
  - cbn [app items_from List.length].
    destruct n as [|n]; [|rewrite IH; reflexivity].
    rewrite param_len_snoc.
    destruct (c =? 123)%N; [destruct (param_len s) as [m|] eqn:Ep|];
      rewrite IH; try reflexivity.
    rewrite (proj2 (Nat.leb_le _ _) (@param_len_bound s m Ep)); reflexivity.
Qed.

Lemma rstrip_items_snoc l : rstrip_items (l ++ [TChar 47%N]) = rstrip_items l.
Proof. unfold rstrip_items; rewrite rev_app_distr; reflexivity. Qed.

Lemma has_backslash_colon_snoc (e : str) :
  has_backslash_colon (e ++ [47%N]) = has_backslash_colon e.
Proof.
  induction e as [|c e IH]; [reflexivity|].
  cbn [app]; rewrite !has_backslash_colon_cons, IH.
  destruct e; cbn [app head_is]; [rewrite !andb_false_r|]; reflexivity.
Qed.

(** X5. A slash at the end of the template changes nothing. *)
Theorem trailing_slash_ignored e line :
  has_backslash_colon e = false ->
  endpoint_to_regex (e ++ py "/") = endpoint_to_regex e /\
  matches (e ++ py "/") line = matches e line.
Proof.
  intros H; change (py "/") with [47%N].
  assert (E : endpoint_to_regex (e ++ [47%N]) = endpoint_to_regex e).
  { rewrite !endpoint_to_regex_items_fact
      by (try rewrite has_backslash_colon_snoc; exact H).
    unfold items; rewrite items_from_snoc; cbn [Nat.leb].
    rewrite rstrip_items_snoc; reflexivity. }
  split; [exact E | unfold matches; rewrite E; reflexivity].
Qed.

(** ** Instances *)

Lemma nodup_one {A : Type} (x : A) : NoDup [x].
Proof. constructor; [intros [] | constructor]. Defined.

Lemma nodup_two {A : Type} (x y : A) : x <> y -> NoDup [x; y].
Proof.
  intros H; constructor; [intros [E|[]]; exact (H (eq_sym E)) | apply nodup_one].
Defined.

Lemma endpoint_to_regex_items_witness :
  endpoint_to_regex (py "/users/{id}/") =
  Some (Re.mkPattern
          (chain (rstrip_items (items (py "/users/{id}/"))) suffix_regex) true).
Proof. apply endpoint_to_regex_items; reflexivity. Defined.

Lemma matcher_accepts_iff_witness :
  (matches (py "/users/{id}") (py "fetch('/users/42')") = Some true \/
   matches (py "/users/{id}") (py "fetch('/users/42')") = Some false) /\
  (matches (py "/users/{id}") (py "fetch('/users/42')") = Some true <->
   exists before text tail e_end,
     py "fetch('/users/42')" = before ++ text ++ tail ++ e_end /\
     instantiates (rstrip_items (items (py "/users/{id}"))) text /\
     newline_free tail = true /\ line_end e_end).
Proof. apply matcher_accepts_iff; reflexivity. Defined.

Lemma colon_substitution_never_fires_witness :
  Re.sub (py "\\:([a-zA-Z_][a-zA-Z0-9_]*)") (py "[^/]+")
         (Re.escape (py "/users/:id")) = Some (Re.escape (py "/users/:id")).
Proof. apply colon_substitution_never_fires; reflexivity. Defined.

Lemma matching_ignores_line_case_witness :
  matches (py "/health") (py "GET /HEALTH") =
  matches (py "/health") (py "get /health").
Proof. apply matching_ignores_line_case; reflexivity. Defined.

Lemma trailing_slash_ignored_witness :
  endpoint_to_regex (py "/users/{id}" ++ py "/") =
    endpoint_to_regex (py "/users/{id}") /\
  matches (py "/users/{id}" ++ py "/") (py "get('/users/7')") =
    matches (py "/users/{id}") (py "get('/users/7')").
Proof. apply trailing_slash_ignored; reflexivity. Defined.

Lemma scan_returns_witness :
  (exists used ws,
     find_endpoints_in_code Examples.web_os (py "web")
                            [Examples.ping; Examples.orders] = Ok (used, ws)) /\
  (exists used ws,
     scan_projects Examples.web_os [Examples.ping; Examples.orders]
                   [py "web"; py "app"] = Ok (used, ws)).
Proof. apply scan_returns; repeat constructor. Defined.

Lemma scanner_records_iff_witness :
  In (py "web/api.js", 1, py "web")
     (occurrences Examples.ping_map Examples.ping) <->
  py "web" = basename_abspath Examples.web_os (py "web") /\
  In (py "web/api.js") (source_files Examples.web_os (py "web")) /\
  In Examples.ping [Examples.ping] /\
  exists line,
    1 <= 1 /\
    nth_error (file_lines (read_lines Examples.web_os (py "web/api.js")))
              (1 - 1) = Some line /\
    matches (fst Examples.ping) line = Some true.
Proof.
  apply (@scanner_records_iff Examples.web_os (py "web") [Examples.ping]
           Examples.ping_map []).
  vm_compute; reflexivity.
Defined.

Lemma scanner_occurrences_in_order_witness :
  occurrences (fst MoreExamples.flaky_scan) MoreExamples.ping_get =
  flat_map (fun fp =>
              List.map (fun j => (fp, j,
                                  basename_abspath MoreExamples.flaky_os (py "web")))
                (accepted_lines (fst MoreExamples.ping_get)
                   (file_lines (read_lines MoreExamples.flaky_os fp))))
           (source_files MoreExamples.flaky_os (py "web")).
Proof.
  apply (@scanner_occurrences_in_order MoreExamples.flaky_os (py "web")
           [MoreExamples.ping_get; MoreExamples.ping_post]
           (fst MoreExamples.flaky_scan) (snd MoreExamples.flaky_scan)).
  - apply nodup_two; discriminate.
  - vm_compute; reflexivity.
  - left; reflexivity.
Defined.

Example flaky_scan_value :
  MoreExamples.flaky_scan =
  ([(MoreExamples.ping_get,
     [(py "web/api.js", 1, py "web"); (py "web/broken.ts", 1, py "web")]);
    (MoreExamples.ping_post,
     [(py "web/api.js", 1, py "web"); (py "web/broken.ts", 1, py "web")])],
   [(py "web/broken.ts", py "'utf-8' codec can't decode byte 0xff")]).
Proof. vm_compute; reflexivity. Qed.

Lemma method_never_restricts_witness :
  occurrences (fst MoreExamples.flaky_scan) (py "/ping", py "GET") =
  occurrences (fst MoreExamples.flaky_scan) (py "/ping", py "POST").
Proof.
  apply (@method_never_restricts MoreExamples.flaky_os (py "web")
           [MoreExamples.ping_get; MoreExamples.ping_post]
           (fst MoreExamples.flaky_scan) (snd MoreExamples.flaky_scan)).
  - apply nodup_two; discriminate.
  - vm_compute; reflexivity.
  - left; reflexivity.
  - right; left; reflexivity.
Defined.

Lemma scanner_warnings_witness :
  snd MoreExamples.flaky_scan =
  flat_map (fun fp => file_warning fp (read_lines MoreExamples.flaky_os fp))
           (source_files MoreExamples.flaky_os (py "web")).
Proof.
  apply (@scanner_warnings MoreExamples.flaky_os (py "web")
           [MoreExamples.ping_get; MoreExamples.ping_post]
           (fst MoreExamples.flaky_scan)).
  vm_compute; reflexivity.
Defined.

Lemma scan_has_no_duplicate_witness :
  NoDup (occurrences (fst MoreExamples.flaky_scan) MoreExamples.ping_get).
Proof.
  apply (@scan_has_no_duplicate MoreExamples.flaky_os (py "web")
           [MoreExamples.ping_get; MoreExamples.ping_post]
           (fst MoreExamples.flaky_scan) (snd MoreExamples.flaky_scan)).
  - apply nodup_two; discriminate.
  - change (source_files MoreExamples.flaky_os (py "web"))
      with [py "web/api.js"; py "web/broken.ts"].
    apply nodup_two; discriminate.
  - vm_compute; reflexivity.
Defined.

Lemma no_source_file_all_unused_witness :
  (@nil (descriptor * list occurrence)) = [] /\ (@nil warning) = [] /\
  snd (export_to_csv [Examples.ping; Examples.orders] []) =
  List.map (fun d : descriptor => mkRow (fst d) (snd d) (py "unused") [] [])
           [Examples.ping; Examples.orders].
Proof.
  apply (@no_source_file_all_unused MoreExamples.docs_os
           [Examples.ping; Examples.orders] [py "docs"; py "site"]).
  - vm_compute; reflexivity.
  - intros dir _; reflexivity.
Defined.

Lemma aggregate_project_order_witness :
  Permutation
    (occurrences (aggregate [Examples.ping_map; Examples.app_map]) Examples.ping)
    (occurrences (aggregate [Examples.app_map; Examples.ping_map]) Examples.ping)
  /\
  mm_mem (aggregate [Examples.ping_map; Examples.app_map]) Examples.ping =
  mm_mem (aggregate [Examples.app_map; Examples.ping_map]) Examples.ping.
Proof.
  apply aggregate_project_order.
  - apply perm_swap.
  - repeat constructor; simpl; tauto.
Defined.

Lemma projects_column_witness :
  exists names,
    projects (make_row (aggregate [Examples.ping_map; Examples.app_map])
                       Examples.ping) = join (py ", ") names /\
    StronglySorted str_lt names /\ NoDup names /\
    forall n, In n names <->
      exists fp ln,
        In (fp, ln, n)
           [(py "web/api.js", 1, py "web"); (py "app/main.dart", 7, py "app")].
Proof.
  apply projects_column; vm_compute; reflexivity.
Defined.

Lemma displayed_rows_by_status_witness :
  In (py "Used (1)")
     (status_labels (report_rows [Examples.ping; Examples.orders]
                                 Examples.ping_map)) /\
  displayed MoreExamples.plain_contains (py "Used (1)") (py "pin")
            (report_rows [Examples.ping; Examples.orders] Examples.ping_map)
    = Ok (report_rows [Examples.ping] Examples.ping_map) /\
  exists base,
    displayed MoreExamples.plain_contains (py "Used (1)") []
              (report_rows [Examples.ping; Examples.orders] Examples.ping_map)
      = Ok base /\
    kept_from (report_rows [Examples.ping] Examples.ping_map) base.
Proof.
  assert (H1 : In (py "Used (1)")
                  (status_labels (report_rows [Examples.ping; Examples.orders]
                                              Examples.ping_map)))
    by (right; left; vm_compute; reflexivity).
  assert (H2 : displayed MoreExamples.plain_contains (py "Used (1)") (py "pin")
                 (report_rows [Examples.ping; Examples.orders]
                              Examples.ping_map)
               = Ok (report_rows [Examples.ping] Examples.ping_map))
    by (vm_compute; reflexivity).
  split; [exact H1|]; split; [exact H2|].
  exact (proj2 (@displayed_rows_by_status MoreExamples.plain_contains
                  [Examples.ping; Examples.orders] Examples.ping_map)
               (py "Used (1)") (py "pin")
               (report_rows [Examples.ping] Examples.ping_map) H1 H2).
Defined.

Example search_takes_rows_away :
  displayed MoreExamples.plain_contains (py "All (2)") (py "ord")
            MoreExamples.two_rows =
  Ok (report_rows [Examples.orders] Examples.ping_map).
Proof. vm_compute; reflexivity. Qed.

Lemma run_reports_every_descriptor_witness :
  exists f endpoints,
    Some Examples.text_file = Some f /\
    load_endpoints Examples.rejecting_parser Examples.rejecting_parser f
      = Ok endpoints /\
    List.map row_key (fst MoreExamples.text_run) = endpoints /\
    all_count (fst MoreExamples.text_run) = List.length endpoints /\
    forall r, In r (fst MoreExamples.text_run) ->
              status r = py "used" \/ status r = py "unused".
Proof.
  apply (@run_reports_every_descriptor
           Examples.rejecting_parser Examples.rejecting_parser
           Examples.web_os (Some Examples.text_file) (py "web")
           (fst MoreExamples.text_run) (snd MoreExamples.text_run)).
  vm_compute; reflexivity.
Defined.

Lemma structured_descriptors_witness :
  load_endpoints MoreExamples.openapi_parser Examples.rejecting_parser
                 Examples.json_file =
  Ok (capital_descriptors MoreExamples.two_paths).
Proof.
  apply (@structured_descriptors
           MoreExamples.openapi_parser Examples.rejecting_parser
           Examples.json_file
           [(py "openapi", VStr (py "3.0.0"));
            (py "paths", VDict MoreExamples.two_paths)]).
  - left; split; reflexivity.
  - reflexivity.
  - reflexivity.
  - reflexivity.
Defined.

Example structured_descriptors_value :
  capital_descriptors MoreExamples.two_paths =
  [(py "/ping", py "GET"); (py "/ping", py "POST");
   (py "/users/{id}", py "DELETE")].
Proof. vm_compute; reflexivity. Qed.

(** A method key outside ASCII: the upper case of the sharp s is two
    letters. *)
Example sharp_s_method :
  openapi_endpoints
    (VDict [(py "paths", VDict [(py "/a", VDict [([103; 223]%N, VNone)])])]) =
  Ok [(py "/a", py "GSS")].
Proof. vm_compute; reflexivity. Qed.

Lemma top_level_not_mapping_witness :
  load_endpoints Examples.rejecting_parser MoreExamples.empty_yaml_parser
                 MoreExamples.yaml_file =
  Raise (AttributeError (type_name VNone) (py "get")).
Proof.
  apply top_level_not_mapping; [right; repeat split; reflexivity | reflexivity].
Defined.

Lemma paths_not_mapping_witness :
  load_endpoints Examples.rejecting_parser MoreExamples.null_paths_parser
                 MoreExamples.yaml_file =
  Raise (AttributeError (type_name VNone) (py "items")).
Proof.
  apply (@paths_not_mapping
           Examples.rejecting_parser MoreExamples.null_paths_parser
           MoreExamples.yaml_file [(py "paths", VNone)]).
  - right; repeat split; reflexivity.
  - reflexivity.
  - reflexivity.
Defined.

Lemma path_item_not_mapping_witness :
  load_endpoints Examples.rejecting_parser MoreExamples.null_item_parser
                 MoreExamples.yaml_file =
  Raise (AttributeError (type_name VNone) (py "keys")).
Proof.
  apply (@path_item_not_mapping
           Examples.rejecting_parser MoreExamples.null_item_parser
           MoreExamples.yaml_file
           [(py "paths",
              VDict ([(py "/ping", VDict [(py "get", VDict [])])]
                       ++ (py "/users", VNone)
                       :: [(py "/orders", VDict [(py "get", VDict [])])]))]
           [(py "/ping", VDict [(py "get", VDict [])])]
           (py "/users") VNone
           [(py "/orders", VDict [(py "get", VDict [])])]).
  - right; repeat split; reflexivity.
  - reflexivity.
  - reflexivity.
  - reflexivity.
Defined.

Lemma undecodable_list_is_fatal_witness :
  load_endpoints Examples.rejecting_parser Examples.rejecting_parser
                 MoreExamples.latin1_file = Raise (UnicodeDecodeError 1) /\
  main_script Examples.rejecting_parser Examples.rejecting_parser
              Examples.web_os (Some MoreExamples.latin1_file) (py "web")
    = Some (Raise (UnicodeDecodeError 1)).
Proof.
  apply undecodable_list_is_fatal; try reflexivity.
  vm_compute; discriminate.
Defined.

Lemma plain_list_descriptors_witness :
  (exists lines,
      text_lines (py "  /ping " ++ [10; 10]%N ++ py "/users/{id}"
                     ++ [13; 10]%N) lines) /\
  forall lines,
    text_lines (py "  /ping " ++ [10; 10]%N ++ py "/users/{id}"
                   ++ [13; 10]%N) lines ->
    exists ds,
      load_endpoints Examples.rejecting_parser Examples.rejecting_parser
                     Examples.text_file = Ok ds /\
      Forall2 (fun line (d : descriptor) =>
                 trimmed line (fst d) /\ fst d <> [] /\ snd d = [])
              (filter (fun line => negb (blank line)) lines) ds.
Proof.
  apply plain_list_descriptors; vm_compute; reflexivity.
Defined.

Example text_file_lines :
  text_lines (py "  /ping " ++ [10; 10]%N ++ py "/users/{id}" ++ [13; 10]%N)
             [py "  /ping "; []; py "/users/{id}"].
Proof.
  apply (@lines_break (py "  /ping ") [10%N]);
    [reflexivity
    | right; right; exists 10%N; repeat split; discriminate|].
  apply (@lines_break [] [10%N]);
    [reflexivity
    | right; right; exists 10%N; repeat split; discriminate|].
  apply (@lines_break (py "/users/{id}") [13; 10]%N []);
    [reflexivity | left; reflexivity | constructor].
Qed.

Lemma plain_descriptor_shape_witness :
  snd (py "/ping", @nil char) = [] /\ fst (py "/ping", @nil char) <> [] /\
  (match fst (py "/ping", @nil char) with
   | c :: _ => isspace c = false | [] => True end) /\
  (match rev (fst (py "/ping", @nil char)) with
   | c :: _ => isspace c = false | [] => True end) /\
  forallb no_linebreak (fst (py "/ping", @nil char)) = true.
Proof.
  apply (@plain_descriptor_shape
           Examples.rejecting_parser Examples.rejecting_parser
           Examples.text_file
           [(py "/ping", []); (py "/users/{id}", [])]).
  - reflexivity.
  - reflexivity.
  - vm_compute; reflexivity.
  - left; reflexivity.
Defined.
